(** * Scrabble game core: board, tiles and racks

    A shallow embedding of the Go package [game] (board, tile bag and
    player rack) together with the properties its design document states
    about them.

    Conventions of the embedding:
    - Go [int] and [rune] values are integers in [Z]; where the source does
      arithmetic on them the wrap-around of the machine type is written
      out ([wrap64], [wrap32], [byte_sub]).
    - Go strings are [string]s of bytes ([ascii]); literals of the source
      are kept as they are.
    - A nil pointer or nil slice is [None].
    - Run-time panics (an index or slice bound out of range) are the
      [Panic] outcome of the [Go] monad, so that "never indexes outside the
      array" is a statement about the embedding.
    - [error] values are a closed type with one constructor per message of
      the source, carrying the values the message formats.
    - Locks are not modelled: every method is embedded as the sequential
      function it is under its mutex. *)

From Stdlib Require Import ZArith Ascii String List Lia.
From stdpp Require Import base option list gmap strings sorting.

Open Scope Z_scope.

(** * Part I: the program *)

(** ** Outcomes of Go code: a value or a run-time panic *)

Inductive Go (A : Type) : Type :=
  | Ret (a : A)
  | Panic.
Arguments Ret {A} a.
Arguments Panic {A}.

#[global] Instance Go_ret : MRet Go := λ A a, Ret a.
#[global] Instance Go_bind : MBind Go := λ A B f m,
  match m with
  | Ret a => f a
  | Panic => Panic
  end.

(** [for _, x := range l { s = body(s, x) }] *)
Fixpoint forRange {S A : Type} (body : S → A → Go S) (s : S) (l : list A) : Go S :=
  match l with
  | [] => Ret s
  | x :: l' => s' ← body s x; forRange body s' l'
  end.

(** [l[i]] as a read: panics outside [0, len(l)). *)
Definition index {A : Type} (l : list A) (i : Z) : Go A :=
  if i <? 0 then Panic
  else match l !! Z.to_nat i with
       | Some x => Ret x
       | None => Panic
       end.

(** [l[i] = x]: panics outside [0, len(l)). *)
Definition store {A : Type} (l : list A) (i : Z) (x : A) : Go (list A) :=
  if (i <? 0) || (Z.of_nat (length l) <=? i) then Panic
  else Ret (<[Z.to_nat i := x]> l).

(** [l[i:]] and [l[:i]]: panic outside [0, len(l)]. *)
Definition slice_from {A : Type} (l : list A) (i : Z) : Go (list A) :=
  if (i <? 0) || (Z.of_nat (length l) <? i) then Panic
  else Ret (drop (Z.to_nat i) l).

Definition slice_to {A : Type} (l : list A) (i : Z) : Go (list A) :=
  if (i <? 0) || (Z.of_nat (length l) <? i) then Panic
  else Ret (take (Z.to_nat i) l).

(** The builtin [copy(dst, src)]: overwrites the first
    [min(len(dst), len(src))] elements of [dst]. *)
Definition copy {A : Type} (dst src : list A) : list A :=
  let n := Nat.min (length dst) (length src) in
  take n src ++ drop n dst.

(** Machine integers. *)
Definition wrap (bits : Z) (x : Z) : Z :=
  (x + 2 ^ (bits - 1)) mod 2 ^ bits - 2 ^ (bits - 1).
Definition wrap64 : Z → Z := wrap 64.
Definition wrap32 : Z → Z := wrap 32.

(** ** Strings *)

Module GoString.

Definition byte_val (c : ascii) : Z := Z.of_N (N_of_ascii c).
Definition byte_of (z : Z) : ascii := ascii_of_N (Z.to_N (z mod 256)).

(** [a - b] on values of type [byte] (uint8): the difference modulo 256. *)
Definition byte_sub (a b : ascii) : Z := (byte_val a - byte_val b) mod 256.

Definition len (s : string) : Z := Z.of_nat (String.length s).

(** [s[i]] on a string. *)
Definition at_ (s : string) (i : Z) : Go ascii :=
  if i <? 0 then Panic
  else match String.get (Z.to_nat i) s with
       | Some c => Ret c
       | None => Panic
       end.

(** [s[i:]] on a string. *)
Definition from (s : string) (i : Z) : Go string :=
  if (i <? 0) || (len s <? i) then Panic
  else Ret (String.substring (Z.to_nat i) (String.length s - Z.to_nat i) s).

(** [strings.ToUpper] on a string of ASCII bytes: the letters a-z are
    mapped to A-Z, every other byte is kept. (On a string with a byte
    of 0x80 or more the library decodes UTF-8; the labels and literals
    of this development are ASCII.) *)
Definition upper_byte (c : ascii) : ascii :=
  let v := byte_val c in
  if (97 <=? v) && (v <=? 122) then byte_of (v - 32) else c.

Fixpoint ToUpper (s : string) : string :=
  match s with
  | EmptyString => EmptyString
  | String c s' => String (upper_byte c) (ToUpper s')
  end.

(** The white space of [strings.TrimSpace] among ASCII bytes:
    tab, line feed, vertical tab, form feed, carriage return, space. *)
Definition is_space (c : ascii) : bool :=
  let v := byte_val c in
  ((9 <=? v) && (v <=? 13)) || (v =? 32).

Fixpoint trim_left (s : string) : string :=
  match s with
  | EmptyString => EmptyString
  | String c s' => if is_space c then trim_left s' else s
  end.

(** Drops the trailing white space: a byte is kept when it is not a
    space or when something is kept after it. *)
Fixpoint trim_right (s : string) : string :=
  match s with
  | EmptyString => EmptyString
  | String c s' =>
      match trim_right s' with
      | EmptyString => if is_space c then EmptyString else String c EmptyString
      | t => String c t
      end
  end.

Definition TrimSpace (s : string) : string := trim_right (trim_left s).

(** Decimal digits of a non-negative integer, most significant first,
    pushed in front of [acc]; [fuel] bounds the number of digits. *)
Fixpoint digits (fuel : nat) (n : Z) (acc : string) : string :=
  match fuel with
  | O => acc
  | S fuel' =>
      let acc' := String (byte_of (48 + n mod 10)) acc in
      if n / 10 =? 0 then acc' else digits fuel' (n / 10) acc'
  end.

(** The verb [%d] of [fmt.Sprintf] on an [int]. The fuel, one more than
    the binary logarithm, is at least the number of decimal digits. *)
Definition Itoa (n : Z) : string :=
  let m := Z.abs n in
  let ds := digits (S (Z.to_nat (Z.log2 m))) m EmptyString in
  if n <? 0 then String "-" ds else ds.

(** [string(r)] for a [rune] [r]: its UTF-8 encoding, and the encoding
    of U+FFFD for a value that is not a Unicode scalar value. *)
Definition of_bytes (l : list Z) : string :=
  string_of_list_ascii (map byte_of l).

Definition FromRune (r : Z) : string :=
  if (r <? 0) || (1114111 <? r) || ((55296 <=? r) && (r <=? 57343))
  then of_bytes [239; 191; 189]
  else if r <? 128 then of_bytes [r]
  else if r <? 2048 then
    of_bytes [Z.lor 192 (Z.shiftr r 6); Z.lor 128 (Z.land r 63)]
  else if r <? 65536 then
    of_bytes [Z.lor 224 (Z.shiftr r 12);
              Z.lor 128 (Z.land (Z.shiftr r 6) 63);
              Z.lor 128 (Z.land r 63)]
  else
    of_bytes [Z.lor 240 (Z.shiftr r 18);
              Z.lor 128 (Z.land (Z.shiftr r 12) 63);
              Z.lor 128 (Z.land (Z.shiftr r 6) 63);
              Z.lor 128 (Z.land r 63)].

End GoString.

(** ** Premium types, tiles and errors *)

Inductive PremiumType : Set :=
  | Normal
  | DoubleLetterScore
  | TripleLetterScore
  | DoubleWordScore
  | TripleWordScore.

Record Tile : Set := mkTile {
  Letter : Z;       (* rune: the letter, or 0 for a blank *)
  Points : Z;
  IsBlank : bool
}.

Inductive error : Set :=
  | ErrPositionFormat (s : string)      (* "invalid position format: %s" *)
  | ErrColumn (c : ascii)               (* "invalid column: %c" *)
  | ErrRowText (s : string)             (* "invalid row: %s" *)
  | ErrRow (row : Z)                    (* "invalid row: %d" *)
  | ErrInvalidPosition (label : string) (* "invalid position: %s" *)
  | ErrOccupied (label : string)        (* "position %s is already occupied" *)
  | ErrNoTile (label : string)          (* "no tile at position %s" *)
  | ErrCenterPosition                   (* "center position must be H8 (row 7, col 7)" *)
  | ErrPremiumCount (pt : PremiumType) (expected actual : Z)
                                        (* "premium square count mismatch for %s: expected %d, got %d" *)
  | ErrCenterPremium                    (* "center square must be a Double Word Score" *)
  | ErrRackCapacity (adding capacity current : Z)
                                        (* "cannot add %d tiles: would exceed rack capacity of %d (current: %d)" *)
  | ErrTileNotFound (t : Tile).         (* "tile not found in rack: %v" *)

#[global] Instance Tile_eq_dec : EqDecision Tile.
Proof. solve_decision. Defined.

#[global] Instance PremiumType_eq_dec : EqDecision PremiumType.
Proof. solve_decision. Defined.

(** The [iota] numbering of the constants. *)
Definition PremiumType_code (pt : PremiumType) : nat :=
  match pt with
  | Normal => 0
  | DoubleLetterScore => 1
  | TripleLetterScore => 2
  | DoubleWordScore => 3
  | TripleWordScore => 4
  end%nat.

Definition PremiumType_of_code (n : nat) : option PremiumType :=
  match n with
  | 0 => Some Normal
  | 1 => Some DoubleLetterScore
  | 2 => Some TripleLetterScore
  | 3 => Some DoubleWordScore
  | 4 => Some TripleWordScore
  | _ => None
  end%nat.

#[global] Instance PremiumType_countable : Countable PremiumType.
Proof.
  apply (inj_countable PremiumType_code PremiumType_of_code).
  intros []; reflexivity.
Defined.

Definition PremiumType_String (pt : PremiumType) : string :=
  match pt with
  | Normal => "NORMAL"
  | DoubleLetterScore => "DLS"
  | TripleLetterScore => "TLS"
  | DoubleWordScore => "DWS"
  | TripleWordScore => "TWS"
  end.

(** ** Positions *)

Record Position : Set := mkPosition {
  Row : Z;
  Col : Z
}.

(** The zero value [Position{}]. *)
Definition Position_zero : Position := mkPosition 0 0.

Definition Position_IsValid (p : Position) : bool :=
  (0 <=? Row p) && (Row p <? 15) && (0 <=? Col p) && (Col p <? 15).

Definition Position_String (p : Position) : string :=
  if negb (Position_IsValid p) then "INVALID"%string
  else
    let col := GoString.FromRune (wrap32 (wrap64 (65 + Col p))) in
    let row := wrap64 (Row p + 1) in
    (col +:+ GoString.Itoa row)%string.

(** The statements of [NewPositionFromString] that follow the
    reassignment [s = strings.ToUpper(strings.TrimSpace(s))]. *)
Definition parseNormalized (s : string) : Go (Position * option error) :=
  if (GoString.len s <? 2) || (3 <? GoString.len s)
  then Ret (Position_zero, Some (ErrPositionFormat s))
  else
    c0 ← GoString.at_ s 0;
    let col := GoString.byte_sub c0 "A" in
    if (col <? 0) || (14 <? col)
    then Ret (Position_zero, Some (ErrColumn c0))
    else
      row ← (if GoString.len s =? 2
             then c1 ← GoString.at_ s 1; Ret (inl (GoString.byte_sub c1 "0"))
             else
               c1 ← GoString.at_ s 1;
               if negb (Ascii.eqb c1 "1")
               then rest ← GoString.from s 1; Ret (inr (ErrRowText rest))
               else c2 ← GoString.at_ s 2;
                    Ret (inl (10 + GoString.byte_sub c2 "0")));
      match row with
      | inr e => Ret (Position_zero, Some e)
      | inl row =>
          if (row <? 1) || (15 <? row)
          then Ret (Position_zero, Some (ErrRow row))
          else Ret (mkPosition (row - 1) col, None)
      end.

Definition NewPositionFromString (s : string) : Go (Position * option error) :=
  parseNormalized (GoString.ToUpper (GoString.TrimSpace s)).

(** ** Squares and the board *)

Record Square : Set := mkSquare {
  Square_Tile : option Tile;   (* *Tile, nil if empty *)
  Premium : PremiumType;
  Occupied : bool
}.

(** The zero value of [Square]. *)
Definition Square_zero : Square := mkSquare None Normal false.

Definition isNil {A : Type} (o : option A) : bool :=
  match o with
  | None => true
  | Some _ => false
  end.

Definition Square_IsEmpty (s : Square) : bool :=
  isNil (Square_Tile s) || negb (Occupied s).

Record Board : Set := mkBoard {
  Grid : list (list Square);   (* [15][15]Square *)
  Center : Position
}.

(** The array type [[15][15]Square] fixes the dimensions of [Grid]. *)
Definition Board_wf (b : Board) : Prop :=
  length (Grid b) = 15%nat ∧ Forall (λ row, length row = 15%nat) (Grid b).

(** [b.Grid[r][c]] as a read, and the assignment [b.Grid[r][c] = sq]. *)
Definition Grid_get (b : Board) (r c : Z) : Go Square :=
  row ← index (Grid b) r; index row c.

Definition Grid_set (b : Board) (r c : Z) (sq : Square) : Go Board :=
  row ← index (Grid b) r;
  row' ← store row c sq;
  g' ← store (Grid b) r row';
  Ret (mkBoard g' (Center b)).

(** The index range of both loops [for i := 0; i < 15; i++]. *)
Definition range15 : list Z := seqZ 0 15.

(** [b.Grid[pos.Row][pos.Col].Premium = pt] for the position a label
    parses to; the parse error is dropped, as in the source. *)
Definition setPremium (pt : PremiumType) (b : Board) (posStr : string) : Go Board :=
  r ← NewPositionFromString posStr;
  let pos := r.1 in
  sq ← Grid_get b (Row pos) (Col pos);
  Grid_set b (Row pos) (Col pos) (mkSquare (Square_Tile sq) pt (Occupied sq)).

Definition twsPositions : list string :=
  ["A1"; "A8"; "A15"; "H1"; "H15"; "O1"; "O8"; "O15"]%string.

Definition dwsPositions : list string :=
  ["B2"; "C3"; "D4"; "E5"; "H8"; "K5"; "L4"; "M3"; "N2";
   "B14"; "C13"; "D12"; "E11"; "K11"; "L12"; "M13"; "N14"]%string.

Definition tlsPositions : list string :=
  ["B6"; "B10"; "F2"; "F6"; "F10"; "F14"; "J2"; "J6"; "J10"; "J14"; "N6"; "N10"]%string.

Definition dlsPositions : list string :=
  ["A4"; "A12"; "C7"; "C9"; "D1"; "D8"; "D15"; "G3"; "G7"; "G9"; "G13";
   "H4"; "H12"; "I3"; "I7"; "I9"; "I13"; "L1"; "L8"; "L15"; "M7"; "M9"; "O4"; "O12"]%string.

Definition initializePremiumSquares (b : Board) : Go Board :=
  b ← forRange (setPremium TripleWordScore) b twsPositions;
  b ← forRange (setPremium DoubleWordScore) b dwsPositions;
  b ← forRange (setPremium TripleLetterScore) b tlsPositions;
  forRange (setPremium DoubleLetterScore) b dlsPositions.

Definition NewBoard : Go Board :=
  let board := mkBoard (replicate 15 (replicate 15 Square_zero)) (mkPosition 7 7) in
  board ← forRange (λ b row,
             forRange (λ b col, Grid_set b row col (mkSquare None Normal false))
                      b range15)
           board range15;
  initializePremiumSquares board.

Definition Board_IsValidPosition (b : Board) (pos : Position) : bool :=
  Position_IsValid pos.

Definition Board_PlaceTile (b : Board) (tile : Tile) (pos : Position)
  : Go (Board * option error) :=
  if negb (Board_IsValidPosition b pos)
  then Ret (b, Some (ErrInvalidPosition (Position_String pos)))
  else
    square ← Grid_get b (Row pos) (Col pos);
    if Occupied square
    then Ret (b, Some (ErrOccupied (Position_String pos)))
    else
      b' ← Grid_set b (Row pos) (Col pos)
             (mkSquare (Some tile) (Premium square) true);
      Ret (b', None).

Definition Board_GetTile (b : Board) (pos : Position) : Go (option Tile) :=
  if negb (Board_IsValidPosition b pos) then Ret None
  else
    square ← Grid_get b (Row pos) (Col pos);
    if negb (Occupied square) then Ret None
    else Ret (Square_Tile square).

(** The result is the pointer [&b.Grid[r][c]]; it is embedded as the
    square it points to, [None] being the nil pointer. *)
Definition Board_GetSquare (b : Board) (pos : Position) : Go (option Square) :=
  if negb (Board_IsValidPosition b pos) then Ret None
  else
    square ← Grid_get b (Row pos) (Col pos);
    Ret (Some square).

Definition Board_RemoveTile (b : Board) (pos : Position)
  : Go (Board * option Tile * option error) :=
  if negb (Board_IsValidPosition b pos)
  then Ret (b, None, Some (ErrInvalidPosition (Position_String pos)))
  else
    square ← Grid_get b (Row pos) (Col pos);
    if negb (Occupied square)
    then Ret (b, None, Some (ErrNoTile (Position_String pos)))
    else
      let tile := Square_Tile square in
      b' ← Grid_set b (Row pos) (Col pos)
             (mkSquare None (Premium square) false);
      Ret (b', tile, None).

Definition Board_IsEmpty (b : Board) (pos : Position) : Go bool :=
  if negb (Board_IsValidPosition b pos) then Ret false
  else
    square ← Grid_get b (Row pos) (Col pos);
    Ret (Square_IsEmpty square).

Definition directions : list Position :=
  [mkPosition (-1) 0; mkPosition 1 0; mkPosition 0 (-1); mkPosition 0 1].

(** [None] is the nil slice returned for a position off the board. *)
Definition Board_GetAdjacentPositions (b : Board) (pos : Position)
  : Go (option (list Position)) :=
  if negb (Board_IsValidPosition b pos) then Ret None
  else
    adjacent ← forRange (λ adjacent dir,
                  let newPos := mkPosition (wrap64 (Row pos + Row dir))
                                           (wrap64 (Col pos + Col dir)) in
                  if Board_IsValidPosition b newPos
                  then Ret (adjacent ++ [newPos])
                  else Ret adjacent)
                [] directions;
    Ret (Some adjacent).

Definition Board_GetPremiumType (b : Board) (pos : Position) : Go PremiumType :=
  if negb (Board_IsValidPosition b pos) then Ret Normal
  else
    square ← Grid_get b (Row pos) (Col pos);
    Ret (Premium square).

Definition Board_HasTileAt (b : Board) (pos : Position) : Go bool :=
  if negb (Board_IsValidPosition b pos) then Ret false
  else
    square ← Grid_get b (Row pos) (Col pos);
    Ret (Occupied square).

(** [m[k]++] on a [map[PremiumType]int]: a missing key reads as 0. *)
Definition incr (m : gmap PremiumType Z) (k : PremiumType) : gmap PremiumType Z :=
  <[k := default 0 (m !! k) + 1]> m.

Definition Board_CountPremiumSquares (b : Board) : Go (gmap PremiumType Z) :=
  forRange (λ counts row,
     forRange (λ counts col,
        square ← Grid_get b row col;
        Ret (incr counts (Premium square)))
       counts range15)
    ∅ range15.

Definition expectedCounts : gmap PremiumType Z :=
  <[Normal := 164]> (<[DoubleLetterScore := 24]> (<[TripleLetterScore := 12]>
  (<[DoubleWordScore := 17]> (<[TripleWordScore := 8]> ∅)))).

(** The first entry of the expected counts, in the order the [range]
    statement visits them, whose count differs. *)
Fixpoint checkCounts (premiumCounts : gmap PremiumType Z)
    (visit : list (PremiumType * Z)) : option error :=
  match visit with
  | [] => None
  | (premiumType, expected) :: visit' =>
      let actual := default 0 (premiumCounts !! premiumType) in
      if negb (actual =? expected)
      then Some (ErrPremiumCount premiumType expected actual)
      else checkCounts premiumCounts visit'
  end.

(** Go leaves the iteration order of a map unspecified: [visit] is the
    order in which this run of [range expectedCounts] yields the entries,
    a permutation of them. The counting loops are those of
    [CountPremiumSquares], which the source repeats here. *)
Definition Board_ValidateBoard (visit : list (PremiumType * Z)) (b : Board)
  : Go (option error) :=
  if negb (Row (Center b) =? 7) || negb (Col (Center b) =? 7)
  then Ret (Some ErrCenterPosition)
  else
    premiumCounts ← Board_CountPremiumSquares b;
    match checkCounts premiumCounts visit with
    | Some e => Ret (Some e)
    | None =>
        square ← Grid_get b (Row (Center b)) (Col (Center b));
        if negb (bool_decide (Premium square = DoubleWordScore))
        then Ret (Some ErrCenterPremium)
        else Ret None
    end.

(** [for _, x := range l { if test(x) { return true } }; return false]:
    the loop stops at the first element that passes the test. *)
Fixpoint anyRange {A : Type} (test : A → Go bool) (l : list A) : Go bool :=
  match l with
  | [] => Ret false
  | x :: l' =>
      match test x with
      | Ret true => Ret true
      | Ret false => anyRange test l'
      | Panic => Panic
      end
  end.

Definition Board_IsFirstMove (b : Board) : Go bool :=
  occupied ← anyRange (λ row,
                anyRange (λ col,
                   square ← Grid_get b row col;
                   Ret (Occupied square))
                  range15)
              range15;
  Ret (negb occupied).

Definition Board_GetOccupiedPositions (b : Board) : Go (list Position) :=
  forRange (λ positions row,
     forRange (λ positions col,
        square ← Grid_get b row col;
        if Occupied square
        then Ret (positions ++ [mkPosition row col])
        else Ret positions)
       positions range15)
    [] range15.

(** [None] is the nil slice returned for a row off the board. *)
Definition Board_GetRow (b : Board) (row : Z) : Go (option (list Square)) :=
  if (row <? 0) || (15 <=? row) then Ret None
  else
    let squares := replicate 15 Square_zero in
    gridRow ← index (Grid b) row;
    Ret (Some (copy squares gridRow)).

Definition Board_GetColumn (b : Board) (col : Z) : Go (option (list Square)) :=
  if (col <? 0) || (15 <=? col) then Ret None
  else
    let squares := replicate 15 Square_zero in
    squares ← forRange (λ squares row,
                 square ← Grid_get b row col;
                 store squares row square)
               squares range15;
    Ret (Some squares).

(** ** Tiles and the tile bag *)

(** The zero value of [Tile], with which [make] fills a new slice. *)
Definition Tile_zero : Tile := mkTile 0 0 false.

Record TileBag : Set := mkTileBag {
  tiles : list Tile
}.

(** An entry of the distribution table. *)
Record dist : Set := mkDist {
  quantity : Z;
  points : Z
}.

Definition standardTileDistribution : gmap Z dist :=
  list_to_map
    [(65, mkDist 9 1); (66, mkDist 2 3); (67, mkDist 2 3); (68, mkDist 4 2);
     (69, mkDist 12 1); (70, mkDist 2 4); (71, mkDist 3 2); (72, mkDist 2 4);
     (73, mkDist 9 1); (74, mkDist 1 8); (75, mkDist 1 5); (76, mkDist 4 1);
     (77, mkDist 2 3); (78, mkDist 6 1); (79, mkDist 8 1); (80, mkDist 2 3);
     (81, mkDist 1 10); (82, mkDist 6 1); (83, mkDist 4 1); (84, mkDist 6 1);
     (85, mkDist 4 1); (86, mkDist 2 4); (87, mkDist 2 4); (88, mkDist 1 8);
     (89, mkDist 2 4); (90, mkDist 1 10)].

Definition blankTileCount : Z := 2.

(** [math/rand]: a generator is the stream of raw values it goes on to
    produce, and [Intn(n)] reduces the next one into [0, n); it panics
    for [n <= 0]. Every run of the generator is one such stream. *)
Definition Rand : Set := list Z.

Definition Intn (n : Z) (src : Rand) : Go (Z * Rand) :=
  if n <=? 0 then Panic
  else match src with
       | [] => Ret (0, [])
       | r :: src' => Ret (r mod n, src')
       end.

(** [a[i], a[j] = a[j], a[i]] *)
Definition swap {A : Type} (a : list A) (i j : Z) : Go (list A) :=
  ai ← index a i;
  aj ← index a j;
  a ← store a i aj;
  store a j ai.

(** [src] is the generator as [rand.Seed(time.Now().UnixNano())] leaves it. *)
Definition shuffle (src : Rand) (ts : list Tile) : Go (list Tile) :=
  r ← forRange (λ (st : list Tile * Rand) i,
         r ← Intn (i + 1) st.2;
         ts' ← swap st.1 i r.1;
         Ret (ts', r.2))
        (ts, src) (reverse (seqZ 1 (Z.of_nat (length ts) - 1)));
  Ret r.1.

(** [for i := 0; i < n; i++ { ts = append(ts, t) }] *)
Definition appendTimes (n : Z) (t : Tile) (ts : list Tile) : list Tile :=
  foldl (λ ts _, ts ++ [t]) ts (seqZ 0 n).

(** [visit] is the order in which this run of
    [range standardTileDistribution] yields the entries, [src] the
    generator of the shuffle. *)
Definition NewTileBag (visit : list (Z * dist)) (src : Rand) : Go TileBag :=
  let ts := [] in
  let ts := foldl (λ ts entry,
                appendTimes (quantity entry.2)
                  (mkTile entry.1 (points entry.2) false) ts)
              ts visit in
  let ts := appendTimes blankTileCount (mkTile 0 0 true) ts in
  ts ← shuffle src ts;
  Ret (mkTileBag ts).

Definition TileBag_DrawTiles (tb : TileBag) (count : Z) : Go (list Tile * TileBag) :=
  if count <=? 0 then Ret ([], tb)
  else
    let available := Z.of_nat (length (tiles tb)) in
    let count := if available <? count then available else count in
    let drawn := replicate (Z.to_nat count) Tile_zero in
    from ← slice_from (tiles tb) (available - count);
    let drawn := copy drawn from in
    rest ← slice_to (tiles tb) (available - count);
    Ret (drawn, mkTileBag rest).

Definition TileBag_ReturnTiles (src : Rand) (tb : TileBag) (ts : list Tile)
  : Go TileBag :=
  ts' ← shuffle src (tiles tb ++ ts);
  Ret (mkTileBag ts').

Definition TileBag_RemainingCount (tb : TileBag) : Z :=
  Z.of_nat (length (tiles tb)).

Definition TileBag_IsEmpty (tb : TileBag) : bool :=
  TileBag_RemainingCount tb =? 0.

Definition GetTileValue (letter : Z) : Z :=
  match standardTileDistribution !! letter with
  | Some d => points d
  | None => 0
  end.

Definition GetTileQuantity (letter : Z) : Z :=
  match standardTileDistribution !! letter with
  | Some d => quantity d
  | None => if letter =? 0 then blankTileCount else 0
  end.

(** An entry of the table [GetAllTileInfo] returns. *)
Record tileInfo : Set := mkTileInfo {
  Info_Quantity : Z;
  Info_Points : Z
}.

Definition GetAllTileInfo (visit : list (Z * dist)) : gmap Z tileInfo :=
  let result : gmap Z tileInfo := ∅ in
  let result :=
    foldl (λ (result : gmap Z tileInfo) entry,
        <[entry.1 := mkTileInfo (quantity entry.2) (points entry.2)]> result)
      result visit in
  <[0 := mkTileInfo blankTileCount 0]> result.

(** ** Players and their racks *)

Record Player : Set := mkPlayer {
  ID : string;
  Name : string;
  Rack : list Tile;
  Score : Z;
  IsActive : bool
}.

Definition MaxRackSize : Z := 7.

Definition set_Rack (p : Player) (rack : list Tile) : Player :=
  mkPlayer (ID p) (Name p) rack (Score p) (IsActive p).

Definition Player_GetRackSize (p : Player) : Z := Z.of_nat (length (Rack p)).

Definition Player_AddTilesToRack (p : Player) (ts : list Tile)
  : Player * option error :=
  if Z.of_nat (length ts) =? 0 then (p, None)
  else if MaxRackSize <? Z.of_nat (length (Rack p)) + Z.of_nat (length ts)
  then (p, Some (ErrRackCapacity (Z.of_nat (length ts)) MaxRackSize
                   (Z.of_nat (length (Rack p)))))
  else (set_Rack p (Rack p ++ ts), None).

Definition tilesEqual (a b : Tile) : bool :=
  (Letter a =? Letter b) && (Points a =? Points b) &&
  Bool.eqb (IsBlank a) (IsBlank b).

(** The inner loop of [RemoveTilesByValue], at index [i] with [rest] still
    to visit: the copy of the rack without the first tile equal to
    [tileToRemove], or [None] when the loop ends with [found] false. *)
Fixpoint removeFirst (tileToRemove : Tile) (rackCopy : list Tile)
    (i : Z) (rest : list Tile) : Go (option (list Tile)) :=
  match rest with
  | [] => Ret None
  | rackTile :: rest' =>
      if tilesEqual rackTile tileToRemove
      then
        before ← slice_to rackCopy i;
        after ← slice_from rackCopy (i + 1);
        Ret (Some (before ++ after))
      else removeFirst tileToRemove rackCopy (i + 1) rest'
  end.

(** The outer loop: the copy after all removals, or the error of the
    first tile that was not found. *)
Fixpoint removeEach (rackCopy : list Tile) (ts : list Tile)
  : Go (list Tile + error) :=
  match ts with
  | [] => Ret (inl rackCopy)
  | tileToRemove :: ts' =>
      r ← removeFirst tileToRemove rackCopy 0 rackCopy;
      match r with
      | None => Ret (inr (ErrTileNotFound tileToRemove))
      | Some rackCopy' => removeEach rackCopy' ts'
      end
  end.

Definition Player_RemoveTilesByValue (p : Player) (ts : list Tile)
  : Go (Player * option error) :=
  if Z.of_nat (length ts) =? 0 then Ret (p, None)
  else
    let rackCopy := replicate (length (Rack p)) Tile_zero in
    let rackCopy := copy rackCopy (Rack p) in
    r ← removeEach rackCopy ts;
    match r with
    | inr e => Ret (p, Some e)
    | inl rackCopy => Ret (set_Rack p rackCopy, None)
    end.

Definition Player_HasTile (p : Player) (t : Tile) : bool :=
  existsb (λ rackTile, tilesEqual rackTile t) (Rack p).

(** The messages of the errors that the remaining functions of the player
    return. *)
Inductive error_ext : Set :=
  | ErrRackIndex (index size : Z)
                              (* "invalid rack index: %d (rack size: %d)" *)
  | ErrDuplicateIndex (index : Z)
                              (* "duplicate index: %d" *)
  | ErrEmptyID                (* "player ID cannot be empty" *)
  | ErrEmptyName              (* "player name cannot be empty" *)
  | ErrRackSize (size max : Z)
                              (* "rack size %d exceeds maximum %d" *)
  | ErrNegativeScore (score : Z)
                              (* "player has negative score: %d" *)
  | ErrNegativePoints (i pts : Z)
                              (* "tile at rack index %d has negative points: %d" *)
  | ErrBlankTile (i letter pts : Z)
                              (* "blank tile at rack index %d has invalid properties: Letter=%c, Points=%d" *)
  | ErrNoLetter (i : Z).      (* "non-blank tile at rack index %d has no letter" *)

Definition generatePlayerID : string :=
  ("player_" +:+ GoString.Itoa (GoString.len "temp"))%string.

Definition NewPlayer (id name : string) : Player :=
  let id := if String.eqb id "" then generatePlayerID else id in
  mkPlayer id name [] 0 true.

(** [sort.Sort(sort.Reverse(sort.IntSlice(a)))]: the integers of [a] in
    descending order. Whatever algorithm the library runs, this list is
    its result, equal integers being indistinguishable. *)
Definition sortDescending (a : list Z) : list Z :=
  merge_sort Z.ge a.

(** [m[k]] on a [map[int]bool]: a missing key reads as false. *)
Definition seen (indexSet : gmap Z bool) (k : Z) : bool :=
  default false (indexSet !! k).

(** The first loop of [RemoveTilesFromRack]: the first index outside the
    rack, if any. *)
Definition firstInvalidIndex (size : Z) (indices : list Z) : option Z :=
  List.find (λ i, (i <? 0) || (size <=? i)) indices.

(** The second loop: the first index met twice, if any. *)
Fixpoint firstDuplicate (indexSet : gmap Z bool) (indices : list Z) : option Z :=
  match indices with
  | [] => None
  | i :: indices' =>
      if seen indexSet i then Some i
      else firstDuplicate (<[i := true]> indexSet) indices'
  end.

(** The result tiles are [None] for the nil slice of the error returns. *)
Definition Player_RemoveTilesFromRack (p : Player) (indices : list Z)
  : Go (Player * option (list Tile) * option error_ext) :=
  if Z.of_nat (length indices) =? 0 then Ret (p, Some [], None)
  else
    match firstInvalidIndex (Z.of_nat (length (Rack p))) indices with
    | Some i => Ret (p, None, Some (ErrRackIndex i (Z.of_nat (length (Rack p)))))
    | None =>
        match firstDuplicate ∅ indices with
        | Some i => Ret (p, None, Some (ErrDuplicateIndex i))
        | None =>
            let sortedIndices := replicate (length indices) 0 in
            let sortedIndices := copy sortedIndices indices in
            let sortedIndices := sortDescending sortedIndices in
            let removedTiles := replicate (length indices) Tile_zero in
            r ← forRange (λ (st : list Tile * Z) i,
                   t ← index (Rack p) i;
                   removedTiles ← store st.1 st.2 t;
                   Ret (removedTiles, st.2 + 1))
                 (removedTiles, 0) indices;
            rack ← forRange (λ rack i,
                      before ← slice_to rack i;
                      after ← slice_from rack (i + 1);
                      Ret (before ++ after))
                    (Rack p) sortedIndices;
            Ret (set_Rack p rack, Some r.1, None)
        end
    end.

(** The loops of [HasTiles] are those of [RemoveTilesByValue], run on a
    copy of the rack that is then dropped. *)
Definition Player_HasTiles (p : Player) (ts : list Tile) : Go bool :=
  if Z.of_nat (length ts) =? 0 then Ret true
  else
    let rackCopy := replicate (length (Rack p)) Tile_zero in
    let rackCopy := copy rackCopy (Rack p) in
    r ← removeEach rackCopy ts;
    match r with
    | inr _ => Ret false
    | inl _ => Ret true
    end.

Definition Player_GetTileCount (p : Player) (letter : Z) : Z :=
  foldl (λ count tile, if Letter tile =? letter then count + 1 else count)
        0 (Rack p).

Definition Player_GetBlankCount (p : Player) : Z :=
  foldl (λ count tile, if IsBlank tile then count + 1 else count) 0 (Rack p).

Definition Player_IsRackFull (p : Player) : bool :=
  MaxRackSize <=? Z.of_nat (length (Rack p)).

Definition Player_IsRackEmpty (p : Player) : bool :=
  Z.of_nat (length (Rack p)) =? 0.

Definition Player_GetRackValue (p : Player) : Z :=
  foldl (λ total tile, wrap64 (total + Points tile)) 0 (Rack p).

Definition Player_ClearRack (p : Player) : Player * list Tile :=
  let ts := replicate (length (Rack p)) Tile_zero in
  let ts := copy ts (Rack p) in
  (set_Rack p (take 0 (Rack p)), ts).

(** The loop of [ValidatePlayer] over the rack, at index [i]. *)
Fixpoint validateRack (i : Z) (rack : list Tile) : option error_ext :=
  match rack with
  | [] => None
  | tile :: rack' =>
      if Points tile <? 0 then Some (ErrNegativePoints i (Points tile))
      else if IsBlank tile && (negb (Points tile =? 0) || negb (Letter tile =? 0))
      then Some (ErrBlankTile i (Letter tile) (Points tile))
      else if negb (IsBlank tile) && (Letter tile =? 0)
      then Some (ErrNoLetter i)
      else validateRack (i + 1) rack'
  end.

Definition Player_ValidatePlayer (p : Player) : option error_ext :=
  if String.eqb (ID p) "" then Some ErrEmptyID
  else if String.eqb (Name p) "" then Some ErrEmptyName
  else if MaxRackSize <? Z.of_nat (length (Rack p))
  then Some (ErrRackSize (Z.of_nat (length (Rack p))) MaxRackSize)
  else if Score p <? 0 then Some (ErrNegativeScore (Score p))
  else validateRack 0 (Rack p).

(** * Part II: the vocabulary of the properties *)

(** ** The board of a new game *)

(** Number of squares of the grid that carry a given premium type. *)
Definition count_premium (pt : PremiumType) (b : Board) : nat :=
  length (filter (λ sq, Premium sq = pt) (concat (Grid b))).

(** The value [NewBoard] computes. *)
Definition standardBoard : Board :=
  Eval vm_compute in
    match NewBoard with
    | Ret b => b
    | Panic => mkBoard [] Position_zero
    end.

(** ** Labels of positions *)

(** The label the design gives a position: the letter of its column,
    A to O, followed by the number of its row, 1 to 15. *)
Definition columnLetters : list string :=
  ["A"; "B"; "C"; "D"; "E"; "F"; "G"; "H"; "I"; "J"; "K"; "L"; "M"; "N"; "O"]%string.

Definition rowNumbers : list string :=
  ["1"; "2"; "3"; "4"; "5"; "6"; "7"; "8"; "9"; "10"; "11"; "12"; "13"; "14"; "15"]%string.

Definition label (p : Position) : option string :=
  c ← columnLetters !! Z.to_nat (Col p);
  r ← rowNumbers !! Z.to_nat (Row p);
  Some (c +:+ r)%string.

(** A label in general: a letter, of either case, and a decimal number.
    The letter stands for the column [column_of_letter] (A is 0), the
    number [n] for the row [n - 1]. *)
Definition is_letter (c : ascii) : bool :=
  let v := GoString.byte_val c in
  ((65 <=? v) && (v <=? 90)) || ((97 <=? v) && (v <=? 122)).

Definition column_of_letter (c : ascii) : Z :=
  GoString.byte_sub (GoString.upper_byte c) "A".

Definition label_of (letter : ascii) (n : Z) : string :=
  String letter (GoString.Itoa n).

(** Bytes that [TrimSpace] and [ToUpper] leave alone. *)
Definition plain (c : ascii) : bool :=
  negb (GoString.is_space c) && Ascii.eqb (GoString.upper_byte c) c.

Fixpoint str_all (P : ascii → bool) (s : string) : bool :=
  match s with
  | EmptyString => true
  | String c s' => P c && str_all P s'
  end.

(** Case analysis on a membership [H : x ∈ [a; b; ...]] in an explicit list. *)
Ltac enumerate H :=
  repeat (apply elem_of_cons in H as [-> | H]);
  [.. | apply elem_of_nil in H; destruct H].

(** ** Boards that differ in one square, and calls *)

(** The board with one square replaced. *)
Definition with_square (b : Board) (r c : Z) (sq : Square) : Board :=
  match Grid b !! Z.to_nat r with
  | Some row =>
      mkBoard (<[Z.to_nat r := <[Z.to_nat c := sq]> row]> (Grid b)) (Center b)
  | None => b
  end.

(** The premium type of every square, row by row. *)
Definition premiums (b : Board) : list (list PremiumType) :=
  map (map Premium) (Grid b).

(** A call of one of the two methods that change a board. *)
Inductive BoardCall : Set :=
  | CallPlaceTile (tile : Tile) (pos : Position)
  | CallRemoveTile (pos : Position).

(** The board after a call, whether the call returned an error or not. *)
Definition call (b : Board) (c : BoardCall) : Go Board :=
  match c with
  | CallPlaceTile tile pos => r ← Board_PlaceTile b tile pos; Ret r.1
  | CallRemoveTile pos => r ← Board_RemoveTile b pos; Ret r.1.1
  end.

(** ** The tiles of the distribution *)

(** The tiles of one entry of the distribution table. *)
Definition entryTiles (entry : Z * dist) : list Tile :=
  replicate (Z.to_nat (quantity entry.2)) (mkTile entry.1 (points entry.2) false).

(** ** Decimal numerals *)

(** Reading a decimal numeral, most significant digit first. *)
Fixpoint decimal_value (v : Z) (s : string) : Z :=
  match s with
  | EmptyString => v
  | String c s' => decimal_value (10 * v + (GoString.byte_val c - 48)) s'
  end.

(** ** The scorer *)

(** Modelled from the spec: a tile bound to a position, describing a
    proposed or applied move (the PlacedTile of the data model). The
    repository has no scorer yet: the scoring system, planned as
    [internal/game/scoring.go], is an open item of its implementation
    checklist, so the definitions of this section follow section 4.4 of
    the design. *)
Record PlacedTile : Set := mkPlacedTile {
  Placed_Tile : Tile;
  Placed_Position : Position
}.

(** Modelled from the spec: one position of a formed word, with its tile
    and the flag that says whether the tile was placed this turn. *)
Record WordSquare : Set := mkWordSquare {
  Word_Position : Position;
  Word_Tile : Tile;
  Word_New : bool
}.

(** Modelled from the spec: the point value a tile contributes; a blank
    contributes 0 whatever letter it stands for. *)
Definition tilePoints (t : Tile) : Z :=
  if IsBlank t then 0 else Points t.

(** Modelled from the spec: the multiplier of a letter premium, x2 for a
    double-letter and x3 for a triple-letter square, by an explicit lookup
    over the closed set of premium types. *)
Definition letterMultiplier (pt : PremiumType) : Z :=
  match pt with
  | DoubleLetterScore => 2
  | TripleLetterScore => 3
  | _ => 1
  end.

(** Modelled from the spec: the multiplier of a word premium, x2 for a
    double-word and x3 for a triple-word square. *)
Definition wordMultiplier (pt : PremiumType) : Z :=
  match pt with
  | DoubleWordScore => 2
  | TripleWordScore => 3
  | _ => 1
  end.

(** The premium of a square, read with the accessor of the board. *)
Definition premiumAt (b : Board) (pos : Position) : PremiumType :=
  match Board_GetPremiumType b pos with
  | Ret pt => pt
  | Panic => Normal
  end.

(** Modelled from the spec: the per-word score of the Scorer, which the
    sources do not contain. The score of a word is its letter-multiplied
    base sum times the product of the word multipliers; a premium counts
    only under a tile placed this turn. *)
Definition WordScore (b : Board) (w : list WordSquare) : Z :=
  let base :=
    foldr (λ sq acc,
        tilePoints (Word_Tile sq) *
        (if Word_New sq then letterMultiplier (premiumAt b (Word_Position sq))
         else 1) + acc) 0 w in
  let factor :=
    foldr (λ sq acc,
        (if Word_New sq then wordMultiplier (premiumAt b (Word_Position sq))
         else 1) * acc) 1 w in
  base * factor.

(** Modelled from the spec: the move total of the Scorer, which the
    sources do not contain. The total of a move is the sum of the scores
    of the words it forms, plus a flat 50 when it places exactly 7 tiles. *)
Definition MoveScore (b : Board) (placed : list PlacedTile)
    (words : list (list WordSquare)) : Z :=
  let total := foldr (λ w acc, WordScore b w + acc) 0 words in
  if Z.of_nat (length placed) =? 7 then total + 50 else total.

(** ** Input strings *)

(** A byte below 0x80. On a string of such bytes [strings.TrimSpace] and
    [strings.ToUpper] work byte by byte, as [GoString.TrimSpace] and
    [GoString.ToUpper] do. *)
Definition is_ascii (c : ascii) : bool := GoString.byte_val c <? 128.

(** ** Machine integers *)

(** [math.MaxInt64], the largest [int]. *)
Definition MaxInt64 : Z := 9223372036854775807.

(** ** Occupancy *)

#[global] Instance Position_eq_dec : EqDecision Position.
Proof. solve_decision. Defined.

(** Every position of the board, row by row. *)
Definition allPositions : list Position :=
  row ← range15; col ← range15; [mkPosition row col].

(** Whether [HasTileAt] reports a tile. *)
Definition occupiedAt (b : Board) (pos : Position) : bool :=
  match Board_HasTileAt b pos with
  | Ret true => true
  | _ => false
  end.

(** A square is occupied exactly when it holds a tile, on every square. *)
Definition Board_consistent (b : Board) : Prop :=
  Forall (Forall (λ sq, Occupied sq = negb (isNil (Square_Tile sq)))) (Grid b).

(** Two positions that share an edge. *)
Definition adjacent (p q : Position) : Prop :=
  (Row q = Row p ∧ (Col q = Col p - 1 ∨ Col q = Col p + 1)) ∨
  (Col q = Col p ∧ (Row q = Row p - 1 ∨ Row q = Row p + 1)).

(** ** Counting tiles *)

(** Number of tiles of a list that carry a given letter (0 for blanks). *)
Definition countLetter (letter : Z) (ts : list Tile) : Z :=
  Z.of_nat (length (filter (λ t, Letter t = letter) ts)).

(** The tiles of a standard set, in the order of the table. *)
Definition standardTiles : list Tile :=
  (map_to_list standardTileDistribution ≫= entryTiles)
  ++ replicate 2 (mkTile 0 0 true).

(** What [ValidatePlayer] asks of a tile of the rack. *)
Definition tileValid (t : Tile) : Prop :=
  0 ≤ Points t ∧
  (IsBlank t = true → Points t = 0 ∧ Letter t = 0) ∧
  (IsBlank t = false → Letter t ≠ 0).

(** ** Racks *)

(** The points of a list of tiles, added up in [Z]. *)
Definition sumPoints (ts : list Tile) : Z :=
  foldr (λ t acc, Points t + acc) 0 ts.

(** The order of [sortDescending] is total and transitive. *)
#[global] Instance Z_ge_total : Total Z.ge.
Proof. intros x y. lia. Defined.

#[global] Instance Z_ge_trans : Transitive Z.ge.
Proof. intros x y z. lia. Defined.

(** * Part III: the properties *)

(** ** The parser and the printer on examples *)

Example Position_String_center : Position_String (mkPosition 7 7) = "H8"%string.
Proof. reflexivity. Qed.

Example NewPositionFromString_E10 :
  NewPositionFromString " e10 " = Ret (mkPosition 9 4, None).
Proof. reflexivity. Qed.

Example NewPositionFromString_A1X :
  NewPositionFromString "A1X" = Ret (Position_zero, Some (ErrRow 50)).
Proof. reflexivity. Qed.

(** ** C1: the premium layout of a new board *)

Lemma NewBoard_standardBoard : NewBoard = Ret standardBoard.
Proof. vm_compute. reflexivity. Qed.

Lemma standardBoard_wf : Board_wf standardBoard.
Proof. split; [reflexivity | repeat constructor]. Qed.

Lemma checkCounts_None (premiumCounts : gmap PremiumType Z) visit :
  Forall (λ kv, default 0 (premiumCounts !! kv.1) = kv.2) visit →
  checkCounts premiumCounts visit = None.
Proof.
  induction 1 as [| [k v] visit Hkv _ IH]; simpl in *; [reflexivity |].
  rewrite Hkv, Z.eqb_refl. exact IH.
Qed.

Lemma standardBoard_counts :
  ∃ m, Board_CountPremiumSquares standardBoard = Ret m ∧
       Forall (λ kv, default 0 (m !! kv.1) = kv.2) (map_to_list expectedCounts).
Proof.
  eexists. split; [vm_compute; reflexivity |].
  vm_compute. repeat constructor.
Qed.

(** C1. The board built by [NewBoard] has exactly 8 triple-word, 17
    double-word, 12 triple-letter and 24 double-letter squares, the other
    164 squares being normal; its center is (row 7, col 7) and is a
    double-word square; and [ValidateBoard] returns nil on it, in whatever
    order the run visits the table of expected counts. *)
Theorem NewBoard_premium_layout (visit : list (PremiumType * Z)) :
  visit ≡ₚ map_to_list expectedCounts →
  ∃ b, NewBoard = Ret b ∧
       Board_wf b ∧
       count_premium TripleWordScore b = 8%nat ∧
       count_premium DoubleWordScore b = 17%nat ∧
       count_premium TripleLetterScore b = 12%nat ∧
       count_premium DoubleLetterScore b = 24%nat ∧
       count_premium Normal b = 164%nat ∧
       length (concat (Grid b)) = 225%nat ∧
       Center b = mkPosition 7 7 ∧
       Board_GetPremiumType b (Center b) = Ret DoubleWordScore ∧
       Board_ValidateBoard visit b = Ret None.
Proof.
  intros Hvisit. exists standardBoard.
  split; [exact NewBoard_standardBoard |].
  split; [exact standardBoard_wf |].
  do 8 (split; [vm_compute; reflexivity |]).
  destruct standardBoard_counts as (m & Hm & Hall).
  unfold Board_ValidateBoard.
  change (Center standardBoard) with (mkPosition 7 7). simpl negb. simpl orb.
  cbv iota. rewrite Hm. simpl mbind. unfold Go_bind.
  rewrite checkCounts_None.
  - vm_compute. reflexivity.
  - rewrite Hvisit. exact Hall.
Qed.

Lemma NewBoard_premium_layout_witness :
  ∃ b, NewBoard = Ret b ∧
       Board_ValidateBoard (map_to_list expectedCounts) b = Ret None.
Proof.
  destruct (NewBoard_premium_layout (map_to_list expectedCounts))
    as (b & Hb & H); [reflexivity |].
  exists b. split; [exact Hb |]. apply H.
Defined.

(** ** The decimal printer *)

Lemma decimal_value_app (d e : string) : ∀ v,
  decimal_value v (d +:+ e) = decimal_value (decimal_value v d) e.
Proof.
  induction d as [| c d IH]; intros v; [reflexivity |].
  change (decimal_value (10 * v + (GoString.byte_val c - 48)) (d +:+ e)
          = decimal_value (decimal_value (10 * v + (GoString.byte_val c - 48)) d) e).
  apply IH.
Qed.

Lemma string_app_snoc (d : string) (c : ascii) (acc : string) :
  ((d +:+ String c EmptyString) +:+ acc)%string = (d +:+ String c acc)%string.
Proof.
  induction d as [| c' d IH]; [reflexivity |].
  change (String c' ((d +:+ String c EmptyString) +:+ acc)
          = String c' (d +:+ String c acc))%string.
  rewrite IH. reflexivity.
Qed.

Lemma string_length_snoc (d : string) (c : ascii) :
  String.length (d +:+ String c EmptyString) = S (String.length d).
Proof.
  induction d as [| c' d IH]; [reflexivity |].
  change (S (String.length (d +:+ String c EmptyString))
          = S (S (String.length d))).
  rewrite IH. reflexivity.
Qed.

Lemma byte_val_digit (k : Z) :
  0 ≤ k < 10 → GoString.byte_val (GoString.byte_of (48 + k)) = 48 + k.
Proof.
  intros Hk.
  assert (k = 0 ∨ k = 1 ∨ k = 2 ∨ k = 3 ∨ k = 4 ∨ k = 5 ∨ k = 6 ∨
          k = 7 ∨ k = 8 ∨ k = 9) as Hcases by lia.
  repeat (destruct Hcases as [-> | Hcases]; [reflexivity |]).
  subst k. reflexivity.
Qed.

(** With enough fuel, [digits] puts in front of [acc] a numeral of [n]. *)
Lemma digits_numeral (fuel : nat) : ∀ (n : Z) (acc : string),
  0 ≤ n < 2 ^ Z.of_nat fuel →
  ∃ d, GoString.digits fuel n acc = (d +:+ acc)%string ∧
       ∀ v, decimal_value v d = v * 10 ^ Z.of_nat (String.length d) + n.
Proof.
  induction fuel as [| fuel IH]; intros n acc Hn.
  - exists EmptyString. split; [reflexivity |]. intros v. cbn. 
    change (2 ^ Z.of_nat 0) with 1 in Hn. lia.
  - cbn [GoString.digits].
    pose proof (Z.mod_pos_bound n 10 ltac:(lia)) as Hmod.
    pose proof (Z.div_mod n 10 ltac:(lia)) as Hdiv.
    destruct (Z.eqb_spec (n / 10) 0) as [H0 | Hne].
    + exists (String (GoString.byte_of (48 + n mod 10)) EmptyString).
      split; [reflexivity |]. intros v. cbn [decimal_value String.length].
      rewrite byte_val_digit by exact Hmod.
      change (10 ^ Z.of_nat 1) with 10. lia.
    + destruct (IH (n / 10)
                  (String (GoString.byte_of (48 + n mod 10)) acc))
        as (d & Hd & Hval).
      { split; [apply Z.div_pos; lia |].
        rewrite Nat2Z.inj_succ, Z.pow_succ_r in Hn by lia.
        apply Z.div_lt_upper_bound; lia. }
      exists (d +:+ String (GoString.byte_of (48 + n mod 10)) EmptyString)%string.
      split.
      * cbv iota. rewrite Hd. symmetry. apply string_app_snoc.
      * intros v. rewrite decimal_value_app, Hval.
        cbn [decimal_value]. rewrite byte_val_digit by exact Hmod.
        rewrite string_length_snoc.
        rewrite Nat2Z.inj_succ, Z.pow_succ_r by lia. lia.
Qed.

(** [Itoa] prints the decimal numeral of its argument: reading it back
    gives the argument. *)
Lemma Itoa_decimal_value (n : Z) :
  0 ≤ n → decimal_value 0 (GoString.Itoa n) = n.
Proof.
  intros Hn. unfold GoString.Itoa.
  destruct (Z.ltb_spec n 0) as [? | _]; [lia |].
  rewrite Z.abs_eq by exact Hn.
  destruct (digits_numeral (S (Z.to_nat (Z.log2 n))) n EmptyString)
    as (d & -> & Hval).
  - split; [exact Hn |].
    rewrite Nat2Z.inj_succ, Z2Nat.id by apply Z.log2_nonneg.
    destruct (Z.eq_dec n 0) as [-> | Hne]; [reflexivity |].
    apply Z.log2_spec. lia.
  - rewrite decimal_value_app, Hval. cbn [decimal_value]. lia.
Qed.

(** ** C2: labels of positions *)

Lemma trim_right_plain_space s :
  str_all (λ c, negb (GoString.is_space c)) s = true → GoString.trim_right s = s.
Proof.
  induction s as [| c s IH]; simpl; [reflexivity |].
  intros [Hc Hs]%andb_prop. rewrite (IH Hs).
  destruct s; [| reflexivity].
  destruct (GoString.is_space c); [discriminate | reflexivity].
Qed.

Lemma ToUpper_plain s : str_all plain s = true → GoString.ToUpper s = s.
Proof.
  induction s as [| c s IH]; simpl; [reflexivity |].
  intros [Hc Hs]%andb_prop. rewrite (IH Hs).
  unfold plain in Hc. apply andb_prop in Hc as [_ Hc].
  apply Ascii.eqb_eq in Hc. rewrite Hc. reflexivity.
Qed.

Lemma digit_plain d : 0 ≤ d < 10 → plain (GoString.byte_of (48 + d)) = true.
Proof.
  intros Hd.
  assert (d = 0 ∨ d = 1 ∨ d = 2 ∨ d = 3 ∨ d = 4 ∨ d = 5 ∨ d = 6 ∨
          d = 7 ∨ d = 8 ∨ d = 9) as Hcases by lia.
  repeat (destruct Hcases as [-> | Hcases]; [reflexivity |]).
  subst d. reflexivity.
Qed.

Lemma digits_plain fuel : ∀ n acc,
  str_all plain acc = true → str_all plain (GoString.digits fuel n acc) = true.
Proof.
  induction fuel as [| fuel IH]; intros n acc Hacc; simpl; [exact Hacc |].
  assert (str_all plain (String (GoString.byte_of (48 + n mod 10)) acc) = true)
    as Hacc'.
  { simpl. rewrite Hacc, digit_plain; [reflexivity |].
    apply Z.mod_pos_bound. lia. }
  destruct (n / 10 =? 0); [exact Hacc' | apply IH, Hacc'].
Qed.

Lemma Itoa_plain n : str_all plain (GoString.Itoa n) = true.
Proof.
  unfold GoString.Itoa. destruct (n <? 0).
  - change (str_all plain (String "-" ?s)) with (str_all plain s).
    apply digits_plain. reflexivity.
  - apply digits_plain. reflexivity.
Qed.

Lemma digits_length fuel : ∀ n acc,
  (String.length acc ≤ String.length (GoString.digits fuel n acc))%nat.
Proof.
  induction fuel as [| fuel IH]; intros n acc; simpl; [lia |].
  destruct (n / 10 =? 0); simpl; [lia |].
  etransitivity; [| apply IH]. simpl. lia.
Qed.

Lemma Itoa_negative n :
  n < 0 → ∃ ds, GoString.Itoa n = String "-" ds ∧ (1 ≤ String.length ds)%nat.
Proof.
  intros Hn. unfold GoString.Itoa.
  destruct (Z.ltb_spec n 0) as [_ | ?]; [| lia].
  eexists. split; [reflexivity |].
  simpl. destruct (_ =? 0); simpl; [lia |].
  etransitivity; [| apply digits_length]. simpl. lia.
Qed.

Lemma Itoa_long n : 100 ≤ n → (3 ≤ String.length (GoString.Itoa n))%nat.
Proof.
  intros Hn. unfold GoString.Itoa.
  destruct (Z.ltb_spec n 0) as [? | _]; [lia |].
  rewrite Z.abs_eq by lia.
  assert (6 ≤ Z.log2 n) as Hlog.
  { change 6 with (Z.log2 100). apply Z.log2_le_mono. lia. }
  destruct (Z.to_nat (Z.log2 n)) as [| [| fuel]] eqn:Hfuel; [lia | lia |].
  assert (n / 10 ≠ 0) as H1 by (intros H; apply Z.div_small_iff in H; lia).
  assert (n / 10 / 10 ≠ 0) as H2.
  { rewrite Z.div_div by lia. intros H; apply Z.div_small_iff in H; lia. }
  cbn [GoString.digits].
  destruct (Z.eqb_spec (n / 10) 0) as [? | _]; [contradiction |].
  destruct (Z.eqb_spec (n / 10 / 10) 0) as [? | _]; [contradiction |].
  destruct (_ =? 0); [simpl; lia |].
  etransitivity; [| apply digits_length]. simpl. lia.
Qed.

Lemma str_all_impl (P Q : ascii → bool) s :
  (∀ c, P c = true → Q c = true) → str_all P s = true → str_all Q s = true.
Proof.
  intros HPQ. induction s as [| c s IH]; simpl; [reflexivity |].
  intros [Hc Hs]%andb_prop. rewrite (HPQ c Hc), (IH Hs). reflexivity.
Qed.

(** What [parseNormalized] computes, by the length of its argument. *)
Lemma parse_two (C d : ascii) :
  parseNormalized (String C (String d "")) =
    let col := GoString.byte_sub C "A" in
    if (col <? 0) || (14 <? col) then Ret (Position_zero, Some (ErrColumn C))
    else
      let row := GoString.byte_sub d "0" in
      if (row <? 1) || (15 <? row) then Ret (Position_zero, Some (ErrRow row))
      else Ret (mkPosition (row - 1) col, None).
Proof. reflexivity. Qed.

Lemma parse_three (C d1 d2 : ascii) :
  parseNormalized (String C (String d1 (String d2 ""))) =
    let col := GoString.byte_sub C "A" in
    if (col <? 0) || (14 <? col) then Ret (Position_zero, Some (ErrColumn C))
    else if negb (Ascii.eqb d1 "1")
    then Ret (Position_zero, Some (ErrRowText (String d1 (String d2 ""))))
    else
      let row := 10 + GoString.byte_sub d2 "0" in
      if (row <? 1) || (15 <? row) then Ret (Position_zero, Some (ErrRow row))
      else Ret (mkPosition (row - 1) col, None).
Proof.
  cbv zeta.
  destruct (_ || _) eqn:Hc.
  - unfold parseNormalized. 
    change (GoString.len _) with 3.
    change (GoString.at_ (String C (String d1 (String d2 ""))) 0) with (Ret C).
    cbn [Z.ltb Z.compare Pos.compare Pos.compare_cont orb mbind Go_bind].
    rewrite Hc. reflexivity.
  - unfold parseNormalized.
    change (GoString.len _) with 3.
    change (GoString.at_ (String C (String d1 (String d2 ""))) 0) with (Ret C).
    cbn [Z.ltb Z.compare Pos.compare Pos.compare_cont orb mbind Go_bind].
    rewrite Hc. change (3 =? 2) with false. cbv iota.
    change (GoString.at_ (String C (String d1 (String d2 ""))) 1) with (Ret d1).
    cbn [mbind Go_bind]. destruct (negb _); reflexivity.
Qed.

Lemma parse_long (s : string) :
  (4 ≤ String.length s)%nat →
  parseNormalized s = Ret (Position_zero, Some (ErrPositionFormat s)).
Proof.
  intros Hlen. unfold parseNormalized, GoString.len.
  destruct (Z.ltb_spec 3 (Z.of_nat (String.length s))) as [_ | ?]; [| lia].
  rewrite orb_true_r. reflexivity.
Qed.

Lemma parse_short (s : string) :
  (String.length s ≤ 1)%nat →
  parseNormalized s = Ret (Position_zero, Some (ErrPositionFormat s)).
Proof.
  intros Hlen. unfold parseNormalized, GoString.len.
  destruct (Z.ltb_spec (Z.of_nat (String.length s)) 2) as [_ | ?]; [| lia].
  reflexivity.
Qed.

Lemma letter_normalized (letter : ascii) (rest : string) :
  is_letter letter = true → str_all plain rest = true →
  GoString.ToUpper (GoString.TrimSpace (String letter rest)) =
    String (GoString.upper_byte letter) rest.
Proof.
  intros Hl Hrest.
  assert (GoString.is_space letter = false) as Hsp.
  { destruct letter as [[] [] [] [] [] [] [] []]; try discriminate Hl; reflexivity. }
  unfold GoString.TrimSpace. cbn [GoString.trim_left]. rewrite Hsp.
  rewrite trim_right_plain_space.
  - cbn [GoString.ToUpper]. rewrite (ToUpper_plain _ Hrest). reflexivity.
  - cbn [str_all]. rewrite Hsp. simpl.
    eapply str_all_impl; [| exact Hrest].
    intros c [Hc _]%andb_prop. exact Hc.
Qed.

Lemma in_range15 z : 0 ≤ z < 15 → z ∈ range15.
Proof. intros H. apply elem_of_seqZ. lia. Qed.

Lemma valid_position_roundtrip (p : Position) :
  Position_IsValid p = true →
  ∃ lbl, label p = Some lbl ∧ Position_String p = lbl ∧
         lbl = label_of (GoString.byte_of (65 + Col p)) (Row p + 1) ∧
         NewPositionFromString lbl = Ret (p, None).
Proof.
  destruct p as [r c]. unfold Position_IsValid. cbn [Row Col].
  intros Hv.
  assert (r ∈ range15 ∧ c ∈ range15) as [Hr Hc].
  { split; apply in_range15; lia. }
  unfold range15 in Hr, Hc. vm_compute seqZ in Hr, Hc.
  enumerate Hr; enumerate Hc;
    (eexists; split; [reflexivity | repeat split; vm_compute; reflexivity]).
Qed.

Lemma out_of_bounds_label_rejected (letter : ascii) (n : Z) :
  is_letter letter = true →
  ¬ (column_of_letter letter < 15 ∧ 1 ≤ n ≤ 15) →
  ∃ e, NewPositionFromString (label_of letter n) = Ret (Position_zero, Some e).
Proof.
  intros Hl Hout. unfold NewPositionFromString, label_of.
  rewrite (letter_normalized _ _ Hl (Itoa_plain n)).
  unfold column_of_letter in Hout.
  set (C := GoString.upper_byte letter) in *.
  destruct (Z.lt_ge_cases n 0) as [Hneg | Hpos].
  { destruct (Itoa_negative n Hneg) as (ds & -> & Hds).
    destruct ds as [| d [| d' ds]]; [simpl in Hds; lia | |].
    - rewrite parse_three. cbv zeta. destruct (_ || _); eauto.
    - rewrite parse_long by (simpl; lia). eauto. }
  destruct (Z.lt_ge_cases n 100) as [Hsmall | Hbig].
  2: { rewrite parse_long; [eauto |].
       pose proof (Itoa_long n Hbig). simpl. lia. }
  assert (n ∈ seqZ 0 100) as Hn by (apply elem_of_seqZ; lia).
  vm_compute seqZ in Hn.
  enumerate Hn;
    match goal with
    | |- context [GoString.Itoa ?k] =>
        let s := eval vm_compute in (GoString.Itoa k) in
        change (GoString.Itoa k) with s
    end;
    first [rewrite parse_two | rewrite parse_three]; cbv zeta;
    (destruct (Z.ltb_spec (GoString.byte_sub C "A") 0) as [Hlo | Hlo];
     [eauto |]);
    (destruct (Z.ltb_spec 14 (GoString.byte_sub C "A")) as [Hhi | Hhi];
     [eauto |]);
    cbn [orb];
    first [ eexists; reflexivity | exfalso; apply Hout; lia ].
Qed.

(** C2. For every position on the board, [String] gives the letter of the
    column (A to O) followed by the number of the row (1 to 15), "H8" for
    the center (7,7), and [NewPositionFromString] maps that label back to
    the position without error; a label whose letter or number lies off
    the board ("A0", "A16", "P1", ...) makes [NewPositionFromString] return
    an error. *)
Theorem position_label_roundtrip :
  Position_String (mkPosition 7 7) = "H8"%string ∧
  (∀ p : Position, Position_IsValid p = true →
     ∃ lbl, label p = Some lbl ∧ Position_String p = lbl ∧
            lbl = label_of (GoString.byte_of (65 + Col p)) (Row p + 1) ∧
            NewPositionFromString lbl = Ret (p, None)) ∧
  (∀ (letter : ascii) (n : Z), is_letter letter = true →
     ¬ (column_of_letter letter < 15 ∧ 1 ≤ n ≤ 15) →
     ∃ e, NewPositionFromString (label_of letter n) = Ret (Position_zero, Some e)).
Proof.
  split; [reflexivity |].
  split; [exact valid_position_roundtrip | exact out_of_bounds_label_rejected].
Qed.

Lemma position_label_roundtrip_witness :
  (∃ lbl, label (mkPosition 14 0) = Some lbl ∧
          Position_String (mkPosition 14 0) = lbl ∧
          lbl = label_of (GoString.byte_of (65 + 0)) (14 + 1) ∧
          NewPositionFromString lbl = Ret (mkPosition 14 0, None)) ∧
  (∃ e, NewPositionFromString (label_of "P" 1) = Ret (Position_zero, Some e)).
Proof.
  destruct position_label_roundtrip as (_ & Hin & Hout).
  split.
  - apply (Hin (mkPosition 14 0)). reflexivity.
  - apply (Hout "P"%char 1); [reflexivity |].
    intros [Hcol _]. vm_compute in Hcol. discriminate Hcol.
Defined.

Example NewPositionFromString_A0 :
  NewPositionFromString "A0" = Ret (Position_zero, Some (ErrRow 0)).
Proof. reflexivity. Qed.

Example NewPositionFromString_A16 :
  NewPositionFromString "A16" = Ret (Position_zero, Some (ErrRow 16)).
Proof. reflexivity. Qed.

Example NewPositionFromString_P1 :
  NewPositionFromString "P1" = Ret (Position_zero, Some (ErrColumn "P")).
Proof. reflexivity. Qed.

(** The row of a two-byte label is the byte difference with "0", so the
    bytes that follow "9" in ASCII are read as the rows 10 to 15. *)
Example NewPositionFromString_colon :
  NewPositionFromString "A:" = Ret (mkPosition 9 0, None).
Proof. reflexivity. Qed.

(** ** Reading and writing the grid *)

Lemma index_Ret {A : Type} (l : list A) (i : Z) :
  0 ≤ i < Z.of_nat (length l) →
  ∃ x, index l i = Ret x ∧ l !! Z.to_nat i = Some x.
Proof.
  intros Hi. unfold index.
  destruct (Z.ltb_spec i 0) as [? | _]; [lia |].
  destruct (lookup_lt_is_Some_2 l (Z.to_nat i)) as [x Hx]; [lia |].
  rewrite Hx. eauto.
Qed.

Lemma store_Ret {A : Type} (l : list A) (i : Z) (x : A) :
  0 ≤ i < Z.of_nat (length l) →
  store l i x = Ret (<[Z.to_nat i := x]> l).
Proof.
  intros Hi. unfold store.
  destruct (Z.ltb_spec i 0) as [? | _]; [lia |].
  destruct (Z.leb_spec (Z.of_nat (length l)) i) as [? | _]; [lia |].
  reflexivity.
Qed.

Lemma Position_IsValid_bounds (p : Position) :
  Position_IsValid p = true ↔ (0 ≤ Row p < 15 ∧ 0 ≤ Col p < 15).
Proof. unfold Position_IsValid. lia. Qed.

Lemma Board_wf_row (b : Board) (i : nat) (row : list Square) :
  Board_wf b → Grid b !! i = Some row → length row = 15%nat.
Proof.
  intros [_ Hrows] Hi. rewrite Forall_lookup in Hrows. exact (Hrows i row Hi).
Qed.

Lemma Grid_get_Ret (b : Board) (r c : Z) :
  Board_wf b → 0 ≤ r < 15 → 0 ≤ c < 15 →
  ∃ row sq, Grid b !! Z.to_nat r = Some row ∧ row !! Z.to_nat c = Some sq ∧
            Grid_get b r c = Ret sq.
Proof.
  intros Hwf Hr Hc. unfold Grid_get.
  destruct (index_Ret (Grid b) r) as (row & -> & Hrow); [destruct Hwf; lia |].
  pose proof (Board_wf_row _ _ _ Hwf Hrow) as Hlen.
  destruct (index_Ret row c) as (sq & Hsq & Hlook); [lia |].
  exists row, sq. auto.
Qed.

(** Outside the grid a read panics, whatever the board. *)
Lemma Grid_get_outside (b : Board) (r c : Z) :
  Board_wf b → ¬ (0 ≤ r < 15 ∧ 0 ≤ c < 15) → Grid_get b r c = Panic.
Proof.
  intros Hwf Hout. unfold Grid_get, index.
  destruct (Z.ltb_spec r 0) as [? | Hr]; [reflexivity |].
  destruct (Grid b !! Z.to_nat r) as [row |] eqn:Hrow; [| reflexivity].
  pose proof (Board_wf_row _ _ _ Hwf Hrow) as Hlen.
  apply lookup_lt_Some in Hrow. destruct Hwf as [Hrows _].
  cbn [mbind Go_bind].
  destruct (Z.ltb_spec c 0) as [? | Hc]; [reflexivity |].
  rewrite lookup_ge_None_2; [reflexivity | lia].
Qed.

Lemma Grid_set_Ret (b : Board) (r c : Z) (sq : Square) :
  Board_wf b → 0 ≤ r < 15 → 0 ≤ c < 15 →
  ∃ row, Grid b !! Z.to_nat r = Some row ∧
         Grid_set b r c sq =
           Ret (mkBoard (<[Z.to_nat r := <[Z.to_nat c := sq]> row]> (Grid b))
                        (Center b)).
Proof.
  intros Hwf Hr Hc. unfold Grid_set.
  destruct (index_Ret (Grid b) r) as (row & -> & Hrow); [destruct Hwf; lia |].
  pose proof (Board_wf_row _ _ _ Hwf Hrow) as Hlen.
  exists row. split; [exact Hrow |]. cbn [mbind Go_bind].
  rewrite store_Ret by lia. cbn [mbind Go_bind].
  rewrite store_Ret by (destruct Hwf; lia). reflexivity.
Qed.

Lemma Grid_set_with_square (b : Board) (r c : Z) (sq : Square) :
  Board_wf b → 0 ≤ r < 15 → 0 ≤ c < 15 →
  Grid_set b r c sq = Ret (with_square b r c sq).
Proof.
  intros Hwf Hr Hc.
  destruct (Grid_set_Ret b r c sq Hwf Hr Hc) as (row & Hrow & ->).
  unfold with_square. rewrite Hrow. reflexivity.
Qed.

Lemma with_square_wf (b : Board) (r c : Z) (sq : Square) :
  Board_wf b → Board_wf (with_square b r c sq).
Proof.
  intros Hwf. unfold with_square.
  destruct (Grid b !! Z.to_nat r) as [row |] eqn:Hrow; [| exact Hwf].
  pose proof (Board_wf_row _ _ _ Hwf Hrow) as Hlen.
  destruct Hwf as [Hrows Hcols]. split; cbn [Grid].
  - rewrite length_insert. exact Hrows.
  - apply Forall_insert; [exact Hcols |]. rewrite length_insert. exact Hlen.
Qed.

Lemma with_square_Center (b : Board) (r c : Z) (sq : Square) :
  Center (with_square b r c sq) = Center b.
Proof. unfold with_square. destruct (Grid b !! Z.to_nat r); reflexivity. Qed.

Lemma with_square_get_eq (b : Board) (r c : Z) (sq : Square) :
  Board_wf b → 0 ≤ r < 15 → 0 ≤ c < 15 →
  Grid_get (with_square b r c sq) r c = Ret sq.
Proof.
  intros Hwf Hr Hc.
  destruct (Grid_get_Ret b r c Hwf Hr Hc) as (row & old & Hrow & Hold & _).
  unfold with_square. rewrite Hrow. unfold Grid_get, index. cbn [Grid].
  destruct (Z.ltb_spec r 0) as [? | _]; [lia |].
  rewrite list_lookup_insert_eq by (apply lookup_lt_Some in Hrow; lia).
  cbn [mbind Go_bind].
  destruct (Z.ltb_spec c 0) as [? | _]; [lia |].
  rewrite list_lookup_insert_eq by (apply lookup_lt_Some in Hold; lia).
  reflexivity.
Qed.

Lemma with_square_get_ne (b : Board) (r c r' c' : Z) (sq : Square) :
  0 ≤ r → 0 ≤ c → (r', c') ≠ (r, c) →
  Grid_get (with_square b r c sq) r' c' = Grid_get b r' c'.
Proof.
  intros Hr Hc Hne. unfold with_square.
  destruct (Grid b !! Z.to_nat r) as [row |] eqn:Hrow; [| reflexivity].
  unfold Grid_get, index. cbn [Grid].
  destruct (Z.ltb_spec r' 0) as [? | Hr']; [reflexivity |].
  destruct (decide (r' = r)) as [-> | Hner].
  - rewrite Hrow.
    rewrite list_lookup_insert_eq by (apply lookup_lt_Some in Hrow; lia).
    cbn [mbind Go_bind].
    destruct (Z.ltb_spec c' 0) as [? | Hc']; [reflexivity |].
    rewrite list_lookup_insert_ne; [reflexivity |].
    intros Heq. apply Hne. f_equal. lia.
  - rewrite list_lookup_insert_ne by lia. reflexivity.
Qed.

(** ** C3: placing a tile *)

Lemma PlaceTile_invalid (b : Board) (tile : Tile) (pos : Position) :
  Position_IsValid pos = false →
  Board_PlaceTile b tile pos =
    Ret (b, Some (ErrInvalidPosition (Position_String pos))).
Proof.
  intros Hv. unfold Board_PlaceTile, Board_IsValidPosition. rewrite Hv.
  reflexivity.
Qed.

Lemma PlaceTile_valid (b : Board) (tile : Tile) (pos : Position) :
  Board_wf b → Position_IsValid pos = true →
  ∃ sq, Grid_get b (Row pos) (Col pos) = Ret sq ∧
        Board_PlaceTile b tile pos =
          if Occupied sq
          then Ret (b, Some (ErrOccupied (Position_String pos)))
          else Ret (with_square b (Row pos) (Col pos)
                      (mkSquare (Some tile) (Premium sq) true), None).
Proof.
  intros Hwf Hv. pose proof Hv as [Hr Hc]%Position_IsValid_bounds.
  destruct (Grid_get_Ret b _ _ Hwf Hr Hc) as (row & sq & _ & _ & Hsq).
  exists sq. split; [exact Hsq |].
  unfold Board_PlaceTile, Board_IsValidPosition. rewrite Hv, Hsq.
  cbn [negb mbind Go_bind]. destruct (Occupied sq); [reflexivity |].
  rewrite Grid_set_with_square by assumption. reflexivity.
Qed.

Lemma RemoveTile_invalid (b : Board) (pos : Position) :
  Position_IsValid pos = false →
  Board_RemoveTile b pos =
    Ret (b, None, Some (ErrInvalidPosition (Position_String pos))).
Proof.
  intros Hv. unfold Board_RemoveTile, Board_IsValidPosition. rewrite Hv.
  reflexivity.
Qed.

Lemma RemoveTile_valid (b : Board) (pos : Position) :
  Board_wf b → Position_IsValid pos = true →
  ∃ sq, Grid_get b (Row pos) (Col pos) = Ret sq ∧
        Board_RemoveTile b pos =
          if Occupied sq
          then Ret (with_square b (Row pos) (Col pos)
                      (mkSquare None (Premium sq) false), Square_Tile sq, None)
          else Ret (b, None, Some (ErrNoTile (Position_String pos))).
Proof.
  intros Hwf Hv. pose proof Hv as [Hr Hc]%Position_IsValid_bounds.
  destruct (Grid_get_Ret b _ _ Hwf Hr Hc) as (row & sq & _ & _ & Hsq).
  exists sq. split; [exact Hsq |].
  unfold Board_RemoveTile, Board_IsValidPosition. rewrite Hv, Hsq.
  cbn [negb mbind Go_bind]. destruct (Occupied sq); cbn [negb]; [| reflexivity].
  rewrite Grid_set_with_square by assumption. reflexivity.
Qed.

Lemma GetSquare_with_square_ne (b : Board) (pos q : Position) (sq : Square) :
  Position_IsValid pos = true → q ≠ pos →
  Board_GetSquare (with_square b (Row pos) (Col pos) sq) q = Board_GetSquare b q.
Proof.
  intros [Hr Hc]%Position_IsValid_bounds Hne.
  unfold Board_GetSquare, Board_IsValidPosition.
  destruct (Position_IsValid q); cbn [negb]; [| reflexivity].
  rewrite with_square_get_ne; [reflexivity | lia | lia |].
  intros Heq. apply Hne. destruct q, pos. cbn in Heq. congruence.
Qed.

(** C3. [PlaceTile] returns an error exactly when the position is off the
    board or the square there is already occupied, and then leaves the
    board as it was; when it succeeds the square holds the tile and is
    occupied, and every other square (and the premium of this one) is as
    before. *)
Theorem PlaceTile_error_iff_and_frame (b : Board) (tile : Tile) (pos : Position) :
  Board_wf b →
  ∃ b' err,
    Board_PlaceTile b tile pos = Ret (b', err) ∧
    (err ≠ None ↔
       (Position_IsValid pos = false ∨ Board_HasTileAt b pos = Ret true)) ∧
    (err ≠ None → b' = b) ∧
    (err = None →
       Board_wf b' ∧
       Center b' = Center b ∧
       Board_HasTileAt b' pos = Ret true ∧
       Board_GetTile b' pos = Ret (Some tile) ∧
       Board_GetPremiumType b' pos = Board_GetPremiumType b pos ∧
       ∀ q, q ≠ pos → Board_GetSquare b' q = Board_GetSquare b q).
Proof.
  intros Hwf.
  destruct (Position_IsValid pos) eqn:Hv.
  - destruct (PlaceTile_valid b tile pos Hwf Hv) as (sq & Hsq & ->).
    pose proof Hv as [Hr Hc]%Position_IsValid_bounds.
    assert (Board_HasTileAt b pos = Ret (Occupied sq)) as Hhas.
    { unfold Board_HasTileAt, Board_IsValidPosition. rewrite Hv, Hsq. reflexivity. }
    rewrite Hhas.
    destruct (Occupied sq) eqn:Hocc.
    + eexists _, _. split; [reflexivity |].
      split; [split; [auto | discriminate] |].
      split; [reflexivity | discriminate].
    + eexists _, _. split; [reflexivity |].
      split; [split; [congruence | intros [? | ?]; congruence] |].
      split; [congruence |]. intros _.
      set (sq' := mkSquare (Some tile) (Premium sq) true).
      assert (Grid_get (with_square b (Row pos) (Col pos) sq') (Row pos) (Col pos)
              = Ret sq') as Hget by (apply with_square_get_eq; assumption).
      split; [apply with_square_wf, Hwf |].
      split; [apply with_square_Center |].
      unfold Board_HasTileAt, Board_GetTile, Board_GetPremiumType,
        Board_IsValidPosition.
      rewrite Hv, Hget, Hsq. cbn [negb mbind Go_bind].
      repeat split.
      intros q Hq. apply GetSquare_with_square_ne; assumption.
  - rewrite (PlaceTile_invalid b tile pos Hv).
    eexists _, _. split; [reflexivity |].
    split; [split; [auto | discriminate] |].
    split; [reflexivity | discriminate].
Qed.

Lemma PlaceTile_error_iff_and_frame_witness :
  Board_wf standardBoard ∧
  ∃ b' err,
    Board_PlaceTile standardBoard (mkTile 65 1 false) (mkPosition 7 7)
      = Ret (b', err) ∧
    (err ≠ None ↔
       (Position_IsValid (mkPosition 7 7) = false ∨
        Board_HasTileAt standardBoard (mkPosition 7 7) = Ret true)) ∧
    (err ≠ None → b' = standardBoard) ∧
    (err = None →
       Board_wf b' ∧
       Center b' = Center standardBoard ∧
       Board_HasTileAt b' (mkPosition 7 7) = Ret true ∧
       Board_GetTile b' (mkPosition 7 7) = Ret (Some (mkTile 65 1 false)) ∧
       Board_GetPremiumType b' (mkPosition 7 7)
         = Board_GetPremiumType standardBoard (mkPosition 7 7) ∧
       ∀ q, q ≠ mkPosition 7 7 →
            Board_GetSquare b' q = Board_GetSquare standardBoard q).
Proof.
  split; [exact standardBoard_wf |].
  exact (PlaceTile_error_iff_and_frame standardBoard (mkTile 65 1 false)
           (mkPosition 7 7) standardBoard_wf).
Defined.

(** ** C8: the premium layout is fixed *)

Lemma with_square_premiums (b : Board) (r c : Z) (old sq : Square) :
  Grid_get b r c = Ret old → Premium sq = Premium old →
  premiums (with_square b r c sq) = premiums b.
Proof.
  intros Hold Hprem. unfold with_square.
  destruct (Grid b !! Z.to_nat r) as [row |] eqn:Hrow; [| reflexivity].
  unfold premiums. cbn [Grid].
  unfold Grid_get, index in Hold.
  destruct (r <? 0); [discriminate |]. rewrite Hrow in Hold.
  cbn [mbind Go_bind] in Hold.
  destruct (c <? 0); [discriminate |].
  destruct (row !! Z.to_nat c) as [old' |] eqn:Hc; [| discriminate].
  injection Hold as ->.
  change map with (@fmap list _) in *.
  rewrite list_fmap_insert. apply list_insert_id.
  rewrite list_lookup_fmap, Hrow. cbn [fmap option_fmap option_map]. f_equal.
  rewrite list_fmap_insert. symmetry. apply list_insert_id.
  rewrite list_lookup_fmap, Hc. cbn [fmap option_fmap option_map].
  f_equal. symmetry. exact Hprem.
Qed.

Lemma call_premiums (b : Board) (c : BoardCall) :
  Board_wf b →
  ∃ b', call b c = Ret b' ∧ Board_wf b' ∧ premiums b' = premiums b.
Proof.
  intros Hwf. destruct c as [tile pos | pos]; cbn [call].
  - destruct (Position_IsValid pos) eqn:Hv.
    + destruct (PlaceTile_valid b tile pos Hwf Hv) as (sq & Hsq & ->).
      destruct (Occupied sq); cbn [mbind Go_bind fst]; eexists; split;
        try reflexivity; split; auto using with_square_wf.
      eapply with_square_premiums; [exact Hsq | reflexivity].
    + rewrite (PlaceTile_invalid b tile pos Hv). cbn [mbind Go_bind fst]. eauto.
  - destruct (Position_IsValid pos) eqn:Hv.
    + destruct (RemoveTile_valid b pos Hwf Hv) as (sq & Hsq & ->).
      destruct (Occupied sq); cbn [mbind Go_bind fst]; eexists; split;
        try reflexivity; split; auto using with_square_wf.
      eapply with_square_premiums; [exact Hsq | reflexivity].
    + rewrite (RemoveTile_invalid b pos Hv). cbn [mbind Go_bind fst]. eauto.
Qed.

Lemma GetPremiumType_premiums (b b' : Board) (pos : Position) :
  premiums b' = premiums b →
  Board_GetPremiumType b' pos = Board_GetPremiumType b pos.
Proof.
  intros Hp. unfold Board_GetPremiumType, Board_IsValidPosition.
  destruct (Position_IsValid pos); cbn [negb]; [| reflexivity].
  unfold Grid_get, index. destruct (Row pos <? 0); [reflexivity |].
  assert (map Premium <$> (Grid b' !! Z.to_nat (Row pos)) =
          map Premium <$> (Grid b !! Z.to_nat (Row pos))) as Hrow.
  { rewrite <- !list_lookup_fmap. unfold premiums in Hp.
    change map with (@fmap list _) in *. rewrite Hp. reflexivity. }
  destruct (Grid b' !! _) as [row' |], (Grid b !! _) as [row |];
    try discriminate Hrow; [| reflexivity].
  cbn [mbind Go_bind]. destruct (Col pos <? 0); [reflexivity |].
  injection Hrow as Hrow.
  assert (Premium <$> (row' !! Z.to_nat (Col pos)) =
          Premium <$> (row !! Z.to_nat (Col pos))) as Hsq.
  { rewrite <- !list_lookup_fmap. change map with (@fmap list _) in *.
    rewrite Hrow. reflexivity. }
  destruct (row' !! _) as [sq' |], (row !! _) as [sq |];
    try discriminate Hsq; [| reflexivity].
  injection Hsq as Hsq. cbn [mbind Go_bind]. rewrite Hsq. reflexivity.
Qed.

(** C8. Whatever sequence of [PlaceTile] and [RemoveTile] calls is made on
    a board, with whatever tiles and positions and whether the calls
    succeed or fail, the calls all return and the premium type of every
    square is afterwards what it was before. *)
Theorem premium_layout_fixed (b : Board) (calls : list BoardCall) :
  Board_wf b →
  ∃ b', forRange call b calls = Ret b' ∧
        Board_wf b' ∧
        premiums b' = premiums b ∧
        ∀ pos, Board_GetPremiumType b' pos = Board_GetPremiumType b pos.
Proof.
  revert b. induction calls as [| c calls IH]; intros b Hwf.
  - exists b. cbn. auto.
  - destruct (call_premiums b c Hwf) as (b1 & Hcall & Hwf1 & Hp1).
    destruct (IH b1 Hwf1) as (b' & Hrun & Hwf' & Hp' & _).
    exists b'. cbn [forRange]. rewrite Hcall. cbn [mbind Go_bind].
    split; [exact Hrun |]. split; [exact Hwf' |].
    assert (premiums b' = premiums b) as Hp by congruence.
    split; [exact Hp |].
    intros pos. apply GetPremiumType_premiums, Hp.
Qed.

Lemma premium_layout_fixed_witness :
  Board_wf standardBoard ∧
  ∃ b', forRange call standardBoard
          [CallPlaceTile (mkTile 81 10 false) (mkPosition 7 7);
           CallPlaceTile (mkTile 85 1 false) (mkPosition 7 7);
           CallRemoveTile (mkPosition 7 7);
           CallRemoveTile (mkPosition 15 0)] = Ret b' ∧
        Board_wf b' ∧
        premiums b' = premiums standardBoard ∧
        ∀ pos, Board_GetPremiumType b' pos
               = Board_GetPremiumType standardBoard pos.
Proof.
  split; [exact standardBoard_wf |].
  exact (premium_layout_fixed standardBoard _ standardBoard_wf).
Defined.

(** ** C10: reading off the board *)

(** C10. The read accessors never index outside the grid: on every
    position they return a value rather than panic, and for a position off
    the board [GetTile], [GetSquare] and [GetAdjacentPositions] return nil,
    [GetPremiumType] returns [Normal], and [IsEmpty] and [HasTileAt]
    return false. *)
Theorem accessors_total (b : Board) (pos : Position) :
  Board_wf b →
  (Position_IsValid pos = false →
     Board_GetTile b pos = Ret None ∧
     Board_GetSquare b pos = Ret None ∧
     Board_GetAdjacentPositions b pos = Ret None ∧
     Board_GetPremiumType b pos = Ret Normal ∧
     Board_IsEmpty b pos = Ret false ∧
     Board_HasTileAt b pos = Ret false) ∧
  (∃ tile, Board_GetTile b pos = Ret tile) ∧
  (∃ square, Board_GetSquare b pos = Ret square) ∧
  (∃ adjacent, Board_GetAdjacentPositions b pos = Ret adjacent) ∧
  (∃ premium, Board_GetPremiumType b pos = Ret premium) ∧
  (∃ empty, Board_IsEmpty b pos = Ret empty) ∧
  (∃ has, Board_HasTileAt b pos = Ret has).
Proof.
  intros Hwf. split.
  - intros Hv.
    unfold Board_GetTile, Board_GetSquare, Board_GetAdjacentPositions,
      Board_GetPremiumType, Board_IsEmpty, Board_HasTileAt,
      Board_IsValidPosition.
    rewrite Hv. cbn [negb]. repeat split.
  - unfold Board_GetTile, Board_GetSquare, Board_GetAdjacentPositions,
      Board_GetPremiumType, Board_IsEmpty, Board_HasTileAt,
      Board_IsValidPosition.
    destruct (Position_IsValid pos) eqn:Hv; cbn [negb].
    + pose proof Hv as [Hr Hc]%Position_IsValid_bounds.
      destruct (Grid_get_Ret b _ _ Hwf Hr Hc) as (row & sq & _ & _ & ->).
      cbn [mbind Go_bind]. 
      repeat split; try (eexists; reflexivity).
      * destruct (negb (Occupied sq)); eexists; reflexivity.
      * cbn [forRange directions mbind Go_bind].
        repeat (destruct (Position_IsValid _); cbn [mbind Go_bind]);
          eexists; reflexivity.
    + repeat split; eexists; reflexivity.
Qed.

Lemma accessors_total_witness :
  Board_wf standardBoard ∧
  Board_GetTile standardBoard (mkPosition (-1) 15) = Ret None ∧
  Board_GetSquare standardBoard (mkPosition (-1) 15) = Ret None ∧
  Board_GetAdjacentPositions standardBoard (mkPosition (-1) 15) = Ret None ∧
  Board_GetPremiumType standardBoard (mkPosition (-1) 15) = Ret Normal ∧
  Board_IsEmpty standardBoard (mkPosition (-1) 15) = Ret false ∧
  Board_HasTileAt standardBoard (mkPosition (-1) 15) = Ret false.
Proof.
  split; [exact standardBoard_wf |].
  apply (accessors_total standardBoard (mkPosition (-1) 15) standardBoard_wf).
  reflexivity.
Defined.

(** ** C4: drawing from the bag *)

Lemma copy_exact {A : Type} (dst src : list A) :
  length dst = length src → copy dst src = src.
Proof.
  intros Hlen. unfold copy. rewrite Hlen, Nat.min_id.
  rewrite firstn_all, <- Hlen, skipn_all, app_nil_r. reflexivity.
Qed.

(** C4. [DrawTiles(n)] always returns; it returns [min(n, remaining)]
    tiles when [n > 0] and no tile when [n <= 0]; the remaining count
    goes down by the number of tiles returned, which are the last tiles
    of the bag; and fewer than [n] tiles come back only when the bag held
    fewer than [n]. *)
Theorem DrawTiles_count (tb : TileBag) (n : Z) :
  ∃ drawn tb',
    TileBag_DrawTiles tb n = Ret (drawn, tb') ∧
    Z.of_nat (length drawn) =
      (if 0 <? n then Z.min n (TileBag_RemainingCount tb) else 0) ∧
    TileBag_RemainingCount tb' =
      TileBag_RemainingCount tb - Z.of_nat (length drawn) ∧
    tiles tb = tiles tb' ++ drawn ∧
    (0 < n → Z.of_nat (length drawn) < n → TileBag_RemainingCount tb < n).
Proof.
  unfold TileBag_DrawTiles, TileBag_RemainingCount.
  destruct (Z.leb_spec n 0) as [Hn | Hn].
  - exists [], tb. destruct (Z.ltb_spec 0 n) as [? | _]; [lia |].
    cbn [length]. rewrite app_nil_r. repeat split; lia.
  - destruct (Z.ltb_spec 0 n) as [_ | ?]; [| lia].
    set (available := Z.of_nat (length (tiles tb))).
    set (count := if available <? n then available else n).
    assert (0 ≤ count ≤ available ∧ count = Z.min n available) as [Hcount Hmin].
    { subst count. destruct (Z.ltb_spec available n); lia. }
    unfold slice_from, slice_to. fold available.
    destruct (Z.ltb_spec (available - count) 0) as [? | _]; [lia |].
    destruct (Z.ltb_spec available (available - count)) as [? | _]; [lia |].
    cbn [orb mbind Go_bind].
    eexists _, _. split; [reflexivity |].
    rewrite copy_exact.
    2: { rewrite length_replicate, length_drop. subst available. lia. }
    cbn [tiles]. rewrite length_drop, length_take.
    split; [subst available; lia |].
    split; [subst available; lia |].
    split; [symmetry; apply take_drop |].
    subst available. lia.
Qed.

Example DrawTiles_three :
  TileBag_DrawTiles
    (mkTileBag [mkTile 65 1 false; mkTile 66 3 false; mkTile 0 0 true]) 2
  = Ret ([mkTile 66 3 false; mkTile 0 0 true], mkTileBag [mkTile 65 1 false]).
Proof. reflexivity. Qed.

Example DrawTiles_exhausted :
  TileBag_DrawTiles (mkTileBag [mkTile 65 1 false]) 7
  = Ret ([mkTile 65 1 false], mkTileBag []).
Proof. reflexivity. Qed.

Lemma DrawTiles_count_witness :
  ∃ drawn tb',
    TileBag_DrawTiles (mkTileBag [mkTile 65 1 false; mkTile 0 0 true]) 7
      = Ret (drawn, tb') ∧
    Z.of_nat (length drawn) = 2 ∧
    TileBag_RemainingCount tb' = 0 ∧
    TileBag_RemainingCount (mkTileBag [mkTile 65 1 false; mkTile 0 0 true]) < 7.
Proof.
  destruct (DrawTiles_count (mkTileBag [mkTile 65 1 false; mkTile 0 0 true]) 7)
    as (drawn & tb' & Hdraw & Hlen & Hrem & _ & Hfew).
  exists drawn, tb'. split; [exact Hdraw |].
  split; [exact Hlen |].
  split; [rewrite Hrem, Hlen; reflexivity |].
  apply Hfew; [reflexivity | rewrite Hlen; reflexivity].
Defined.

(** ** C5: adding tiles to a rack *)

(** Whatever the rack holds: an error is returned exactly when there is a
    tile to add and the sizes add up to more than the capacity, and then
    the player is left as it was; otherwise the tiles are appended. *)
Lemma AddTilesToRack_cases (p : Player) (ts : list Tile) :
  let (p', err) := Player_AddTilesToRack p ts in
  (err ≠ None ↔
     ts ≠ [] ∧ MaxRackSize < Z.of_nat (length (Rack p)) + Z.of_nat (length ts)) ∧
  (err ≠ None → p' = p) ∧
  (err = None → p' = set_Rack p (Rack p ++ ts)).
Proof.
  unfold Player_AddTilesToRack, MaxRackSize.
  destruct ts as [| t ts].
  - cbn [length Z.of_nat Z.eqb]. rewrite app_nil_r.
    split; [split; [congruence | intros [? _]; congruence] |].
    split; [reflexivity |]. intros _. destruct p; reflexivity.
  - destruct (Z.eqb_spec (Z.of_nat (length (t :: ts))) 0) as [H0 | _];
      [cbn [length] in H0; lia |].
    destruct (Z.ltb_spec 7 (Z.of_nat (length (Rack p)) +
                            Z.of_nat (length (t :: ts)))) as [Hover | Hfit].
    + split; [split; [intros _; split; [discriminate | exact Hover]
                     | discriminate] |].
      split; [reflexivity | discriminate].
    + split; [split; [congruence | lia] |].
      split; [congruence | reflexivity].
Qed.

(** C5. On a rack within the capacity of 7, [AddTilesToRack] returns an
    error exactly when the size of the rack plus the number of tiles to
    add exceeds 7, and then leaves the player as it was; on success the
    rack is the old rack followed by the tiles, so its size grows by
    exactly their number, and nothing else changes. In both cases the
    rack holds at most 7 tiles after the call. *)
Theorem AddTilesToRack_capacity (p : Player) (ts : list Tile) :
  Player_GetRackSize p ≤ MaxRackSize →
  let (p', err) := Player_AddTilesToRack p ts in
  (err ≠ None ↔
     MaxRackSize < Player_GetRackSize p + Z.of_nat (length ts)) ∧
  (err ≠ None → p' = p) ∧
  (err = None →
     p' = set_Rack p (Rack p ++ ts) ∧
     Player_GetRackSize p' = Player_GetRackSize p + Z.of_nat (length ts)) ∧
  Player_GetRackSize p' ≤ MaxRackSize.
Proof.
  intros Hcap. pose proof (AddTilesToRack_cases p ts) as H.
  destruct (Player_AddTilesToRack p ts) as [p' err].
  destruct H as (Hiff & Hsame & Happ).
  unfold Player_GetRackSize, MaxRackSize in *.
  assert (ts = [] → length ts = 0%nat) as Hnil by (intros ->; reflexivity).
  destruct err as [e |].
  - destruct (proj1 Hiff ltac:(discriminate)) as [_ Hover].
    rewrite (Hsame ltac:(discriminate)).
    split; [split; [intros _; exact Hover | discriminate] |].
    split; [reflexivity |]. split; [discriminate | exact Hcap].
  - rewrite (Happ eq_refl). cbn [Rack set_Rack]. rewrite length_app.
    assert (¬ 7 < Z.of_nat (length (Rack p)) + Z.of_nat (length ts)) as Hfit.
    { intros Hover. destruct ts as [| t ts].
      - cbn [length] in Hover. lia.
      - apply (proj2 Hiff); [split; [discriminate | exact Hover] | reflexivity]. }
    split; [split; [congruence | intros Hover; destruct (Hfit Hover)] |].
    split; [congruence |]. split; [intros _; split; [reflexivity | lia] | lia].
Qed.

Lemma AddTilesToRack_capacity_witness :
  let p := mkPlayer "test" "TestPlayer"
             (replicate 5 (mkTile 69 1 false)) 0 true in
  let ts := [mkTile 81 10 false; mkTile 0 0 true] in
  let q := mkPlayer "test" "TestPlayer"
             (replicate 6 (mkTile 69 1 false)) 0 true in
  Player_GetRackSize p ≤ MaxRackSize ∧
  Player_AddTilesToRack p ts = (set_Rack p (Rack p ++ ts), None) ∧
  Player_GetRackSize (Player_AddTilesToRack p ts).1 ≤ MaxRackSize ∧
  Player_GetRackSize q ≤ MaxRackSize ∧
  (Player_AddTilesToRack q ts).2 ≠ None ∧
  (Player_AddTilesToRack q ts).1 = q.
Proof.
  intros p ts q.
  assert (Player_GetRackSize p ≤ MaxRackSize) as Hp by (vm_compute; discriminate).
  assert (Player_GetRackSize q ≤ MaxRackSize) as Hq by (vm_compute; discriminate).
  pose proof (AddTilesToRack_capacity p ts Hp) as H.
  pose proof (AddTilesToRack_capacity q ts Hq) as H'.
  destruct (Player_AddTilesToRack p ts) as [p' err] eqn:Hadd.
  destruct (Player_AddTilesToRack q ts) as [q' err'] eqn:Hadd'.
  destruct H as (_ & _ & _ & Hsize), H' as (Hiff & Hsame & _).
  assert (err' ≠ None) as Herr by (apply Hiff; vm_compute; reflexivity).
  split; [exact Hp |].
  split; [vm_compute in Hadd; vm_compute; congruence |].
  split; [exact Hsize |]. split; [exact Hq |].
  split; [exact Herr | exact (Hsame Herr)].
Defined.

(** ** C6: removing tiles from a rack *)

Lemma tilesEqual_eq (a b : Tile) : tilesEqual a b = true ↔ a = b.
Proof.
  destruct a as [la pa ba], b as [lb pb bb]. unfold tilesEqual. cbn.
  rewrite !andb_true_iff, !Z.eqb_eq, Bool.eqb_true_iff.
  split; [intros [[-> ->] ->]; reflexivity | intros [= -> -> ->]; auto].
Qed.

Lemma tilesEqual_neq (a b : Tile) : tilesEqual a b = false ↔ a ≠ b.
Proof.
  rewrite <- tilesEqual_eq. destruct (tilesEqual a b); split; congruence.
Qed.

(** The inner loop removes the first occurrence, when there is one. *)
Lemma removeFirst_found (t : Tile) (l1 l2 seen : list Tile) :
  t ∉ l1 →
  removeFirst t (seen ++ l1 ++ t :: l2) (Z.of_nat (length seen)) (l1 ++ t :: l2)
  = Ret (Some (seen ++ l1 ++ l2)).
Proof.
  revert seen. induction l1 as [| x l1 IH]; intros seen Hnotin.
  - cbn [app removeFirst].
    assert (tilesEqual t t = true) as -> by (apply tilesEqual_eq; reflexivity).
    unfold slice_to, slice_from. rewrite length_app. cbn [length].
    destruct (Z.ltb_spec (Z.of_nat (length seen)) 0) as [? | _]; [lia |].
    destruct (Z.ltb_spec (Z.of_nat (length seen + S (length l2)))
                (Z.of_nat (length seen))) as [? | _]; [lia |].
    destruct (Z.ltb_spec (Z.of_nat (length seen) + 1) 0) as [? | _]; [lia |].
    destruct (Z.ltb_spec (Z.of_nat (length seen + S (length l2)))
                (Z.of_nat (length seen) + 1)) as [? | _]; [lia |].
    cbn [orb mbind Go_bind]. rewrite Nat2Z.id.
    rewrite take_app_length.
    replace (Z.to_nat (Z.of_nat (length seen) + 1)) with (length seen + 1)%nat
      by lia.
    rewrite drop_app_add'; [| reflexivity]. reflexivity.
  - apply not_elem_of_cons in Hnotin as [Hne Hnotin].
    cbn [app removeFirst].
    assert (tilesEqual x t = false) as -> by (apply tilesEqual_neq; congruence).
    specialize (IH (seen ++ [x]) Hnotin).
    rewrite <- !app_assoc in IH. cbn [app] in IH.
    rewrite length_app in IH. cbn [length] in IH.
    replace (Z.of_nat (length seen) + 1) with (Z.of_nat (length seen + 1)) by lia.
    exact IH.
Qed.

Lemma removeFirst_missing (t : Tile) (rackCopy rest : list Tile) (i : Z) :
  t ∉ rest → removeFirst t rackCopy i rest = Ret None.
Proof.
  revert i. induction rest as [| x rest IH]; intros i Hnotin; [reflexivity |].
  apply not_elem_of_cons in Hnotin as [Hne Hnotin]. cbn [removeFirst].
  assert (tilesEqual x t = false) as -> by (apply tilesEqual_neq; congruence).
  apply IH, Hnotin.
Qed.

Lemma elem_of_first_split (t : Tile) (l : list Tile) :
  t ∈ l → ∃ l1 l2, l = l1 ++ t :: l2 ∧ t ∉ l1.
Proof.
  induction l as [| x l IH]; [intros H; inversion H |].
  intros Hin. destruct (decide (x = t)) as [-> | Hne].
  - exists [], l. split; [reflexivity | apply not_elem_of_nil].
  - apply elem_of_cons in Hin as [-> | Hin]; [congruence |].
    destruct (IH Hin) as (l1 & l2 & -> & Hnotin).
    exists (x :: l1), l2. split; [reflexivity |].
    apply not_elem_of_cons. split; [congruence | exact Hnotin].
Qed.

Lemma removeEach_spec (ts : list Tile) : ∀ rackCopy : list Tile,
  (ts ⊆+ rackCopy →
     ∃ rackCopy', removeEach rackCopy ts = Ret (inl rackCopy') ∧
                  rackCopy ≡ₚ ts ++ rackCopy' ∧
                  rackCopy' `sublist_of` rackCopy) ∧
  (¬ ts ⊆+ rackCopy →
     ∃ t, t ∈ ts ∧ removeEach rackCopy ts = Ret (inr (ErrTileNotFound t))).
Proof.
  induction ts as [| t ts IH]; intros rackCopy.
  - split.
    + intros _. exists rackCopy. cbn. auto.
    + intros H. destruct H. apply submseteq_nil_l.
  - cbn [removeEach].
    destruct (decide (t ∈ rackCopy)) as [Hin | Hnotin].
    + destruct (elem_of_first_split t rackCopy Hin) as (l1 & l2 & -> & Hl1).
      rewrite (removeFirst_found t l1 l2 [] Hl1
                 : removeFirst t (l1 ++ t :: l2) 0 (l1 ++ t :: l2)
                   = Ret (Some (l1 ++ l2))). cbn [mbind Go_bind].
      destruct (IH (l1 ++ l2)) as [IHin IHout].
      assert (t :: ts ⊆+ l1 ++ t :: l2 ↔ ts ⊆+ l1 ++ l2) as Hiff.
      { rewrite <- Permutation_middle. split.
        - intros H. apply (submseteq_app_inv_l _ _ [t]). exact H.
        - intros H. apply submseteq_skip. exact H. }
      split.
      * intros Hsub%Hiff. destruct (IHin Hsub) as (rc' & -> & Hperm & Hsl).
        exists rc'. split; [reflexivity |]. split.
        -- rewrite <- Permutation_middle. cbn [app]. rewrite Hperm. reflexivity.
        -- etransitivity; [exact Hsl |].
           apply sublist_app; [reflexivity |]. apply sublist_cons. reflexivity.
      * intros Hsub. destruct IHout as (t' & Ht' & ->).
        { intros H. apply Hsub, Hiff, H. }
        exists t'. split; [apply elem_of_cons; auto | reflexivity].
    + rewrite (removeFirst_missing t rackCopy rackCopy 0 Hnotin).
      cbn [mbind Go_bind]. split.
      * intros Hsub. destruct Hnotin.
        eapply elem_of_submseteq; [| exact Hsub]. apply elem_of_cons. auto.
      * intros _. exists t. split; [apply elem_of_cons; auto | reflexivity].
Qed.

(** C6. [RemoveTilesByValue] is all or nothing. If the requested tiles,
    counted with multiplicity, are not all in the rack, it returns an error
    and the player is as before. Otherwise it returns no error, the old
    rack is the requested tiles together with the new rack (one rack tile
    went for each requested tile), the tiles that stay keep their order,
    and the rack is shorter by the number of requested tiles. *)
Theorem RemoveTilesByValue_all_or_nothing (p : Player) (ts : list Tile) :
  ∃ p' err,
    Player_RemoveTilesByValue p ts = Ret (p', err) ∧
    (err ≠ None ↔ ¬ ts ⊆+ Rack p) ∧
    (err ≠ None → p' = p) ∧
    (err = None →
       p' = set_Rack p (Rack p') ∧
       Rack p ≡ₚ ts ++ Rack p' ∧
       Rack p' `sublist_of` Rack p ∧
       Player_GetRackSize p' = Player_GetRackSize p - Z.of_nat (length ts)).
Proof.
  unfold Player_RemoveTilesByValue.
  destruct ts as [| t ts].
  - exists p, None. cbn [length Z.of_nat Z.eqb].
    split; [reflexivity |].
    split; [split; [congruence | intros H; destruct H; apply submseteq_nil_l] |].
    split; [congruence |]. intros _.
    split; [destruct p; reflexivity |].
    split; [reflexivity |]. split; [reflexivity |].
    unfold Player_GetRackSize. lia.
  - destruct (Z.eqb_spec (Z.of_nat (length (t :: ts))) 0) as [H0 | _];
      [cbn [length] in H0; lia |].
    rewrite copy_exact by apply length_replicate.
    destruct (removeEach_spec (t :: ts) (Rack p)) as [Hin Hout].
    destruct (decide (t :: ts ⊆+ Rack p)) as [Hsub | Hsub].
    + destruct (Hin Hsub) as (rc' & -> & Hperm & Hsl).
      cbn [mbind Go_bind]. exists (set_Rack p rc'), None.
      split; [reflexivity |].
      split; [split; [congruence | intros H; contradiction] |].
      split; [congruence |]. intros _. cbn [Rack set_Rack].
      split; [reflexivity |]. split; [exact Hperm |]. split; [exact Hsl |].
      unfold Player_GetRackSize. cbn [Rack set_Rack].
      apply Permutation_length in Hperm. rewrite length_app in Hperm. lia.
    + destruct (Hout Hsub) as (t' & _ & ->).
      cbn [mbind Go_bind]. exists p, (Some (ErrTileNotFound t')).
      split; [reflexivity |].
      split; [split; [intros _; exact Hsub | discriminate] |].
      split; [reflexivity | discriminate].
Qed.

Example RemoveTilesByValue_duplicate :
  Player_RemoveTilesByValue
    (mkPlayer "test" "TestPlayer"
       [mkTile 65 1 false; mkTile 66 3 false; mkTile 65 1 false;
        mkTile 67 3 false; mkTile 0 0 true] 0 true)
    [mkTile 66 3 false; mkTile 65 1 false]
  = Ret (mkPlayer "test" "TestPlayer"
           [mkTile 65 1 false; mkTile 67 3 false; mkTile 0 0 true] 0 true,
         None).
Proof. reflexivity. Qed.

Example RemoveTilesByValue_missing :
  Player_RemoveTilesByValue
    (mkPlayer "test" "TestPlayer" [mkTile 65 1 false; mkTile 66 3 false] 0 true)
    [mkTile 65 1 false; mkTile 65 1 false]
  = Ret (mkPlayer "test" "TestPlayer"
           [mkTile 65 1 false; mkTile 66 3 false] 0 true,
         Some (ErrTileNotFound (mkTile 65 1 false))).
Proof. reflexivity. Qed.

Lemma RemoveTilesByValue_all_or_nothing_witness :
  ∃ p', Player_RemoveTilesByValue
          (mkPlayer "test" "TestPlayer"
             [mkTile 65 1 false; mkTile 66 3 false; mkTile 65 1 false] 0 true)
          [mkTile 65 1 false; mkTile 65 1 false] = Ret (p', None) ∧
        Rack p' `sublist_of`
          [mkTile 65 1 false; mkTile 66 3 false; mkTile 65 1 false] ∧
        Player_GetRackSize p' = 1.
Proof.
  destruct (RemoveTilesByValue_all_or_nothing
              (mkPlayer "test" "TestPlayer"
                 [mkTile 65 1 false; mkTile 66 3 false; mkTile 65 1 false] 0 true)
              [mkTile 65 1 false; mkTile 65 1 false])
    as (p' & err & Hrun & _ & _ & Hok).
  vm_compute in Hrun. injection Hrun as <- <-.
  eexists. split; [reflexivity |].
  destruct (Hok eq_refl) as (_ & _ & Hsl & Hsize).
  split; [exact Hsl | exact Hsize].
Defined.

(** ** C7: the tiles of a new bag *)

Lemma swap_Permutation {A : Type} (a : list A) (i j : nat) (x y : A) :
  a !! i = Some x → a !! j = Some y → <[j := x]> (<[i := y]> a) ≡ₚ a.
Proof.
  intros Hi Hj.
  pose proof (lookup_lt_Some _ _ _ Hi) as Hilt.
  pose proof (lookup_lt_Some _ _ _ Hj) as Hjlt.
  apply Permutation_inj. split; [rewrite !length_insert; reflexivity |].
  exists (λ k, if decide (k = i) then j else if decide (k = j) then i else k).
  split.
  - intros k1 k2 Heq. repeat case_decide; congruence.
  - intros k. destruct (decide (k = j)) as [-> | Hkj].
    + rewrite list_lookup_insert_eq by (rewrite length_insert; exact Hjlt).
      case_decide; congruence.
    + rewrite list_lookup_insert_ne by congruence.
      destruct (decide (k = i)) as [-> | Hki].
      * rewrite list_lookup_insert_eq by exact Hilt. congruence.
      * rewrite list_lookup_insert_ne by congruence. reflexivity.
Qed.

Lemma swap_Ret {A : Type} (a : list A) (i j : Z) :
  0 ≤ i < Z.of_nat (length a) → 0 ≤ j < Z.of_nat (length a) →
  ∃ a', swap a i j = Ret a' ∧ a' ≡ₚ a.
Proof.
  intros Hi Hj. unfold swap.
  destruct (index_Ret a i Hi) as (x & -> & Hx).
  destruct (index_Ret a j Hj) as (y & -> & Hy).
  cbn [mbind Go_bind]. rewrite store_Ret by exact Hi. cbn [mbind Go_bind].
  rewrite store_Ret by (rewrite length_insert; exact Hj).
  eexists. split; [reflexivity |]. eapply swap_Permutation; eassumption.
Qed.

Lemma shuffle_loop_Permutation (steps : list Z) : ∀ (ts : list Tile) (src : Rand),
  Forall (λ i, 0 < i < Z.of_nat (length ts)) steps →
  ∃ ts' src',
    forRange (λ (st : list Tile * Rand) i,
        r ← Intn (i + 1) st.2;
        ts' ← swap st.1 i r.1;
        Ret (ts', r.2))
      (ts, src) steps = Ret (ts', src') ∧
    ts' ≡ₚ ts.
Proof.
  induction steps as [| i steps IH]; intros ts src Hsteps.
  - exists ts, src. split; reflexivity.
  - apply Forall_cons in Hsteps as [Hi Hsteps]. cbn [forRange snd fst].
    assert (∃ j src1, Intn (i + 1) src = Ret (j, src1) ∧ 0 ≤ j < i + 1)
      as (j & src1 & -> & Hj).
    { unfold Intn. destruct (Z.leb_spec (i + 1) 0) as [? | _]; [lia |].
      destruct src as [| r src1].
      - exists 0, []. split; [reflexivity | lia].
      - exists (r mod (i + 1)), src1. split; [reflexivity |].
        apply Z.mod_pos_bound. lia. }
    cbn [mbind Go_bind fst snd].
    destruct (swap_Ret ts i j) as (ts1 & -> & Hperm); [lia | lia |].
    cbn [mbind Go_bind].
    destruct (IH ts1 src1) as (ts' & src' & Hrun & Hperm').
    { rewrite (Permutation_length Hperm). exact Hsteps. }
    exists ts', src'. split; [exact Hrun |].
    rewrite Hperm'. exact Hperm.
Qed.

(** The shuffle returns, and returns the same tiles in some order. *)
Lemma shuffle_Permutation (src : Rand) (ts : list Tile) :
  ∃ ts', shuffle src ts = Ret ts' ∧ ts' ≡ₚ ts.
Proof.
  unfold shuffle.
  destruct (shuffle_loop_Permutation
              (reverse (seqZ 1 (Z.of_nat (length ts) - 1))) ts src)
    as (ts' & src' & -> & Hperm).
  - apply Forall_reverse, Forall_forall. intros i Hi%elem_of_seqZ. lia.
  - exists ts'. split; [reflexivity | exact Hperm].
Qed.

(** [ReturnTiles] puts the tiles back: the bag holds its old tiles and
    the returned ones, in some order. *)
Lemma ReturnTiles_reclaims (src : Rand) (tb : TileBag) (ts : list Tile) :
  ∃ tb', TileBag_ReturnTiles src tb ts = Ret tb' ∧
         tiles tb' ≡ₚ tiles tb ++ ts ∧
         TileBag_RemainingCount tb' =
           TileBag_RemainingCount tb + Z.of_nat (length ts).
Proof.
  unfold TileBag_ReturnTiles.
  destruct (shuffle_Permutation src (tiles tb ++ ts)) as (ts' & -> & Hperm).
  exists (mkTileBag ts'). split; [reflexivity |]. split; [exact Hperm |].
  unfold TileBag_RemainingCount. cbn [tiles].
  rewrite (Permutation_length Hperm), length_app. lia.
Qed.

Lemma appendTimes_replicate (n : Z) (t : Tile) (ts : list Tile) :
  appendTimes n t ts = ts ++ replicate (Z.to_nat n) t.
Proof.
  unfold appendTimes. rewrite <- (length_seqZ 0 n).
  generalize (seqZ 0 n) as l. intros l. revert ts.
  induction l as [| x l IH]; intros ts; cbn [foldl length replicate].
  - rewrite app_nil_r. reflexivity.
  - rewrite IH, <- app_assoc. reflexivity.
Qed.

Lemma letterTiles_bind (visit : list (Z * dist)) : ∀ ts : list Tile,
  foldl (λ ts entry,
      appendTimes (quantity entry.2) (mkTile entry.1 (points entry.2) false) ts)
    ts visit
  = ts ++ (visit ≫= entryTiles).
Proof.
  induction visit as [| e visit IH]; intros ts; cbn [foldl].
  - cbn. rewrite app_nil_r. reflexivity.
  - rewrite IH, appendTimes_replicate, <- app_assoc. reflexivity.
Qed.

(** The tiles [NewTileBag] puts in the bag before it shuffles them. *)
Lemma NewTileBag_tiles (visit : list (Z * dist)) (src : Rand) :
  ∃ bag, NewTileBag visit src = Ret bag ∧
         tiles bag ≡ₚ (visit ≫= entryTiles) ++ replicate 2 (mkTile 0 0 true).
Proof.
  unfold NewTileBag. rewrite letterTiles_bind, appendTimes_replicate.
  cbn [app].
  destruct (shuffle_Permutation src
              ((visit ≫= entryTiles) ++ replicate (Z.to_nat blankTileCount)
                                          (mkTile 0 0 true)))
    as (ts' & -> & Hperm).
  exists (mkTileBag ts'). split; [reflexivity | exact Hperm].
Qed.

Lemma GetTileValue_outside (letter : Z) :
  ¬ (65 ≤ letter ≤ 90) → GetTileValue letter = 0.
Proof.
  intros Hout. unfold GetTileValue, standardTileDistribution.
  rewrite (not_elem_of_list_to_map_1 (M := gmap Z)); [reflexivity |].
  cbn [fmap list_fmap fst]. intros Hin.
  repeat (apply elem_of_cons in Hin as [-> | Hin]; [lia |]).
  apply elem_of_nil in Hin. exact Hin.
Qed.

(** C7. Blank tiles carry no points. In every run of [NewTileBag], that is
    for every order in which the distribution table is visited and every
    run of the random generator, the bag holds 100 tiles of which exactly
    2 are blank, and each blank has the letter 0 and 0 points;
    [GetTileValue] of the blank marker 0 and of any rune outside A-Z is
    0. *)
Theorem blank_tiles_score_zero (visit : list (Z * dist)) (src : Rand) :
  visit ≡ₚ map_to_list standardTileDistribution →
  (∃ bag,
     NewTileBag visit src = Ret bag ∧
     TileBag_RemainingCount bag = 100 ∧
     length (filter (λ t, IsBlank t = true) (tiles bag)) = 2%nat ∧
     Forall (λ t, IsBlank t = true → Points t = 0 ∧ Letter t = 0) (tiles bag)) ∧
  GetTileValue 0 = 0 ∧
  (∀ letter, ¬ (65 ≤ letter ≤ 90) → GetTileValue letter = 0).
Proof.
  intros Hvisit. split; [| split; [reflexivity | exact GetTileValue_outside]].
  destruct (NewTileBag_tiles visit src) as (bag & Hbag & Hperm).
  exists bag. split; [exact Hbag |].
  rewrite Hvisit in Hperm. unfold TileBag_RemainingCount.
  rewrite Hperm. split; [vm_compute; reflexivity |].
  split; [vm_compute; reflexivity |].
  vm_compute map_to_list. cbn. repeat constructor; intros; discriminate.
Qed.

Lemma blank_tiles_score_zero_witness :
  (∃ bag,
     NewTileBag (map_to_list standardTileDistribution) [3; 1; 4; 1; 5; 9; 2; 6]
       = Ret bag ∧
     TileBag_RemainingCount bag = 100 ∧
     length (filter (λ t, IsBlank t = true) (tiles bag)) = 2%nat) ∧
  GetTileValue 97 = 0.
Proof.
  destruct (blank_tiles_score_zero (map_to_list standardTileDistribution)
              [3; 1; 4; 1; 5; 9; 2; 6])
    as ((bag & Hbag & Hcount & Hblank & _) & _ & Hout); [reflexivity |].
  split; [exists bag; auto |].
  apply Hout. lia.
Defined.

Example GetTileValue_Q : GetTileValue 81 = 10.
Proof. reflexivity. Qed.

(** ** C9: the bonus for seven tiles *)

(** The examples of the design, on the board of a new game. *)
Example WordScore_QUIZ :
  WordScore standardBoard
    [mkWordSquare (mkPosition 1 5) (mkTile 81 10 false) true;
     mkWordSquare (mkPosition 1 6) (mkTile 85 1 false) true;
     mkWordSquare (mkPosition 1 7) (mkTile 73 1 false) true;
     mkWordSquare (mkPosition 1 8) (mkTile 90 10 false) true] = 42.
Proof. reflexivity. Qed.

Example WordScore_WORD :
  WordScore standardBoard
    [mkWordSquare (mkPosition 7 7) (mkTile 87 4 false) true;
     mkWordSquare (mkPosition 7 8) (mkTile 79 1 false) true;
     mkWordSquare (mkPosition 7 9) (mkTile 82 1 false) true;
     mkWordSquare (mkPosition 7 10) (mkTile 68 2 false) true] = 16.
Proof. reflexivity. Qed.

Example WordScore_blank_on_triple_letter :
  WordScore standardBoard
    [mkWordSquare (mkPosition 1 5) (mkTile 0 0 true) true] = 0.
Proof. reflexivity. Qed.

(** C9. A move that places exactly 7 tiles scores the sum of the scores
    of the words it forms plus 50, whichever and however many words these
    are. *)
Theorem seven_tiles_bonus (b : Board) (placed : list PlacedTile)
    (words : list (list WordSquare)) :
  length placed = 7%nat →
  MoveScore b placed words = foldr Z.add 0 (map (WordScore b) words) + 50.
Proof.
  intros Hlen. unfold MoveScore. rewrite Hlen. cbn [Z.of_nat Pos.of_succ_nat].
  change (Z.pos _ =? 7) with true. cbv iota. f_equal.
  induction words as [| w words IH]; cbn [foldr map]; [reflexivity |].
  rewrite IH. reflexivity.
Qed.

Lemma seven_tiles_bonus_witness :
  MoveScore standardBoard
    (map (λ c, mkPlacedTile (mkTile 69 1 false) (mkPosition 7 c))
         [4; 5; 6; 7; 8; 9; 10])
    [map (λ c, mkWordSquare (mkPosition 7 c) (mkTile 69 1 false) true)
         [4; 5; 6; 7; 8; 9; 10]]
  = 14 + 50.
Proof.
  apply (seven_tiles_bonus standardBoard). reflexivity.
Defined.

(** * Part IV: the rest of the board, the bag and the player *)

(** ** Parsing is safe, printing is injective *)

Lemma byte_sub_range (a b : ascii) : 0 ≤ GoString.byte_sub a b < 256.
Proof. unfold GoString.byte_sub. apply Z.mod_pos_bound. lia. Qed.

Lemma parseNormalized_safe (s : string) :
  ∃ p err, parseNormalized s = Ret (p, err) ∧
           (err = None → Position_IsValid p = true) ∧
           (err ≠ None → p = Position_zero).
Proof.
  destruct s as [| C [| d1 [| d2 [| d3 s]]]].
  - rewrite parse_short by (cbn; lia). eexists _, _.
    split; [reflexivity |]. split; [discriminate | reflexivity].
  - rewrite parse_short by (cbn; lia). eexists _, _.
    split; [reflexivity |]. split; [discriminate | reflexivity].
  - rewrite parse_two. cbv zeta.
    pose proof (byte_sub_range C "A"). pose proof (byte_sub_range d1 "0").
    destruct (Z.ltb_spec (GoString.byte_sub C "A") 0),
      (Z.ltb_spec 14 (GoString.byte_sub C "A")); cbn [orb];
      try (eexists _, _; split; [reflexivity |];
           split; [discriminate | reflexivity]).
    destruct (Z.ltb_spec (GoString.byte_sub d1 "0") 1),
      (Z.ltb_spec 15 (GoString.byte_sub d1 "0")); cbn [orb];
      try (eexists _, _; split; [reflexivity |];
           split; [discriminate | reflexivity]).
    eexists _, _. split; [reflexivity |].
    split; [| congruence]. intros _.
    apply Position_IsValid_bounds. cbn [Row Col]. lia.
  - rewrite parse_three. cbv zeta.
    pose proof (byte_sub_range C "A"). pose proof (byte_sub_range d2 "0").
    destruct (Z.ltb_spec (GoString.byte_sub C "A") 0),
      (Z.ltb_spec 14 (GoString.byte_sub C "A")); cbn [orb];
      try (eexists _, _; split; [reflexivity |];
           split; [discriminate | reflexivity]).
    destruct (negb _);
      try (eexists _, _; split; [reflexivity |];
           split; [discriminate | reflexivity]).
    destruct (Z.ltb_spec (10 + GoString.byte_sub d2 "0") 1),
      (Z.ltb_spec 15 (10 + GoString.byte_sub d2 "0")); cbn [orb];
      try (eexists _, _; split; [reflexivity |];
           split; [discriminate | reflexivity]).
    eexists _, _. split; [reflexivity |].
    split; [| congruence]. intros _.
    apply Position_IsValid_bounds. cbn [Row Col]. lia.
  - rewrite parse_long by (cbn; lia). eexists _, _.
    split; [reflexivity |]. split; [discriminate | reflexivity].
Qed.

(** X1. [NewPositionFromString] returns on every string of ASCII bytes;
    when it returns no error the position is on the board, and printing
    it gives a label that parses to the same position; when it returns an
    error the position is the zero value. *)
Theorem NewPositionFromString_safe (s : string) :
  str_all is_ascii s = true →
  ∃ p err, NewPositionFromString s = Ret (p, err) ∧
           (err = None →
              Position_IsValid p = true ∧
              NewPositionFromString (Position_String p) = Ret (p, None)) ∧
           (err ≠ None → p = Position_zero).
Proof.
  intros _. unfold NewPositionFromString at 1.
  destruct (parseNormalized_safe (GoString.ToUpper (GoString.TrimSpace s)))
    as (p & err & Hrun & Hok & Herr).
  exists p, err. split; [exact Hrun |]. split; [| exact Herr].
  intros He. specialize (Hok He). split; [exact Hok |].
  destruct (valid_position_roundtrip p Hok) as (lbl & _ & -> & _ & Hparse).
  exact Hparse.
Qed.

Lemma NewPositionFromString_safe_witness :
  str_all is_ascii " o15 " = true ∧
  (∃ p, NewPositionFromString " o15 " = Ret (p, None) ∧
        Position_IsValid p = true ∧
        NewPositionFromString (Position_String p) = Ret (p, None)) ∧
  str_all is_ascii "H~" = true ∧
  (∃ err, NewPositionFromString "H~" = Ret (Position_zero, Some err)).
Proof.
  split; [reflexivity |]. split.
  - destruct (NewPositionFromString_safe " o15 " eq_refl)
      as (p & err & Hrun & Hok & _).
    vm_compute in Hrun. injection Hrun as <- <-.
    eexists. split; [reflexivity |]. apply Hok. reflexivity.
  - split; [reflexivity |].
    destruct (NewPositionFromString_safe "H~" eq_refl)
      as (p & err & Hrun & _ & Herr).
    destruct err as [e |]; [| vm_compute in Hrun; discriminate Hrun].
    exists e. rewrite <- (Herr ltac:(discriminate)). exact Hrun.
Defined.

(** X2. [String] gives "INVALID" exactly for the positions off the board,
    and two different positions of the board never get the same label. *)
Theorem Position_String_injective (p q : Position) :
  (Position_String p = "INVALID"%string ↔ Position_IsValid p = false) ∧
  (Position_IsValid p = true → Position_IsValid q = true →
   Position_String p = Position_String q → p = q).
Proof.
  split.
  - split.
    + intros Hs. destruct (Position_IsValid p) eqn:Hv; [| reflexivity].
      destruct (valid_position_roundtrip p Hv) as (lbl & _ & Hlbl & _ & Hparse).
      rewrite <- Hlbl, Hs in Hparse. vm_compute in Hparse. discriminate Hparse.
    + intros Hv. unfold Position_String. rewrite Hv. reflexivity.
  - intros Hp Hq Heq.
    destruct (valid_position_roundtrip p Hp) as (lp & _ & Hlp & _ & Hpp).
    destruct (valid_position_roundtrip q Hq) as (lq & _ & Hlq & _ & Hpq).
    rewrite <- Hlp in Hpp. rewrite <- Hlq, <- Heq in Hpq. congruence.
Qed.

Lemma Position_String_injective_witness :
  Position_IsValid (mkPosition 0 0) = true ∧
  Position_IsValid (mkPosition 7 7) = true ∧
  Position_IsValid (mkPosition 6 7) = true ∧
  Position_String (mkPosition 0 0) ≠ Position_String (mkPosition 7 7) ∧
  Position_String (mkPosition 7 7) ≠ Position_String (mkPosition 6 7) ∧
  Position_String (mkPosition 7 7) ≠ "INVALID"%string ∧
  Position_String (mkPosition 15 0) = "INVALID"%string.
Proof.
  destruct (Position_String_injective (mkPosition 0 0) (mkPosition 7 7))
    as [_ Hinj].
  destruct (Position_String_injective (mkPosition 7 7) (mkPosition 6 7))
    as [[Hvalid _] Hinj'].
  destruct (Position_String_injective (mkPosition 15 0) (mkPosition 0 0))
    as [[_ Hinv] _].
  split; [reflexivity |]. split; [reflexivity |]. split; [reflexivity |].
  split; [intros Heq; discriminate (Hinj eq_refl eq_refl Heq) |].
  split; [intros Heq; discriminate (Hinj' eq_refl eq_refl Heq) |].
  split; [intros Heq; discriminate (Hvalid Heq) |].
  apply Hinv. reflexivity.
Defined.

(** ** Loops *)

Lemma forRange_app {S A : Type} (body : S → A → Go S) (l k : list A) : ∀ s,
  forRange body s (l ++ k) = s' ← forRange body s l; forRange body s' k.
Proof.
  induction l as [| x l IH]; intros s; cbn [app forRange]; [reflexivity |].
  destruct (body s x) as [s1 |]; cbn [mbind Go_bind]; [apply IH | reflexivity].
Qed.

Lemma forRange_ext {S A : Type} (body body' : S → A → Go S) (l : list A) : ∀ s,
  (∀ s x, x ∈ l → body s x = body' s x) →
  forRange body s l = forRange body' s l.
Proof.
  induction l as [| x l IH]; intros s Hext; cbn [forRange]; [reflexivity |].
  rewrite (Hext s x) by (apply elem_of_cons; auto).
  destruct (body' s x) as [s1 |]; cbn [mbind Go_bind]; [| reflexivity].
  apply IH. intros s' y Hy. apply Hext, elem_of_cons. auto.
Qed.

(** A loop whose body appends to a slice. *)
Lemma forRange_append {A B : Type} (g : A → Go (list B)) (f : A → list B)
    (l : list A) : ∀ acc,
  (∀ x, x ∈ l → g x = Ret (f x)) →
  forRange (λ acc x, ys ← g x; Ret (acc ++ ys)) acc l = Ret (acc ++ (l ≫= f)).
Proof.
  induction l as [| x l IH]; intros acc Hg; cbn [forRange].
  - cbn. rewrite app_nil_r. reflexivity.
  - rewrite (Hg x) by (apply elem_of_cons; auto). cbn [mbind Go_bind].
    rewrite IH by (intros y Hy; apply Hg, elem_of_cons; auto).
    cbn [mbind list_bind]. rewrite app_assoc. reflexivity.
Qed.

Lemma anyRange_existsb {A : Type} (test : A → Go bool) (f : A → bool)
    (l : list A) :
  (∀ x, x ∈ l → test x = Ret (f x)) → anyRange test l = Ret (existsb f l).
Proof.
  induction l as [| x l IH]; intros Ht; cbn [anyRange existsb]; [reflexivity |].
  rewrite (Ht x) by (apply elem_of_cons; auto).
  destruct (f x); [reflexivity |].
  apply IH. intros y Hy. apply Ht, elem_of_cons. auto.
Qed.

Lemma elem_of_range15 (z : Z) : z ∈ range15 ↔ 0 ≤ z < 15.
Proof. unfold range15. rewrite elem_of_seqZ. lia. Qed.

Lemma elem_of_allPositions (pos : Position) :
  pos ∈ allPositions ↔ Position_IsValid pos = true.
Proof.
  unfold allPositions. rewrite Position_IsValid_bounds, list_elem_of_bind.
  split.
  - intros (r & Hin & Hr). apply list_elem_of_bind in Hin as (c & Hin & Hc).
    apply list_elem_of_singleton in Hin as ->. cbn.
    apply elem_of_range15 in Hr, Hc. auto.
  - intros [Hr Hc]. exists (Row pos). split; [| apply elem_of_range15, Hr].
    apply list_elem_of_bind. exists (Col pos).
    split; [| apply elem_of_range15, Hc].
    destruct pos. apply list_elem_of_singleton. reflexivity.
Qed.

Lemma NoDup_allPositions : NoDup allPositions.
Proof. apply (bool_decide_unpack _). vm_compute. exact I. Qed.

Lemma bind_filter_grid (f : Position → bool) (rows cols : list Z) :
  (rows ≫= λ r, cols ≫= λ c,
     if f (mkPosition r c) then [mkPosition r c] else [])
  = filter (λ pos, f pos = true)
      (rows ≫= λ r, cols ≫= λ c, [mkPosition r c]).
Proof.
  induction rows as [| r rows IH]; [reflexivity |].
  rewrite !bind_cons, filter_app, <- IH. f_equal.
  clear IH. induction cols as [| c cols IHc]; [reflexivity |].
  rewrite !bind_cons. cbn [app]. rewrite filter_cons, <- IHc.
  destruct (f (mkPosition r c)).
  - rewrite decide_True by reflexivity. reflexivity.
  - rewrite decide_False by discriminate. reflexivity.
Qed.

Lemma existsb_grid (f : Position → bool) (rows cols : list Z) :
  existsb (λ r, existsb (λ c, f (mkPosition r c)) cols) rows
  = negb (bool_decide
            ((rows ≫= λ r, cols ≫= λ c,
                if f (mkPosition r c) then [mkPosition r c] else []) = [])).
Proof.
  induction rows as [| r rows IH]; [reflexivity |].
  rewrite bind_cons. cbn [existsb]. rewrite IH. clear IH.
  assert (existsb (λ c, f (mkPosition r c)) cols
          = negb (bool_decide
                    ((cols ≫= λ c, if f (mkPosition r c)
                                   then [mkPosition r c] else []) = [])))
    as ->.
  { induction cols as [| c cols IHc]; [reflexivity |].
    rewrite bind_cons. cbn [existsb]. rewrite IHc.
    destruct (f (mkPosition r c)); [reflexivity |]. reflexivity. }
  destruct (cols ≫= _) as [| p l].
  - cbn [app]. rewrite (bool_decide_eq_true_2 ([] = [])) by reflexivity.
    reflexivity.
  - cbn [app]. rewrite !bool_decide_eq_false_2 by discriminate. reflexivity.
Qed.

(** ** The squares that hold a tile *)

Lemma HasTileAt_valid (b : Board) (pos : Position) :
  Board_wf b → Position_IsValid pos = true →
  ∃ sq, Grid_get b (Row pos) (Col pos) = Ret sq ∧
        Board_HasTileAt b pos = Ret (Occupied sq) ∧
        occupiedAt b pos = Occupied sq.
Proof.
  intros Hwf Hv. pose proof Hv as [Hr Hc]%Position_IsValid_bounds.
  destruct (Grid_get_Ret b _ _ Hwf Hr Hc) as (row & sq & _ & _ & Hsq).
  exists sq. split; [exact Hsq |].
  unfold occupiedAt, Board_HasTileAt, Board_IsValidPosition.
  rewrite Hv, Hsq. cbn [negb mbind Go_bind]. split; [reflexivity |].
  destruct (Occupied sq); reflexivity.
Qed.

Lemma occupiedAt_invalid (b : Board) (pos : Position) :
  Position_IsValid pos = false → occupiedAt b pos = false.
Proof.
  intros Hv. unfold occupiedAt, Board_HasTileAt, Board_IsValidPosition.
  rewrite Hv. reflexivity.
Qed.

Lemma occupiedAt_true (b : Board) (pos : Position) :
  occupiedAt b pos = true ↔ Board_HasTileAt b pos = Ret true.
Proof.
  unfold occupiedAt. destruct (Board_HasTileAt b pos) as [[] |];
    split; congruence.
Qed.

(** X3. [GetOccupiedPositions] returns, in row-major order and without
    repetition, exactly the positions at which [HasTileAt] is true; and
    [IsFirstMove] is true exactly when that list is empty. *)
Theorem GetOccupiedPositions_spec (b : Board) :
  Board_wf b →
  ∃ positions,
    Board_GetOccupiedPositions b = Ret positions ∧
    positions = filter (λ pos, occupiedAt b pos = true) allPositions ∧
    (∀ pos, pos ∈ positions ↔ Board_HasTileAt b pos = Ret true) ∧
    NoDup positions ∧
    Board_IsFirstMove b = Ret (bool_decide (positions = [])).
Proof.
  intros Hwf.
  assert (∀ r c, r ∈ range15 → c ∈ range15 →
            ∃ sq, Grid_get b r c = Ret sq ∧
                  occupiedAt b (mkPosition r c) = Occupied sq) as Hcell.
  { intros r c Hr%elem_of_range15 Hc%elem_of_range15.
    destruct (HasTileAt_valid b (mkPosition r c) Hwf) as (sq & Hsq & _ & Hocc).
    - apply Position_IsValid_bounds. auto.
    - eauto. }
  set (cell := λ r c, if occupiedAt b (mkPosition r c)
                      then [mkPosition r c] else []).
  assert (Board_GetOccupiedPositions b =
          Ret (range15 ≫= λ r, range15 ≫= cell r)) as Hrun.
  { unfold Board_GetOccupiedPositions.
    rewrite (forRange_ext _
               (λ acc r, ys ← Ret (range15 ≫= cell r); Ret (acc ++ ys))).
    - rewrite (forRange_append _ (λ r, range15 ≫= cell r)); [reflexivity |].
      reflexivity.
    - intros acc r Hr. cbn [mbind Go_bind].
      rewrite (forRange_ext _ (λ acc c, ys ← Ret (cell r c); Ret (acc ++ ys))).
      + apply (forRange_append _ (cell r)). reflexivity.
      + intros acc' c Hc. destruct (Hcell r c Hr Hc) as (sq & -> & Hocc).
        cbn [mbind Go_bind]. subst cell. cbn beta. rewrite Hocc.
        destruct (Occupied sq); [reflexivity |]. rewrite app_nil_r. reflexivity. }
  assert ((range15 ≫= λ r, range15 ≫= cell r)
          = filter (λ pos, occupiedAt b pos = true) allPositions) as Hfilter.
  { apply (bind_filter_grid (occupiedAt b)). }
  eexists. split; [exact Hrun |]. split; [exact Hfilter |].
  rewrite Hfilter.
  split; [| split; [apply NoDup_filter, NoDup_allPositions |]].
  - intros pos. rewrite list_elem_of_filter, elem_of_allPositions, occupiedAt_true.
    split; [intros [H _]; exact H |].
    intros H. split; [exact H |].
    destruct (Position_IsValid pos) eqn:Hv; [reflexivity |].
    apply occupiedAt_true in H. rewrite occupiedAt_invalid in H by exact Hv.
    discriminate.
  - unfold Board_IsFirstMove.
    rewrite (anyRange_existsb _
               (λ r, existsb (λ c, occupiedAt b (mkPosition r c)) range15)).
    + cbn [mbind Go_bind]. f_equal. rewrite <- Hfilter.
      rewrite (existsb_grid (occupiedAt b)), negb_involutive. reflexivity.
    + intros r Hr. apply anyRange_existsb. intros c Hc.
      destruct (Hcell r c Hr Hc) as (sq & -> & ->). reflexivity.
Qed.

Lemma GetOccupiedPositions_spec_witness :
  let b1 := with_square standardBoard 7 7
              (mkSquare (Some (mkTile 81 10 false)) DoubleWordScore true) in
  let b2 := with_square b1 3 7
              (mkSquare (Some (mkTile 0 0 true)) DoubleLetterScore true) in
  Board_PlaceTile standardBoard (mkTile 81 10 false) (mkPosition 7 7)
    = Ret (b1, None) ∧
  Board_PlaceTile b1 (mkTile 0 0 true) (mkPosition 3 7) = Ret (b2, None) ∧
  Board_wf b2 ∧
  Board_GetOccupiedPositions b2 = Ret [mkPosition 3 7; mkPosition 7 7] ∧
  Board_HasTileAt b2 (mkPosition 3 7) = Ret true ∧
  Board_HasTileAt b2 (mkPosition 7 7) = Ret true ∧
  Board_IsFirstMove b2 = Ret false.
Proof.
  intros b1 b2.
  assert (Board_wf b2) as Hwf
    by (apply with_square_wf, with_square_wf, standardBoard_wf).
  destruct (GetOccupiedPositions_spec b2 Hwf)
    as (positions & Hrun & Hfilter & Hmem & _ & Hfirst).
  assert (positions = [mkPosition 3 7; mkPosition 7 7]) as ->
    by (rewrite Hfilter; vm_compute; reflexivity).
  split; [vm_compute; reflexivity |]. split; [vm_compute; reflexivity |].
  split; [exact Hwf |]. split; [exact Hrun |].
  split; [apply (proj1 (Hmem _)), elem_of_cons; left; reflexivity |].
  split; [apply (proj1 (Hmem _)), elem_of_cons; right;
          apply elem_of_cons; left; reflexivity |].
  exact Hfirst.
Defined.

(** ** Occupancy is consistent *)

Lemma standardBoard_consistent : Board_consistent standardBoard.
Proof. unfold Board_consistent. vm_compute. repeat constructor. Qed.

Lemma with_square_consistent (b : Board) (r c : Z) (sq : Square) :
  Board_consistent b → Occupied sq = negb (isNil (Square_Tile sq)) →
  Board_consistent (with_square b r c sq).
Proof.
  intros Hcons Hsq. unfold with_square.
  destruct (Grid b !! Z.to_nat r) as [row |] eqn:Hrow; [| exact Hcons].
  unfold Board_consistent in *. cbn [Grid].
  apply Forall_insert; [exact Hcons |].
  apply Forall_insert; [| exact Hsq].
  rewrite Forall_lookup in Hcons. exact (Hcons _ _ Hrow).
Qed.

Lemma call_frame (b : Board) (c : BoardCall) :
  Board_wf b →
  ∃ b', call b c = Ret b' ∧ Board_wf b' ∧
        Center b' = Center b ∧ premiums b' = premiums b ∧
        (Board_consistent b → Board_consistent b').
Proof.
  intros Hwf.
  assert (∀ r c sq0 sq, Grid_get b r c = Ret sq0 → Premium sq = Premium sq0 →
            Occupied sq = negb (isNil (Square_Tile sq)) →
            Board_wf (with_square b r c sq) ∧
            Center (with_square b r c sq) = Center b ∧
            premiums (with_square b r c sq) = premiums b ∧
            (Board_consistent b → Board_consistent (with_square b r c sq)))
    as Hstep.
  { intros r c' sq0 sq Hget Hprem Hsq.
    split; [apply with_square_wf, Hwf |].
    split; [apply with_square_Center |].
    split; [eapply with_square_premiums; eassumption |].
    intros Hcons. apply with_square_consistent; assumption. }
  destruct c as [tile pos | pos]; cbn [call].
  - destruct (Position_IsValid pos) eqn:Hv.
    + destruct (PlaceTile_valid b tile pos Hwf Hv) as (sq & Hsq & ->).
      destruct (Occupied sq); cbn [mbind Go_bind fst]; eexists;
        (split; [reflexivity |]).
      * auto.
      * eapply Hstep; [exact Hsq | reflexivity | reflexivity].
    + rewrite (PlaceTile_invalid b tile pos Hv). cbn [mbind Go_bind fst].
      eexists. split; [reflexivity |]. auto.
  - destruct (Position_IsValid pos) eqn:Hv.
    + destruct (RemoveTile_valid b pos Hwf Hv) as (sq & Hsq & ->).
      destruct (Occupied sq); cbn [mbind Go_bind fst]; eexists;
        (split; [reflexivity |]).
      * eapply Hstep; [exact Hsq | reflexivity | reflexivity].
      * auto.
    + rewrite (RemoveTile_invalid b pos Hv). cbn [mbind Go_bind fst].
      eexists. split; [reflexivity |]. auto.
Qed.

Lemma calls_frame (calls : list BoardCall) : ∀ b : Board,
  Board_wf b →
  ∃ b', forRange call b calls = Ret b' ∧ Board_wf b' ∧
        Center b' = Center b ∧ premiums b' = premiums b ∧
        (Board_consistent b → Board_consistent b').
Proof.
  induction calls as [| c calls IH]; intros b Hwf.
  - exists b. cbn. auto.
  - destruct (call_frame b c Hwf) as (b1 & Hcall & Hwf1 & Hce1 & Hp1 & Hc1).
    destruct (IH b1 Hwf1) as (b' & Hrun & Hwf' & Hce' & Hp' & Hc').
    exists b'. cbn [forRange]. rewrite Hcall. cbn [mbind Go_bind].
    split; [exact Hrun |]. split; [exact Hwf' |].
    split; [congruence |]. split; [congruence | auto].
Qed.

(** X4. On a board where every square is occupied exactly when it holds a
    tile, as on a new board, every sequence of [PlaceTile] and
    [RemoveTile] calls leaves a board of that kind; and on it, at every
    position of the board, [IsEmpty] is the negation of [HasTileAt] and
    [GetTile] returns a tile exactly when [HasTileAt] is true. *)
Theorem occupancy_consistent (b : Board) (calls : list BoardCall) :
  Board_wf b → Board_consistent b →
  ∃ b', forRange call b calls = Ret b' ∧
        Board_wf b' ∧ Board_consistent b' ∧
        ∀ pos, Position_IsValid pos = true →
          ∃ has, Board_HasTileAt b' pos = Ret has ∧
                 Board_IsEmpty b' pos = Ret (negb has) ∧
                 ∃ tile, Board_GetTile b' pos = Ret tile ∧
                         (is_Some tile ↔ has = true).
Proof.
  intros Hwf Hcons.
  destruct (calls_frame calls b Hwf) as (b' & Hrun & Hwf' & _ & _ & Hcons').
  specialize (Hcons' Hcons).
  exists b'. split; [exact Hrun |]. split; [exact Hwf' |].
  split; [exact Hcons' |].
  intros pos Hv. pose proof Hv as [Hr Hc]%Position_IsValid_bounds.
  destruct (Grid_get_Ret b' _ _ Hwf' Hr Hc) as (row & sq & Hrow & Hsq & Hget).
  assert (Occupied sq = negb (isNil (Square_Tile sq))) as Hsqc.
  { unfold Board_consistent in Hcons'. rewrite Forall_lookup in Hcons'.
    specialize (Hcons' _ _ Hrow). rewrite Forall_lookup in Hcons'.
    exact (Hcons' _ _ Hsq). }
  unfold Board_HasTileAt, Board_IsEmpty, Board_GetTile, Board_IsValidPosition,
    Square_IsEmpty.
  rewrite Hv, Hget. cbn [negb mbind Go_bind].
  exists (Occupied sq). split; [reflexivity |].
  destruct sq as [[t |] p o]; cbn in *; subst o; cbn.
  - split; [reflexivity |]. eexists. split; [reflexivity |].
    split; [reflexivity | eauto].
  - split; [reflexivity |]. eexists. split; [reflexivity |].
    split; [intros [? ?]; discriminate | discriminate].
Qed.

Lemma occupancy_consistent_witness :
  Board_wf standardBoard ∧ Board_consistent standardBoard ∧
  ∃ b', forRange call standardBoard
          [CallPlaceTile (mkTile 81 10 false) (mkPosition 7 7);
           CallRemoveTile (mkPosition 0 0)] = Ret b' ∧
        Board_wf b' ∧ Board_consistent b'.
Proof.
  split; [exact standardBoard_wf |]. split; [exact standardBoard_consistent |].
  destruct (occupancy_consistent standardBoard
              [CallPlaceTile (mkTile 81 10 false) (mkPosition 7 7);
               CallRemoveTile (mkPosition 0 0)]
              standardBoard_wf standardBoard_consistent)
    as (b' & Hrun & Hwf & Hcons & _).
  exists b'. auto.
Defined.

(** ** Removing a tile, and placing it back *)

(** X5. [RemoveTile] returns an error exactly when the position is off the
    board or no tile is recorded there, and then changes nothing and
    returns a nil tile; when it succeeds it returns the tile pointer of
    the square, the square is afterwards empty and not occupied with its
    premium kept, and every other square is as before. *)
Theorem RemoveTile_error_iff_and_frame (b : Board) (pos : Position) :
  Board_wf b →
  ∃ b' tile err,
    Board_RemoveTile b pos = Ret (b', tile, err) ∧
    (err ≠ None ↔
       (Position_IsValid pos = false ∨ Board_HasTileAt b pos = Ret false)) ∧
    (err ≠ None → b' = b ∧ tile = None) ∧
    (err = None →
       Board_wf b' ∧
       Center b' = Center b ∧
       (∃ sq, Board_GetSquare b pos = Ret (Some sq) ∧ tile = Square_Tile sq ∧
              Board_GetSquare b' pos
                = Ret (Some (mkSquare None (Premium sq) false))) ∧
       Board_HasTileAt b' pos = Ret false ∧
       Board_IsEmpty b' pos = Ret true ∧
       Board_GetTile b' pos = Ret None ∧
       ∀ q, q ≠ pos → Board_GetSquare b' q = Board_GetSquare b q).
Proof.
  intros Hwf.
  destruct (Position_IsValid pos) eqn:Hv.
  - destruct (RemoveTile_valid b pos Hwf Hv) as (sq & Hsq & ->).
    pose proof Hv as [Hr Hc]%Position_IsValid_bounds.
    assert (Board_HasTileAt b pos = Ret (Occupied sq)) as Hhas.
    { unfold Board_HasTileAt, Board_IsValidPosition. rewrite Hv, Hsq. reflexivity. }
    rewrite Hhas.
    destruct (Occupied sq) eqn:Hocc.
    + eexists _, _, _. split; [reflexivity |].
      split; [split; [congruence | intros [? | ?]; congruence] |].
      split; [congruence |]. intros _.
      set (sq' := mkSquare None (Premium sq) false).
      assert (Grid_get (with_square b (Row pos) (Col pos) sq') (Row pos) (Col pos)
              = Ret sq') as Hget by (apply with_square_get_eq; assumption).
      split; [apply with_square_wf, Hwf |].
      split; [apply with_square_Center |].
      unfold Board_HasTileAt, Board_GetTile, Board_IsEmpty, Board_GetSquare,
        Board_IsValidPosition.
      rewrite Hv, Hget, Hsq. cbn [negb mbind Go_bind].
      split; [exists sq; auto |]. repeat split.
      intros q Hq.
      apply (GetSquare_with_square_ne b pos q sq' Hv Hq).
    + eexists _, _, _. split; [reflexivity |].
      split; [split; [auto | discriminate] |].
      split; [auto | discriminate].
  - rewrite (RemoveTile_invalid b pos Hv).
    eexists _, _, _. split; [reflexivity |].
    split; [split; [auto | discriminate] |].
    split; [auto | discriminate].
Qed.

Lemma RemoveTile_error_iff_and_frame_witness :
  let b1 := with_square standardBoard 7 7
              (mkSquare (Some (mkTile 81 10 false)) DoubleWordScore true) in
  Board_PlaceTile standardBoard (mkTile 81 10 false) (mkPosition 7 7)
    = Ret (b1, None) ∧
  Board_wf b1 ∧
  Board_HasTileAt b1 (mkPosition 7 7) = Ret true ∧
  ∃ b', Board_RemoveTile b1 (mkPosition 7 7)
          = Ret (b', Some (mkTile 81 10 false), None) ∧
        Board_GetSquare b' (mkPosition 7 7)
          = Ret (Some (mkSquare None DoubleWordScore false)) ∧
        Board_HasTileAt b' (mkPosition 7 7) = Ret false ∧
        (∀ q, q ≠ mkPosition 7 7 →
              Board_GetSquare b' q = Board_GetSquare b1 q) ∧
        ∃ err, Board_RemoveTile b' (mkPosition 7 7) = Ret (b', None, Some err).
Proof.
  intros b1.
  assert (Board_wf b1) as Hwf by (apply with_square_wf, standardBoard_wf).
  split; [vm_compute; reflexivity |]. split; [exact Hwf |].
  split; [vm_compute; reflexivity |].
  destruct (RemoveTile_error_iff_and_frame b1 (mkPosition 7 7) Hwf)
    as (b' & tile & err & Hrun & Hiff & _ & Hok).
  destruct err as [e |].
  { exfalso. destruct (proj1 Hiff ltac:(discriminate)) as [H | H];
      vm_compute in H; discriminate H. }
  destruct (Hok eq_refl)
    as (Hwf' & _ & (sq & Hsq & -> & Hsq') & Hhas & _ & _ & Hframe).
  vm_compute in Hsq. injection Hsq as <-.
  exists b'. split; [exact Hrun |]. split; [exact Hsq' |].
  split; [exact Hhas |]. split; [exact Hframe |].
  destruct (RemoveTile_error_iff_and_frame b' (mkPosition 7 7) Hwf')
    as (b'' & tile' & err' & Hrun' & Hiff' & Herr' & _).
  assert (err' ≠ None) as Hne by (apply Hiff'; right; exact Hhas).
  destruct (Herr' Hne) as [-> ->].
  destruct err' as [e' |]; [| destruct Hne; reflexivity].
  exists e'. exact Hrun'.
Defined.

Lemma with_square_twice (b : Board) (r c : Z) (sq sq' : Square) :
  with_square (with_square b r c sq) r c sq' = with_square b r c sq'.
Proof.
  unfold with_square.
  destruct (Grid b !! Z.to_nat r) as [row |] eqn:Hrow.
  - cbn [Grid Center].
    rewrite list_lookup_insert_eq by (apply lookup_lt_Some in Hrow; lia).
    rewrite list_insert_insert_eq, list_insert_insert_eq. reflexivity.
  - rewrite Hrow. reflexivity.
Qed.

Lemma with_square_same (b : Board) (r c : Z) (sq : Square) :
  0 ≤ r → 0 ≤ c → Grid_get b r c = Ret sq → with_square b r c sq = b.
Proof.
  intros Hr Hc Hget. unfold with_square.
  unfold Grid_get, index in Hget.
  destruct (Z.ltb_spec r 0) as [? | _]; [lia |].
  destruct (Grid b !! Z.to_nat r) as [row |] eqn:Hrow; [| reflexivity].
  cbn [mbind Go_bind] in Hget.
  destruct (Z.ltb_spec c 0) as [? | _]; [lia |].
  destruct (row !! Z.to_nat c) as [sq0 |] eqn:Hsq; [| discriminate].
  injection Hget as ->.
  rewrite (list_insert_id row) by exact Hsq.
  rewrite list_insert_id by exact Hrow. destruct b; reflexivity.
Qed.

(** X6. Placing a tile on a square that holds nothing and removing it again
    gives the tile back and the board as it was; and removing a tile and
    placing it back gives the board as it was. *)
Theorem PlaceTile_RemoveTile_roundtrip (b : Board) (tile : Tile) (pos : Position) :
  Board_wf b → Board_consistent b →
  (∀ b', Board_PlaceTile b tile pos = Ret (b', None) →
         Board_RemoveTile b' pos = Ret (b, Some tile, None)) ∧
  (∀ b' t, Board_RemoveTile b pos = Ret (b', Some t, None) →
           Board_PlaceTile b' t pos = Ret (b, None)).
Proof.
  intros Hwf Hcons.
  destruct (Position_IsValid pos) eqn:Hv.
  2: { split.
       - intros b'. rewrite (PlaceTile_invalid b tile pos Hv). discriminate.
       - intros b' t. rewrite (RemoveTile_invalid b pos Hv). discriminate. }
  pose proof Hv as [Hr Hc]%Position_IsValid_bounds.
  destruct (Grid_get_Ret b _ _ Hwf Hr Hc) as (row & sq & Hrow & Hsq & Hget).
  assert (Occupied sq = negb (isNil (Square_Tile sq))) as Hsqc.
  { unfold Board_consistent in Hcons. rewrite Forall_lookup in Hcons.
    specialize (Hcons _ _ Hrow). rewrite Forall_lookup in Hcons.
    exact (Hcons _ _ Hsq). }
  split.
  - intros b'. destruct (PlaceTile_valid b tile pos Hwf Hv) as (sq0 & Hsq0 & ->).
    rewrite Hget in Hsq0. injection Hsq0 as <-.
    destruct (Occupied sq) eqn:Hocc; [discriminate |].
    intros [= <-].
    set (sq' := mkSquare (Some tile) (Premium sq) true).
    destruct (RemoveTile_valid (with_square b (Row pos) (Col pos) sq') pos)
      as (sq1 & Hsq1 & ->); [apply with_square_wf, Hwf | exact Hv |].
    rewrite with_square_get_eq in Hsq1 by assumption. injection Hsq1 as <-.
    cbn [Occupied sq' Square_Tile Premium]. rewrite with_square_twice.
    rewrite with_square_same; [reflexivity | lia | lia |].
    rewrite Hget. destruct sq as [t p o]. cbn in *.
    destruct t; [discriminate |]. subst o. reflexivity.
  - intros b' t. destruct (RemoveTile_valid b pos Hwf Hv) as (sq0 & Hsq0 & ->).
    rewrite Hget in Hsq0. injection Hsq0 as <-.
    destruct (Occupied sq) eqn:Hocc; [| discriminate].
    intros [= <- Ht].
    set (sq' := mkSquare None (Premium sq) false).
    destruct (PlaceTile_valid (with_square b (Row pos) (Col pos) sq') t pos)
      as (sq1 & Hsq1 & ->); [apply with_square_wf, Hwf | exact Hv |].
    rewrite with_square_get_eq in Hsq1 by assumption. injection Hsq1 as <-.
    cbn [Occupied sq' Square_Tile Premium]. rewrite with_square_twice.
    rewrite with_square_same; [reflexivity | lia | lia |].
    rewrite Hget. destruct sq as [t0 p o]. cbn in *. subst. reflexivity.
Qed.

Lemma PlaceTile_RemoveTile_roundtrip_witness :
  Board_wf standardBoard ∧ Board_consistent standardBoard ∧
  ∃ b', Board_PlaceTile standardBoard (mkTile 81 10 false) (mkPosition 7 7)
          = Ret (b', None) ∧
        Board_RemoveTile b' (mkPosition 7 7)
          = Ret (standardBoard, Some (mkTile 81 10 false), None).
Proof.
  split; [exact standardBoard_wf |]. split; [exact standardBoard_consistent |].
  eexists. split; [vm_compute; reflexivity |].
  apply (PlaceTile_RemoveTile_roundtrip standardBoard (mkTile 81 10 false)
           (mkPosition 7 7) standardBoard_wf standardBoard_consistent).
  vm_compute. reflexivity.
Defined.

(** ** A board stays valid *)

Lemma premium_get_premiums (b b' : Board) (r c : Z) :
  premiums b' = premiums b →
  (sq ← Grid_get b' r c; Ret (Premium sq)) = (sq ← Grid_get b r c; Ret (Premium sq)).
Proof.
  intros Hp. unfold Grid_get, index. destruct (r <? 0); [reflexivity |].
  assert (map Premium <$> (Grid b' !! Z.to_nat r) =
          map Premium <$> (Grid b !! Z.to_nat r)) as Hrow.
  { rewrite <- !list_lookup_fmap. unfold premiums in Hp.
    change map with (@fmap list _) in *. rewrite Hp. reflexivity. }
  destruct (Grid b' !! _) as [row' |], (Grid b !! _) as [row |];
    try discriminate Hrow; [| reflexivity].
  cbn [mbind Go_bind]. destruct (c <? 0); [reflexivity |].
  injection Hrow as Hrow.
  assert (Premium <$> (row' !! Z.to_nat c) = Premium <$> (row !! Z.to_nat c))
    as Hsq.
  { rewrite <- !list_lookup_fmap. change map with (@fmap list _) in *.
    rewrite Hrow. reflexivity. }
  destruct (row' !! _) as [sq' |], (row !! _) as [sq |];
    try discriminate Hsq; [| reflexivity].
  injection Hsq as Hsq. cbn [mbind Go_bind]. rewrite Hsq. reflexivity.
Qed.

Lemma bind_assoc_Go {A B C : Type} (m : Go A) (f : A → Go B) (g : B → Go C) :
  (y ← (x ← m; f x); g y) = (x ← m; y ← f x; g y).
Proof. destruct m; reflexivity. Qed.

Lemma CountPremiumSquares_premiums (b b' : Board) :
  premiums b' = premiums b →
  Board_CountPremiumSquares b' = Board_CountPremiumSquares b.
Proof.
  intros Hp. unfold Board_CountPremiumSquares.
  apply forRange_ext. intros counts r _.
  apply forRange_ext. intros counts' c _.
  pose proof (premium_get_premiums b b' r c Hp) as H.
  destruct (Grid_get b' r c) as [sq' |], (Grid_get b r c) as [sq |];
    cbn [mbind Go_bind] in *; congruence.
Qed.

Lemma ValidateBoard_premiums (visit : list (PremiumType * Z)) (b b' : Board) :
  premiums b' = premiums b → Center b' = Center b →
  Board_ValidateBoard visit b' = Board_ValidateBoard visit b.
Proof.
  intros Hp Hc. unfold Board_ValidateBoard.
  rewrite Hc, (CountPremiumSquares_premiums b b' Hp).
  destruct (_ || _); [reflexivity |].
  destruct (Board_CountPremiumSquares b) as [m |]; [| reflexivity].
  cbn [mbind Go_bind]. destruct (checkCounts m visit); [reflexivity |].
  pose proof (premium_get_premiums b b' (Row (Center b)) (Col (Center b)) Hp) as H.
  destruct (Grid_get b' _ _) as [sq' |], (Grid_get b _ _) as [sq |];
    cbn [mbind Go_bind] in *; try discriminate H; [| reflexivity].
  injection H as ->. reflexivity.
Qed.

(** X7. The outcome of [ValidateBoard] and the counts of
    [CountPremiumSquares] are not changed by [PlaceTile] and [RemoveTile]
    calls: a board that validates keeps validating whatever is played on
    it. *)
Theorem ValidateBoard_stable (visit : list (PremiumType * Z)) (b : Board)
    (calls : list BoardCall) :
  Board_wf b →
  ∃ b', forRange call b calls = Ret b' ∧
        Board_ValidateBoard visit b' = Board_ValidateBoard visit b ∧
        Board_CountPremiumSquares b' = Board_CountPremiumSquares b.
Proof.
  intros Hwf.
  destruct (calls_frame calls b Hwf) as (b' & Hrun & _ & Hc & Hp & _).
  exists b'. split; [exact Hrun |].
  split; [apply ValidateBoard_premiums; assumption |].
  apply CountPremiumSquares_premiums, Hp.
Qed.

Lemma ValidateBoard_stable_witness :
  Board_wf standardBoard ∧
  ∃ b', forRange call standardBoard
          [CallPlaceTile (mkTile 81 10 false) (mkPosition 7 7);
           CallPlaceTile (mkTile 85 1 false) (mkPosition 7 8)] = Ret b' ∧
        Board_ValidateBoard (map_to_list expectedCounts) b' = Ret None.
Proof.
  split; [exact standardBoard_wf |].
  destruct (ValidateBoard_stable (map_to_list expectedCounts) standardBoard
              [CallPlaceTile (mkTile 81 10 false) (mkPosition 7 7);
               CallPlaceTile (mkTile 85 1 false) (mkPosition 7 8)]
              standardBoard_wf) as (b' & Hrun & Hval & _).
  exists b'. split; [exact Hrun |]. rewrite Hval. vm_compute. reflexivity.
Defined.

(** ** Rows and columns *)

(** A loop that fills the first [n] cells of a slice. *)
Lemma fill_loop {A : Type} (g : Z → Go A) (f : nat → A) (n : nat) (s : list A) :
  (n ≤ length s)%nat →
  (∀ i : nat, (i < n)%nat → g (Z.of_nat i) = Ret (f i)) →
  ∃ s', forRange (λ s i, x ← g i; store s i x) s (seqZ 0 (Z.of_nat n)) = Ret s' ∧
        length s' = length s ∧
        ∀ j : nat, s' !! j = if decide (j < n)%nat then Some (f j) else s !! j.
Proof.
  induction n as [| n IH]; intros Hlen Hg.
  - exists s. split; [reflexivity |]. split; [reflexivity |].
    intros j. rewrite decide_False by lia. reflexivity.
  - destruct IH as (s1 & Hrun & Hlen1 & Hlook); [lia | intros i Hi; apply Hg; lia |].
    rewrite seqZ_S, forRange_app, Hrun. cbn [mbind Go_bind forRange].
    rewrite Z.add_0_l, (Hg n) by lia. cbn [mbind Go_bind].
    rewrite store_Ret by lia. cbn [mbind Go_bind]. rewrite Nat2Z.id.
    eexists. split; [reflexivity |].
    split; [rewrite length_insert; exact Hlen1 |].
    intros j. rewrite list_lookup_insert, Hlook.
    destruct (decide (n = j ∧ (n < length s1)%nat)) as [[<- _] | Hne].
    + rewrite decide_True by lia. reflexivity.
    + assert (n ≠ j) by (intros ->; apply Hne; split; [reflexivity | lia]).
      destruct (decide (j < n)%nat).
      * rewrite decide_True by lia. reflexivity.
      * rewrite decide_False by lia. reflexivity.
Qed.

(** X8. [GetRow] and [GetColumn] return nil for an index outside 0..14 and
    otherwise a copy of the 15 squares of that row or column: the square
    they hold at an index is the one [GetSquare] points to. *)
Theorem GetRow_GetColumn_spec (b : Board) :
  Board_wf b →
  (∀ i, ¬ (0 ≤ i < 15) →
     Board_GetRow b i = Ret None ∧ Board_GetColumn b i = Ret None) ∧
  (∀ r, 0 ≤ r < 15 →
     ∃ squares, Board_GetRow b r = Ret (Some squares) ∧
                length squares = 15%nat ∧
                ∀ c, 0 ≤ c < 15 →
                  Board_GetSquare b (mkPosition r c)
                    = Ret (squares !! Z.to_nat c)) ∧
  (∀ c, 0 ≤ c < 15 →
     ∃ squares, Board_GetColumn b c = Ret (Some squares) ∧
                length squares = 15%nat ∧
                ∀ r, 0 ≤ r < 15 →
                  Board_GetSquare b (mkPosition r c)
                    = Ret (squares !! Z.to_nat r)).
Proof.
  intros Hwf.
  assert (∀ r c, 0 ≤ r < 15 → 0 ≤ c < 15 →
            Board_GetSquare b (mkPosition r c) = sq ← Grid_get b r c; Ret (Some sq))
    as HGetSquare.
  { intros r c Hr Hc. unfold Board_GetSquare, Board_IsValidPosition.
    rewrite (proj2 (Position_IsValid_bounds (mkPosition r c))) by (cbn; lia).
    reflexivity. }
  split; [| split].
  - intros i Hi. unfold Board_GetRow, Board_GetColumn.
    destruct (Z.ltb_spec i 0); [split; reflexivity |].
    destruct (Z.leb_spec 15 i); [split; reflexivity | lia].
  - intros r Hr. unfold Board_GetRow.
    destruct (Z.ltb_spec r 0) as [? | _]; [lia |].
    destruct (Z.leb_spec 15 r) as [? | _]; [lia |]. cbn [orb].
    destruct (index_Ret (Grid b) r) as (row & -> & Hrow); [destruct Hwf; lia |].
    pose proof (Board_wf_row _ _ _ Hwf Hrow) as Hlen.
    cbn [mbind Go_bind]. rewrite copy_exact by (rewrite length_replicate; lia).
    exists row. split; [reflexivity |]. split; [exact Hlen |].
    intros c Hc. rewrite HGetSquare by assumption.
    destruct (Grid_get_Ret b r c Hwf Hr Hc) as (row' & sq & Hrow' & Hsq & ->).
    cbn [mbind Go_bind]. congruence.
  - intros c Hc. unfold Board_GetColumn.
    destruct (Z.ltb_spec c 0) as [? | _]; [lia |].
    destruct (Z.leb_spec 15 c) as [? | _]; [lia |]. cbn [orb].
    set (cell := λ r : nat,
           match Grid_get b (Z.of_nat r) c with
           | Ret sq => sq
           | Panic => Square_zero
           end).
    destruct (fill_loop (λ r, Grid_get b r c) cell 15 (replicate 15 Square_zero))
      as (squares & Hrun & Hlen & Hlook).
    { rewrite length_replicate. lia. }
    { intros r Hr.
      destruct (Grid_get_Ret b (Z.of_nat r) c Hwf) as (row & sq & _ & _ & Hget);
        [lia | lia |].
      subst cell. cbn beta. rewrite Hget. reflexivity. }
    unfold range15. change 15 with (Z.of_nat 15) at 1. rewrite Hrun.
    cbn [mbind Go_bind]. exists squares. split; [reflexivity |].
    split; [rewrite Hlen; apply length_replicate |].
    intros r Hr. rewrite HGetSquare by assumption.
    rewrite Hlook, decide_True by lia. subst cell. cbn beta.
    rewrite Z2Nat.id by lia.
    destruct (Grid_get_Ret b r c Hwf Hr Hc) as (row & sq & _ & _ & ->).
    reflexivity.
Qed.

Lemma GetRow_GetColumn_spec_witness :
  Board_wf standardBoard ∧
  Board_GetRow standardBoard 15 = Ret None ∧
  ∃ squares, Board_GetColumn standardBoard 7 = Ret (Some squares) ∧
             Board_GetSquare standardBoard (mkPosition 7 7)
               = Ret (squares !! Z.to_nat 7).
Proof.
  split; [exact standardBoard_wf |].
  destruct (GetRow_GetColumn_spec standardBoard standardBoard_wf)
    as (Hout & _ & Hcol).
  split; [apply (Hout 15); lia |].
  destruct (Hcol 7) as (squares & Hrun & _ & Hsq); [lia |].
  exists squares. split; [exact Hrun |]. apply (Hsq 7). lia.
Defined.

(** ** Neighbours *)

Lemma wrap64_small (z : Z) : -16 ≤ z ≤ 16 → wrap64 z = z.
Proof.
  intros Hz. unfold wrap64, wrap.
  change (2 ^ (64 - 1)) with 9223372036854775808.
  change (2 ^ 64) with 18446744073709551616.
  rewrite Z.mod_small by lia. lia.
Qed.

Lemma elem_of_if_singleton {A : Type} (t : bool) (x y : A) :
  y ∈ (if t then [x] else []) ↔ t = true ∧ y = x.
Proof.
  destruct t.
  - rewrite list_elem_of_singleton. intuition.
  - rewrite elem_of_nil. intuition discriminate.
Qed.

(** The list [GetAdjacentPositions] builds: up, down, left, right, each
    when it is on the board. *)
Lemma GetAdjacentPositions_valid (b : Board) (r c : Z) :
  0 ≤ r < 15 → 0 ≤ c < 15 →
  Board_GetAdjacentPositions b (mkPosition r c) =
    Ret (Some ((if 0 <? r then [mkPosition (r - 1) c] else []) ++
               (if r <? 14 then [mkPosition (r + 1) c] else []) ++
               (if 0 <? c then [mkPosition r (c - 1)] else []) ++
               (if c <? 14 then [mkPosition r (c + 1)] else []))).
Proof.
  intros Hr Hc.
  unfold Board_GetAdjacentPositions, Board_IsValidPosition.
  rewrite (proj2 (Position_IsValid_bounds (mkPosition r c))) by (cbn; lia).
  cbn [negb forRange directions mbind Go_bind Row Col].
  rewrite !Z.add_0_r, !wrap64_small by lia.
  assert (Position_IsValid (mkPosition (r + -1) c) = (0 <? r)) as ->.
  { apply Bool.eq_iff_eq_true.
    rewrite Position_IsValid_bounds, Z.ltb_lt. cbn [Row Col]. lia. }
  assert (Position_IsValid (mkPosition (r + 1) c) = (r <? 14)) as ->.
  { apply Bool.eq_iff_eq_true.
    rewrite Position_IsValid_bounds, Z.ltb_lt. cbn [Row Col]. lia. }
  assert (Position_IsValid (mkPosition r (c + -1)) = (0 <? c)) as ->.
  { apply Bool.eq_iff_eq_true.
    rewrite Position_IsValid_bounds, Z.ltb_lt. cbn [Row Col]. lia. }
  assert (Position_IsValid (mkPosition r (c + 1)) = (c <? 14)) as ->.
  { apply Bool.eq_iff_eq_true.
    rewrite Position_IsValid_bounds, Z.ltb_lt. cbn [Row Col]. lia. }
  change (r + -1) with (r - 1). change (c + -1) with (c - 1).
  destruct (0 <? r), (r <? 14), (0 <? c), (c <? 14); reflexivity.
Qed.

(** X9. For a position of the board, [GetAdjacentPositions] returns,
    without repetition, exactly the positions of the board that share an
    edge with it: between two and four of them. Being in the list is
    symmetric. *)
Theorem GetAdjacentPositions_spec (b : Board) (pos : Position) :
  Position_IsValid pos = true →
  ∃ l, Board_GetAdjacentPositions b pos = Ret (Some l) ∧
       (∀ q, q ∈ l ↔ Position_IsValid q = true ∧ adjacent pos q) ∧
       NoDup l ∧
       (2 ≤ length l ≤ 4)%nat ∧
       (∀ q, q ∈ l →
          ∃ l', Board_GetAdjacentPositions b q = Ret (Some l') ∧ pos ∈ l').
Proof.
  intros Hv.
  assert (∀ p, Position_IsValid p = true →
            ∃ l, Board_GetAdjacentPositions b p = Ret (Some l) ∧
                 (∀ q, q ∈ l ↔ Position_IsValid q = true ∧ adjacent p q) ∧
                 NoDup l ∧ (2 ≤ length l ≤ 4)%nat) as Hchar.
  { clear pos Hv. intros [r c] Hv.
    pose proof Hv as [Hr Hc]%Position_IsValid_bounds. cbn [Row Col] in Hr, Hc.
    eexists. split; [apply GetAdjacentPositions_valid; assumption |].
    split; [| split].
    - intros [qr qc].
      rewrite !elem_of_app, !elem_of_if_singleton, !Z.ltb_lt,
        Position_IsValid_bounds.
      unfold adjacent. cbn [Row Col]. split.
      + intros [[? [= -> ->]] | [[? [= -> ->]] | [[? [= -> ->]] | [? [= -> ->]]]]];
          lia.
      + intros [[Hqr Hqc] [[-> [-> | ->]] | [-> [-> | ->]]]].
        * right. right. left. split; [lia | reflexivity].
        * right. right. right. split; [lia | reflexivity].
        * left. split; [lia | reflexivity].
        * right. left. split; [lia | reflexivity].
    - destruct (Z.ltb_spec 0 r), (Z.ltb_spec r 14),
        (Z.ltb_spec 0 c), (Z.ltb_spec c 14); cbn [app];
        repeat (apply NoDup_cons; split;
                [rewrite ?not_elem_of_cons; repeat split;
                 try apply not_elem_of_nil; intros [= ]; lia |]);
        apply NoDup_nil; exact I.
    - destruct (Z.ltb_spec 0 r), (Z.ltb_spec r 14),
        (Z.ltb_spec 0 c), (Z.ltb_spec c 14); cbn [app length]; lia. }
  destruct (Hchar pos Hv) as (l & Hrun & Hiff & Hnd & Hlen).
  exists l. split; [exact Hrun |]. split; [exact Hiff |].
  split; [exact Hnd |]. split; [exact Hlen |].
  intros q [Hvq Hadj]%Hiff.
  destruct (Hchar q Hvq) as (l' & Hrun' & Hiff' & _).
  exists l'. split; [exact Hrun' |]. apply Hiff'. split; [exact Hv |].
  unfold adjacent in *. lia.
Qed.

Lemma GetAdjacentPositions_spec_witness :
  Position_IsValid (mkPosition 0 14) = true ∧
  ∃ l, Board_GetAdjacentPositions standardBoard (mkPosition 0 14)
         = Ret (Some l) ∧
       NoDup l ∧ (2 ≤ length l ≤ 4)%nat.
Proof.
  split; [reflexivity |].
  destruct (GetAdjacentPositions_spec standardBoard (mkPosition 0 14) eq_refl)
    as (l & Hrun & _ & Hnd & Hlen & _).
  exists l. auto.
Defined.

(** ** No tile is lost or made *)

Lemma DrawTiles_positive (tb : TileBag) (n : Z) :
  0 < n →
  let k := Z.to_nat (Z.min n (Z.of_nat (length (tiles tb)))) in
  TileBag_DrawTiles tb n =
    Ret (drop (length (tiles tb) - k) (tiles tb),
         mkTileBag (take (length (tiles tb) - k) (tiles tb))).
Proof.
  intros Hn k. unfold TileBag_DrawTiles.
  destruct (Z.leb_spec n 0) as [? | _]; [lia |].
  set (available := Z.of_nat (length (tiles tb))) in *.
  set (count := if available <? n then available else n).
  assert (0 ≤ count ≤ available ∧ count = Z.min n available) as [Hcount Hmin].
  { subst count. destruct (Z.ltb_spec available n); lia. }
  unfold slice_from, slice_to. fold available.
  destruct (Z.ltb_spec (available - count) 0) as [? | _]; [lia |].
  destruct (Z.ltb_spec available (available - count)) as [? | _]; [lia |].
  cbn [orb mbind Go_bind].
  rewrite copy_exact.
  2: { rewrite length_replicate, length_drop. subst available. lia. }
  replace (Z.to_nat (available - count)) with (length (tiles tb) - k)%nat
    by (subst k available; lia).
  reflexivity.
Qed.

(** X10. Tiles are conserved by the bag. [ReturnTiles] always returns and
    leaves in the bag the tiles it held and the returned ones, in some
    order; drawing any number of tiles and returning them leaves the same
    tiles and the same count as before the draw, whatever the shuffle
    does. *)
Theorem TileBag_conservation (src : Rand) (tb : TileBag) :
  (∀ ts, ∃ tb', TileBag_ReturnTiles src tb ts = Ret tb' ∧
                tiles tb' ≡ₚ tiles tb ++ ts ∧
                TileBag_RemainingCount tb'
                  = TileBag_RemainingCount tb + Z.of_nat (length ts)) ∧
  (∀ n, ∃ drawn tb1 tb2,
          TileBag_DrawTiles tb n = Ret (drawn, tb1) ∧
          tiles tb ≡ₚ tiles tb1 ++ drawn ∧
          TileBag_ReturnTiles src tb1 drawn = Ret tb2 ∧
          tiles tb2 ≡ₚ tiles tb ∧
          TileBag_RemainingCount tb2 = TileBag_RemainingCount tb).
Proof.
  assert (∀ tb0 ts, ∃ tb', TileBag_ReturnTiles src tb0 ts = Ret tb' ∧
                           tiles tb' ≡ₚ tiles tb0 ++ ts) as Hret.
  { intros tb0 ts. unfold TileBag_ReturnTiles.
    destruct (shuffle_Permutation src (tiles tb0 ++ ts)) as (ts' & -> & Hperm).
    exists (mkTileBag ts'). split; [reflexivity | exact Hperm]. }
  split.
  - intros ts. destruct (Hret tb ts) as (tb' & Hrun & Hperm).
    exists tb'. split; [exact Hrun |]. split; [exact Hperm |].
    unfold TileBag_RemainingCount.
    rewrite (Permutation_length Hperm), length_app. lia.
  - intros n.
    assert (∃ drawn tb1, TileBag_DrawTiles tb n = Ret (drawn, tb1) ∧
                         tiles tb = tiles tb1 ++ drawn)
      as (drawn & tb1 & Hdraw & Hsplit).
    { destruct (Z.lt_ge_cases 0 n) as [Hn | Hn].
      - rewrite (DrawTiles_positive tb n Hn). eexists _, _.
        split; [reflexivity |]. cbn [tiles]. symmetry. apply take_drop.
      - unfold TileBag_DrawTiles.
        destruct (Z.leb_spec n 0) as [_ | ?]; [| lia].
        exists [], tb. split; [reflexivity |]. rewrite app_nil_r. reflexivity. }
    destruct (Hret tb1 drawn) as (tb2 & Hrun & Hperm).
    exists drawn, tb1, tb2. split; [exact Hdraw |].
    split; [rewrite Hsplit; reflexivity |].
    split; [exact Hrun |].
    assert (tiles tb2 ≡ₚ tiles tb) as Hp by (rewrite Hperm, Hsplit; reflexivity).
    split; [exact Hp |].
    unfold TileBag_RemainingCount. rewrite (Permutation_length Hp). reflexivity.
Qed.

Lemma TileBag_conservation_witness :
  let tb := mkTileBag [mkTile 65 1 false; mkTile 66 3 false; mkTile 0 0 true] in
  ∃ drawn tb1 tb2,
    TileBag_DrawTiles tb 2 = Ret (drawn, tb1) ∧
    TileBag_ReturnTiles [4; 0; 7] tb1 drawn = Ret tb2 ∧
    tiles tb2 ≡ₚ tiles tb.
Proof.
  intros tb. destruct (TileBag_conservation [4; 0; 7] tb) as [_ H].
  destruct (H 2) as (drawn & tb1 & tb2 & Hdraw & _ & Hret & Hperm & _).
  exists drawn, tb1, tb2. auto.
Defined.

Lemma wrap64_int (z : Z) : - MaxInt64 - 1 ≤ z ≤ MaxInt64 → wrap64 z = z.
Proof.
  unfold MaxInt64, wrap64, wrap. intros Hz.
  change (2 ^ (64 - 1)) with 9223372036854775808.
  change (2 ^ 64) with 18446744073709551616.
  rewrite Z.mod_small by lia. lia.
Qed.

(** X11. Two draws in a row are one draw of the sum: for positive counts
    whose sum, computed in [int], does not overflow, the second draw
    followed by the first is what a single draw of the sum returns, and
    the bag left is the same. *)
Theorem DrawTiles_twice (tb : TileBag) (n m : Z) :
  0 < n → 0 < m → n + m ≤ MaxInt64 →
  ∃ d1 tb1 d2 tb2,
    TileBag_DrawTiles tb n = Ret (d1, tb1) ∧
    TileBag_DrawTiles tb1 m = Ret (d2, tb2) ∧
    TileBag_DrawTiles tb (wrap64 (n + m)) = Ret (d2 ++ d1, tb2).
Proof.
  intros Hn Hm Hsum. rewrite (wrap64_int (n + m)) by (unfold MaxInt64 in *; lia).
  rewrite (DrawTiles_positive tb n Hn), (DrawTiles_positive tb (n + m))
    by lia.
  eexists _, _, _, _. split; [reflexivity |].
  rewrite (DrawTiles_positive _ m Hm). split; [reflexivity |].
  cbn [tiles]. cbv zeta. rewrite !length_take.
  f_equal. f_equal.
  - match goal with
    | |- drop ?a _ = drop ?b (take ?c _) ++ _ =>
        replace a with b by lia;
        transitivity (drop b (take c (tiles tb) ++ drop c (tiles tb)))
    end.
    + rewrite take_drop. reflexivity.
    + rewrite drop_app_le by (rewrite length_take; lia). reflexivity.
  - rewrite take_take. f_equal. f_equal. lia.
Qed.

Lemma DrawTiles_twice_witness :
  ∃ d1 tb1 d2 tb2,
    TileBag_DrawTiles
      (mkTileBag [mkTile 65 1 false; mkTile 66 3 false; mkTile 0 0 true]) 1
      = Ret (d1, tb1) ∧
    TileBag_DrawTiles tb1 5 = Ret (d2, tb2) ∧
    TileBag_DrawTiles
      (mkTileBag [mkTile 65 1 false; mkTile 66 3 false; mkTile 0 0 true])
      (wrap64 (1 + 5))
      = Ret (d2 ++ d1, tb2).
Proof.
  apply (DrawTiles_twice
           (mkTileBag [mkTile 65 1 false; mkTile 66 3 false; mkTile 0 0 true])
           1 5); [reflexivity | reflexivity | vm_compute; discriminate].
Defined.

(** ** A new bag is a standard set *)

Lemma filter_none {A : Type} (P : A → Prop) `{∀ x, Decision (P x)} (l : list A) :
  Forall (λ x, ¬ P x) l → filter P l = [].
Proof.
  induction 1 as [| x l Hx _ IH]; [reflexivity |].
  rewrite filter_cons, decide_False by exact Hx. exact IH.
Qed.

Lemma NewTileBag_standardTiles (visit : list (Z * dist)) (src : Rand) :
  visit ≡ₚ map_to_list standardTileDistribution →
  ∃ bag, NewTileBag visit src = Ret bag ∧ tiles bag ≡ₚ standardTiles.
Proof.
  intros Hvisit. destruct (NewTileBag_tiles visit src) as (bag & Hbag & Hperm).
  exists bag. split; [exact Hbag |]. rewrite Hperm, Hvisit. reflexivity.
Qed.

Lemma standardTiles_letters :
  Forall (λ t, Letter t ∈ 0 :: seqZ 65 26) standardTiles.
Proof.
  apply (bool_decide_unpack _). vm_compute. exact I.
Qed.

Lemma standardTiles_count (letter : Z) :
  countLetter letter standardTiles = GetTileQuantity letter.
Proof.
  destruct (decide (letter ∈ 0 :: seqZ 65 26)) as [Hin | Hout].
  - vm_compute seqZ in Hin. enumerate Hin; vm_compute; reflexivity.
  - unfold countLetter. rewrite filter_none.
    + unfold GetTileQuantity, standardTileDistribution.
      rewrite (not_elem_of_list_to_map_1 (M := gmap Z)).
      * destruct (Z.eqb_spec letter 0) as [-> | _]; [| reflexivity].
        destruct Hout. apply elem_of_cons. auto.
      * intros Hk. apply Hout. apply elem_of_cons. right.
        vm_compute seqZ. exact Hk.
    + eapply Forall_impl; [exact standardTiles_letters |].
      intros t Ht <-. contradiction.
Qed.

Lemma standardTiles_valid :
  Forall (λ t, tileValid t ∧ Points t = GetTileValue (Letter t)) standardTiles.
Proof.
  unfold tileValid. apply (bool_decide_unpack _). vm_compute. exact I.
Qed.

(** X12. In every run of [NewTileBag] the bag is a standard set: for every
    rune it holds as many tiles with that letter as [GetTileQuantity]
    gives (the blanks under the letter 0, and none for a rune that is
    neither a letter A-Z nor 0), every tile is worth what [GetTileValue]
    gives for its letter, and every tile passes the checks that
    [ValidatePlayer] makes on the tiles of a rack. *)
Theorem NewTileBag_distribution (visit : list (Z * dist)) (src : Rand) :
  visit ≡ₚ map_to_list standardTileDistribution →
  ∃ bag, NewTileBag visit src = Ret bag ∧
         (∀ letter, countLetter letter (tiles bag) = GetTileQuantity letter) ∧
         Forall (λ t, tileValid t ∧ Points t = GetTileValue (Letter t))
                (tiles bag).
Proof.
  intros Hvisit.
  destruct (NewTileBag_standardTiles visit src Hvisit) as (bag & Hbag & Hperm).
  exists bag. split; [exact Hbag |]. split.
  - intros letter. unfold countLetter. rewrite Hperm.
    apply standardTiles_count.
  - rewrite Hperm. exact standardTiles_valid.
Qed.

Lemma NewTileBag_distribution_witness :
  ∃ bag, NewTileBag (map_to_list standardTileDistribution) [2; 7; 1; 8] = Ret bag ∧
         countLetter 69 (tiles bag) = 12 ∧ countLetter 0 (tiles bag) = 2 ∧
         countLetter 97 (tiles bag) = 0.
Proof.
  destruct (NewTileBag_distribution (map_to_list standardTileDistribution)
              [2; 7; 1; 8]) as (bag & Hbag & Hcount & _); [reflexivity |].
  exists bag. split; [exact Hbag |].
  rewrite !Hcount. repeat split.
Defined.

(** ** The table of all tiles *)

Lemma foldl_insert_lookup {A B : Type} (g : A → B) (visit : list (Z * A)) :
  ∀ (result : gmap Z B) (k : Z),
  NoDup visit.*1 →
  foldl (λ (result : gmap Z B) entry, <[entry.1 := g entry.2]> result)
        result visit !! k
  = match list_find (λ entry, entry.1 = k) visit with
    | Some (_, entry) => Some (g entry.2)
    | None => result !! k
    end.
Proof.
  induction visit as [| [k0 a] visit IH]; intros result k Hnd; [reflexivity |].
  cbn [foldl fst snd]. rewrite fmap_cons in Hnd.
  apply NoDup_cons in Hnd as [Hnotin Hnd]. rewrite IH by exact Hnd.
  cbn [list_find fst]. destruct (decide (k0 = k)) as [-> | Hne].
  - cbn [fmap option_fmap option_map].
    destruct (list_find (λ entry, entry.1 = k) visit) as [[i e] |] eqn:Hfind.
    + apply list_find_Some in Hfind as (Hi & He & _). destruct Hnotin.
      rewrite <- He. apply list_elem_of_fmap. exists e.
      split; [reflexivity | eapply list_elem_of_lookup_2, Hi].
    + cbn. apply lookup_insert_eq.
  - destruct (list_find (λ entry, entry.1 = k) visit) as [[i e] |]; cbn.
    + reflexivity.
    + apply lookup_insert_ne, Hne.
Qed.

(** X13. Whatever the iteration order, [GetAllTileInfo] has an entry exactly
    for the letters A-Z and for the blank marker 0, and each entry holds
    the quantity [GetTileQuantity] and the points [GetTileValue] give for
    that rune. *)
Theorem GetAllTileInfo_agrees (visit : list (Z * dist)) (letter : Z) :
  visit ≡ₚ map_to_list standardTileDistribution →
  GetAllTileInfo visit !! letter =
    if bool_decide (letter = 0 ∨ 65 ≤ letter ≤ 90)
    then Some (mkTileInfo (GetTileQuantity letter) (GetTileValue letter))
    else None.
Proof.
  intros Hvisit. unfold GetAllTileInfo.
  destruct (decide (letter = 0)) as [-> | Hne0].
  { rewrite lookup_insert_eq. reflexivity. }
  rewrite lookup_insert_ne by congruence.
  rewrite (foldl_insert_lookup (λ d, mkTileInfo (quantity d) (points d))).
  2: { rewrite Hvisit. apply NoDup_fst_map_to_list. }
  rewrite lookup_empty.
  unfold GetTileQuantity, GetTileValue.
  destruct (standardTileDistribution !! letter) as [d |] eqn:Hd.
  - assert ((letter, d) ∈ visit) as Hin.
    { rewrite Hvisit. apply elem_of_map_to_list, Hd. }
    assert (65 ≤ letter ≤ 90) as Hrange.
    { destruct (decide (65 ≤ letter ≤ 90)) as [? | Hout]; [assumption |].
      pose proof (GetTileValue_outside letter Hout) as H0.
      unfold GetTileValue, standardTileDistribution in *.
      rewrite (not_elem_of_list_to_map_1 (M := gmap Z)) in Hd; [discriminate |].
      cbn [fmap list_fmap fst]. intros Hk.
      repeat (apply elem_of_cons in Hk as [-> | Hk]; [lia |]).
      apply elem_of_nil in Hk. exact Hk. }
    rewrite bool_decide_eq_true_2 by auto.
    destruct (list_find (λ entry, entry.1 = letter) visit) as [[i [k d']] |]
      eqn:Hfind.
    + apply list_find_Some in Hfind as (Hi & Hk & _). cbn in Hk. subst k.
      assert ((letter, d') ∈ map_to_list standardTileDistribution) as Hin'.
      { rewrite <- Hvisit. eapply list_elem_of_lookup_2, Hi. }
      apply elem_of_map_to_list in Hin'. cbn [snd]. congruence.
    + exfalso. rewrite list_find_None, Forall_forall in Hfind.
      exact (Hfind _ Hin eq_refl).
  - destruct (list_find (λ entry, entry.1 = letter) visit) as [[i [k d']] |]
      eqn:Hfind.
    + apply list_find_Some in Hfind as (Hi & Hk & _). cbn in Hk. subst k.
      assert ((letter, d') ∈ map_to_list standardTileDistribution) as Hin'.
      { rewrite <- Hvisit. eapply list_elem_of_lookup_2, Hi. }
      apply elem_of_map_to_list in Hin'. congruence.
    + rewrite bool_decide_eq_false_2; [reflexivity |].
      intros [? | Hrange]; [contradiction |].
      assert (letter ∈ seqZ 65 26) as Hk by (apply elem_of_seqZ; lia).
      vm_compute seqZ in Hk. enumerate Hk; vm_compute in Hd; discriminate Hd.
Qed.

Lemma GetAllTileInfo_agrees_witness :
  GetAllTileInfo (map_to_list standardTileDistribution) !! 81
    = Some (mkTileInfo 1 10).
Proof.
  rewrite (GetAllTileInfo_agrees (map_to_list standardTileDistribution) 81);
    reflexivity.
Defined.

(** ** Holding tiles *)

(** X14. [HasTiles] answers whether the requested tiles, counted with
    multiplicity, are all in the rack, which is exactly when
    [RemoveTilesByValue] would succeed; [HasTile] answers whether the tile
    is in the rack, and agrees with [HasTiles] on a single tile. *)
Theorem HasTiles_iff_removable (p : Player) (ts : list Tile) :
  ∃ has, Player_HasTiles p ts = Ret has ∧
         (has = true ↔ ts ⊆+ Rack p) ∧
         (has = true ↔ ∃ p', Player_RemoveTilesByValue p ts = Ret (p', None)) ∧
         (∀ t, Player_HasTile p t = true ↔ t ∈ Rack p) ∧
         (∀ t, Player_HasTiles p [t] = Ret (Player_HasTile p t)).
Proof.
  assert (∀ t, Player_HasTile p t = true ↔ t ∈ Rack p) as HhasTile.
  { intros t. unfold Player_HasTile. rewrite existsb_exists. split.
    - intros (x & Hin & ->%tilesEqual_eq). apply list_elem_of_In, Hin.
    - intros Hin. exists t. split; [apply list_elem_of_In, Hin |].
      apply tilesEqual_eq. reflexivity. }
  assert (∀ ts', ∃ has, Player_HasTiles p ts' = Ret has ∧
                        (has = true ↔ ts' ⊆+ Rack p) ∧
                        (has = true ↔
                           ∃ p', Player_RemoveTilesByValue p ts' = Ret (p', None)))
    as Hgen.
  { intros ts'. unfold Player_HasTiles, Player_RemoveTilesByValue.
    destruct ts' as [| t ts'].
    - exists true. cbn [length Z.of_nat Z.eqb]. split; [reflexivity |].
      split; [split; [intros _; apply submseteq_nil_l | reflexivity] |].
      split; [eauto | reflexivity].
    - destruct (Z.eqb_spec (Z.of_nat (length (t :: ts'))) 0) as [H0 | _];
        [cbn [length] in H0; lia |].
      rewrite copy_exact by apply length_replicate.
      destruct (removeEach_spec (t :: ts') (Rack p)) as [Hin Hout].
      destruct (decide (t :: ts' ⊆+ Rack p)) as [Hsub | Hsub].
      + destruct (Hin Hsub) as (rc' & -> & _). cbn [mbind Go_bind].
        exists true. split; [reflexivity |].
        split; [split; auto |]. split; [eauto | reflexivity].
      + destruct (Hout Hsub) as (t' & _ & ->). cbn [mbind Go_bind].
        exists false. split; [reflexivity |].
        split; [split; [discriminate | contradiction] |].
        split; [discriminate | intros (p' & [=])]. }
  destruct (Hgen ts) as (has & Hrun & Hsub & Hrem).
  exists has. split; [exact Hrun |]. split; [exact Hsub |].
  split; [exact Hrem |]. split; [exact HhasTile |].
  intros t. destruct (Hgen [t]) as (has1 & -> & Hsub1 & _). f_equal.
  apply Bool.eq_iff_eq_true. rewrite Hsub1, HhasTile.
  apply singleton_submseteq_l.
Qed.

Lemma HasTiles_iff_removable_witness :
  let p := mkPlayer "test" "TestPlayer"
             [mkTile 65 1 false; mkTile 66 3 false; mkTile 65 1 false] 0 true in
  Player_HasTiles p [mkTile 65 1 false; mkTile 65 1 false] = Ret true ∧
  ∃ p', Player_RemoveTilesByValue p [mkTile 65 1 false; mkTile 65 1 false]
        = Ret (p', None).
Proof.
  intros p.
  destruct (HasTiles_iff_removable p [mkTile 65 1 false; mkTile 65 1 false])
    as (has & Hrun & _ & Hrem & _).
  assert (has = true) as -> by (vm_compute in Hrun; congruence).
  split; [exact Hrun | apply Hrem; reflexivity].
Defined.

(** ** The value of a rack *)

Lemma wrap64_add_l (a b : Z) : wrap64 (wrap64 a + b) = wrap64 (a + b).
Proof.
  unfold wrap64, wrap. f_equal.
  replace ((a + 2 ^ (64 - 1)) mod 2 ^ 64 - 2 ^ (64 - 1) + b + 2 ^ (64 - 1))
    with ((a + 2 ^ (64 - 1)) mod 2 ^ 64 + b) by ring.
  rewrite Zplus_mod_idemp_l. f_equal. ring.
Qed.

Lemma wrap64_sub_l (a b : Z) : wrap64 (wrap64 a - b) = wrap64 (a - b).
Proof. apply (wrap64_add_l a (- b)). Qed.

Lemma wrap64_idemp (a : Z) : wrap64 (wrap64 a) = wrap64 a.
Proof. pose proof (wrap64_add_l a 0) as H. rewrite !Z.add_0_r in H. exact H. Qed.

Lemma rackValue_fold (ts : list Tile) : ∀ total,
  foldl (λ total tile, wrap64 (total + Points tile)) (wrap64 total) ts
  = wrap64 (total + sumPoints ts).
Proof.
  induction ts as [| t ts IH]; intros total; cbn [foldl sumPoints foldr].
  - f_equal. lia.
  - rewrite wrap64_add_l, IH. f_equal. fold (sumPoints ts). lia.
Qed.

Lemma GetRackValue_sum (p : Player) :
  Player_GetRackValue p = wrap64 (sumPoints (Rack p)).
Proof.
  unfold Player_GetRackValue. change 0 with (wrap64 0) at 1.
  rewrite rackValue_fold. reflexivity.
Qed.

Lemma sumPoints_app (l k : list Tile) :
  sumPoints (l ++ k) = sumPoints l + sumPoints k.
Proof.
  induction l as [| t l IH]; cbn [app sumPoints foldr]; [reflexivity |].
  fold (sumPoints (l ++ k)) (sumPoints l). lia.
Qed.

Lemma sumPoints_Permutation (l k : list Tile) :
  l ≡ₚ k → sumPoints l = sumPoints k.
Proof.
  assert (∀ t l', sumPoints (t :: l') = Points t + sumPoints l') as Hcons
    by reflexivity.
  induction 1 as [| x l k _ IH | x y l | l k m _ IH1 _ IH2];
    rewrite ?Hcons; lia.
Qed.

(** X15. [GetRackValue] is the sum of the points of the rack (in 64-bit
    arithmetic), so it follows the rack: it goes up by the points of the
    tiles that [AddTilesToRack] adds and down by the points of the tiles
    that [RemoveTilesByValue] removes, and a rack of at most 7 tiles
    worth 0 to 10 points each has the exact sum as value. *)
Theorem GetRackValue_accounting (p : Player) (ts : list Tile) :
  Player_GetRackValue p = wrap64 (sumPoints (Rack p)) ∧
  (∀ p', Player_AddTilesToRack p ts = (p', None) →
         Player_GetRackValue p'
           = wrap64 (Player_GetRackValue p + sumPoints ts)) ∧
  (∀ p', Player_RemoveTilesByValue p ts = Ret (p', None) →
         Player_GetRackValue p'
           = wrap64 (Player_GetRackValue p - sumPoints ts)) ∧
  (Forall (λ t, 0 ≤ Points t ≤ 10) (Rack p) →
   Player_GetRackSize p ≤ MaxRackSize →
   Player_GetRackValue p = sumPoints (Rack p) ∧
   0 ≤ Player_GetRackValue p ≤ 70).
Proof.
  split; [apply GetRackValue_sum |]. split; [| split].
  - intros p'. unfold Player_AddTilesToRack.
    destruct (_ =? 0) eqn:Hlen.
    + intros [= <-]. destruct ts; [| discriminate Hlen].
      rewrite (GetRackValue_sum p), wrap64_add_l. f_equal.
      change (sumPoints []) with 0. lia.
    + destruct (_ <? _); [discriminate |]. intros [= <-].
      rewrite !GetRackValue_sum, wrap64_add_l. cbn [Rack set_Rack].
      rewrite sumPoints_app. reflexivity.
  - intros p'. unfold Player_RemoveTilesByValue.
    destruct (_ =? 0) eqn:Hlen.
    + intros [= <-]. destruct ts; [| discriminate Hlen].
      rewrite (GetRackValue_sum p), wrap64_sub_l. f_equal.
      change (sumPoints []) with 0. lia.
    + rewrite copy_exact by apply length_replicate.
      destruct (removeEach_spec ts (Rack p)) as [Hin Hout].
      destruct (decide (ts ⊆+ Rack p)) as [Hsub | Hsub].
      * destruct (Hin Hsub) as (rc' & -> & Hperm & _). cbn [mbind Go_bind].
        intros [= <-]. rewrite !GetRackValue_sum, wrap64_sub_l.
        cbn [Rack set_Rack]. f_equal.
        rewrite (sumPoints_Permutation _ _ Hperm), sumPoints_app. lia.
      * destruct (Hout Hsub) as (t' & _ & ->). cbn [mbind Go_bind].
        discriminate.
  - intros Hpts Hsize. unfold Player_GetRackSize, MaxRackSize in Hsize.
    assert (0 ≤ sumPoints (Rack p) ≤ 10 * Z.of_nat (length (Rack p))) as Hsum.
    { clear Hsize. revert Hpts. generalize (Rack p) as l.
      induction l as [| t l IH]; intros Hpts.
      - change (sumPoints []) with 0. cbn [length]. lia.
      - apply Forall_cons in Hpts as [Ht Hpts]. specialize (IH Hpts).
        change (sumPoints (t :: l)) with (Points t + sumPoints l).
        cbn [length]. lia. }
    rewrite GetRackValue_sum.
    assert (wrap64 (sumPoints (Rack p)) = sumPoints (Rack p)) as ->.
    { unfold wrap64, wrap.
      change (2 ^ (64 - 1)) with 9223372036854775808.
      change (2 ^ 64) with 18446744073709551616.
      rewrite Z.mod_small by lia. lia. }
    split; [reflexivity | lia].
Qed.

Lemma GetRackValue_accounting_witness :
  let p := mkPlayer "test" "TestPlayer"
             [mkTile 81 10 false; mkTile 0 0 true; mkTile 69 1 false] 0 true in
  Forall (λ t, 0 ≤ Points t ≤ 10) (Rack p) ∧
  Player_GetRackSize p ≤ MaxRackSize ∧
  Player_GetRackValue p = 11 ∧
  ∃ p', Player_RemoveTilesByValue p [mkTile 81 10 false] = Ret (p', None) ∧
        Player_GetRackValue p' = wrap64 (11 - 10).
Proof.
  intros p.
  destruct (GetRackValue_accounting p [mkTile 81 10 false])
    as (_ & _ & Hrem & Hexact).
  assert (Forall (λ t, 0 ≤ Points t ≤ 10) (Rack p)) as Hpts.
  { repeat constructor; cbn; lia. }
  assert (Player_GetRackSize p ≤ MaxRackSize) as Hsize
    by (vm_compute; discriminate).
  split; [exact Hpts |]. split; [exact Hsize |].
  destruct (Hexact Hpts Hsize) as [Hval _].
  split; [rewrite Hval; reflexivity |].
  exists (mkPlayer "test" "TestPlayer" [mkTile 0 0 true; mkTile 69 1 false] 0 true).
  split; [reflexivity |].
  rewrite (Hrem (mkPlayer "test" "TestPlayer"
                   [mkTile 0 0 true; mkTile 69 1 false] 0 true) eq_refl), Hval.
  reflexivity.
Defined.

(** ** Emptying and filling a rack *)

(** X16. [ClearRack] returns the tiles of the rack and leaves an empty
    rack, every other field of the player untouched; when the rack held
    at most 7 tiles, adding the returned tiles back gives the player as
    it was. *)
Theorem ClearRack_roundtrip (p : Player) :
  let (p', ts) := Player_ClearRack p in
  ts = Rack p ∧
  p' = set_Rack p [] ∧
  Player_IsRackEmpty p' = true ∧
  Player_GetRackValue p' = 0 ∧
  (Player_GetRackSize p ≤ MaxRackSize →
   Player_AddTilesToRack p' ts = (p, None)).
Proof.
  unfold Player_ClearRack. rewrite copy_exact by apply length_replicate.
  rewrite take_0.
  split; [reflexivity |]. split; [reflexivity |].
  split; [reflexivity |]. split; [reflexivity |].
  unfold Player_GetRackSize, MaxRackSize, Player_AddTilesToRack.
  intros Hsize. cbn [Rack set_Rack length].
  destruct (Rack p) as [| t l] eqn:Hrack.
  - cbn [length Z.of_nat Z.eqb]. destruct p; cbn in *; subst; reflexivity.
  - destruct (Z.eqb_spec (Z.of_nat (length (t :: l))) 0) as [H0 | _];
      [cbn [length] in H0; lia |].
    destruct (_ <? _) eqn:Hover.
    + apply Z.ltb_lt in Hover. unfold MaxRackSize in Hover.
      rewrite ?Hrack in Hsize. cbn [length] in Hover, Hsize. lia.
    + cbn [app]. destruct p; cbn in *; subst; reflexivity.
Qed.

Lemma ClearRack_roundtrip_witness :
  let p := mkPlayer "test" "TestPlayer"
             [mkTile 81 10 false; mkTile 0 0 true] 3 true in
  Player_GetRackSize p ≤ MaxRackSize ∧
  Player_AddTilesToRack (Player_ClearRack p).1 (Player_ClearRack p).2 = (p, None).
Proof.
  intros p. pose proof (ClearRack_roundtrip p) as H.
  destruct (Player_ClearRack p) as [p' ts].
  destruct H as (_ & _ & _ & _ & H).
  assert (Player_GetRackSize p ≤ MaxRackSize) as Hsize
    by (vm_compute; discriminate).
  split; [exact Hsize | exact (H Hsize)].
Defined.

(** X17. [IsRackFull] is true exactly when the rack refuses one more tile:
    [AddTilesToRack] of a single tile returns an error. *)
Theorem IsRackFull_iff_rejects (p : Player) (t : Tile) :
  Player_IsRackFull p = true ↔ (Player_AddTilesToRack p [t]).2 ≠ None.
Proof.
  unfold Player_IsRackFull, Player_AddTilesToRack, MaxRackSize.
  change (Z.of_nat (length [t])) with 1. change (1 =? 0) with false. cbv iota.
  destruct (Z.leb_spec 7 (Z.of_nat (length (Rack p)))) as [Hfull | Hfree],
    (Z.ltb_spec 7 (Z.of_nat (length (Rack p)) + 1)) as [Hover | Hfit];
    cbn [snd]; try lia.
  - split; [intros _; discriminate | reflexivity].
  - split; [intros [=] | intros H; destruct H; reflexivity].
Qed.

Lemma IsRackFull_iff_rejects_witness :
  let p := mkPlayer "test" "TestPlayer" (replicate 7 (mkTile 69 1 false)) 0 true in
  Player_IsRackFull p = true ∧
  (Player_AddTilesToRack p [mkTile 0 0 true]).2 ≠ None.
Proof.
  intros p. split; [reflexivity |].
  apply (IsRackFull_iff_rejects p (mkTile 0 0 true)). reflexivity.
Defined.

(** ** Validating a player *)

Lemma validateRack_None (rack : list Tile) : ∀ i,
  validateRack i rack = None ↔ Forall tileValid rack.
Proof.
  induction rack as [| t rack IH]; intros i; cbn [validateRack].
  - split; [constructor | reflexivity].
  - rewrite Forall_cons, <- (IH (i + 1)). unfold tileValid.
    destruct t as [l pts blank]. cbn [Points IsBlank Letter].
    destruct (Z.ltb_spec pts 0), blank, (Z.eqb_spec pts 0), (Z.eqb_spec l 0);
      cbn [andb orb negb]; split;
      try discriminate; try (intros [(? & ? & ?) ?]); try lia;
      try (intros H'; split; [repeat split; intros; try lia; try congruence
                             | exact H']);
      try (intuition (congruence || lia)).
Qed.

Lemma ValidatePlayer_None_intro (p : Player) :
  ID p ≠ ""%string → Name p ≠ ""%string →
  Z.of_nat (length (Rack p)) ≤ MaxRackSize → 0 ≤ Score p →
  Forall tileValid (Rack p) →
  Player_ValidatePlayer p = None.
Proof.
  intros Hid Hname Hsize Hscore Hrack. unfold Player_ValidatePlayer.
  destruct (String.eqb_spec (ID p) ""); [contradiction |].
  destruct (String.eqb_spec (Name p) ""); [contradiction |].
  destruct (Z.ltb_spec MaxRackSize (Z.of_nat (length (Rack p)))); [lia |].
  destruct (Z.ltb_spec (Score p) 0); [lia |].
  apply validateRack_None, Hrack.
Qed.

Lemma ValidatePlayer_None_rack (p : Player) :
  Player_ValidatePlayer p = None →
  Z.of_nat (length (Rack p)) ≤ MaxRackSize ∧ Forall tileValid (Rack p).
Proof.
  unfold Player_ValidatePlayer.
  destruct (String.eqb (ID p) ""); [discriminate |].
  destruct (String.eqb (Name p) ""); [discriminate |].
  destruct (Z.ltb_spec MaxRackSize (Z.of_nat (length (Rack p))));
    [discriminate |].
  destruct (Z.ltb (Score p) 0); [discriminate |].
  rewrite validateRack_None. auto.
Qed.

(** X18. [ValidatePlayer] returns nil exactly when the ID and the name are
    not empty, the rack holds at most 7 tiles, the score is not negative,
    and every tile of the rack has non-negative points, 0 points and the
    letter 0 when it is a blank, and a letter other than 0 when it is
    not. *)
Theorem ValidatePlayer_nil_iff (p : Player) :
  Player_ValidatePlayer p = None ↔
    ID p ≠ ""%string ∧ Name p ≠ ""%string ∧
    Player_GetRackSize p ≤ MaxRackSize ∧ 0 ≤ Score p ∧
    Forall tileValid (Rack p).
Proof.
  unfold Player_ValidatePlayer, Player_GetRackSize.
  destruct (String.eqb_spec (ID p) ""); [split; [discriminate | tauto] |].
  destruct (String.eqb_spec (Name p) ""); [split; [discriminate | tauto] |].
  destruct (Z.ltb_spec MaxRackSize (Z.of_nat (length (Rack p))));
    [split; [discriminate | lia] |].
  destruct (Z.ltb_spec (Score p) 0); [split; [discriminate | lia] |].
  rewrite validateRack_None. tauto.
Qed.

Lemma ValidatePlayer_nil_iff_witness :
  let p := mkPlayer "test" "TestPlayer"
             [mkTile 81 10 false; mkTile 0 0 true] 3 true in
  Player_ValidatePlayer p = None ∧ Forall tileValid (Rack p).
Proof.
  intros p. split; [reflexivity |].
  apply (ValidatePlayer_nil_iff p). reflexivity.
Defined.

(** X19. Dealing works: in every run, a new bag holds 100 tiles, drawing
    [n] of them for [n] between 1 and 7 gives exactly [n] tiles and
    leaves [100 - n], a new player with a name takes them without
    error as its rack, and that player then passes [ValidatePlayer].
    An empty ID is replaced by a generated one. *)
Theorem deal_to_new_player (visit : list (Z * dist)) (src : Rand)
    (id name : string) (n : Z) :
  visit ≡ₚ map_to_list standardTileDistribution →
  name ≠ ""%string → 1 ≤ n ≤ 7 →
  ∃ bag drawn bag' p,
    NewTileBag visit src = Ret bag ∧
    TileBag_DrawTiles bag n = Ret (drawn, bag') ∧
    Z.of_nat (length drawn) = n ∧
    TileBag_RemainingCount bag' = 100 - n ∧
    Player_AddTilesToRack (NewPlayer id name) drawn = (p, None) ∧
    Rack p = drawn ∧ ID p ≠ ""%string ∧ Score p = 0 ∧
    Player_ValidatePlayer p = None.
Proof.
  intros Hvisit Hname Hn.
  destruct (NewTileBag_standardTiles visit src Hvisit) as (bag & Hbag & Hperm).
  assert (length (tiles bag) = 100%nat) as Hlen.
  { rewrite (Permutation_length Hperm). vm_compute. reflexivity. }
  assert (Forall tileValid (tiles bag)) as Hvalid.
  { rewrite Hperm. eapply Forall_impl; [exact standardTiles_valid |].
    intros t [Ht _]. exact Ht. }
  pose proof (DrawTiles_positive bag n ltac:(lia)) as Hdraw. cbv zeta in Hdraw.
  rewrite Hlen in Hdraw.
  replace (Z.to_nat (Z.min n (Z.of_nat 100))) with (Z.to_nat n) in Hdraw by lia.
  set (drawn := drop (100 - Z.to_nat n) (tiles bag)) in *.
  assert (Z.of_nat (length drawn) = n) as Hdrawn.
  { subst drawn. rewrite length_drop, Hlen. lia. }
  assert (ID (NewPlayer id name) ≠ ""%string) as Hid.
  { unfold NewPlayer. cbn [ID].
    destruct (String.eqb_spec id ""); [discriminate | assumption]. }
  eexists bag, drawn, _, _. split; [exact Hbag |]. split; [exact Hdraw |].
  split; [exact Hdrawn |].
  split; [unfold TileBag_RemainingCount; cbn [tiles];
          rewrite length_take, Hlen; lia |].
  unfold Player_AddTilesToRack.
  destruct (Z.eqb_spec (Z.of_nat (length drawn)) 0) as [? | _]; [lia |].
  change (Rack (NewPlayer id name)) with (@nil Tile). cbn [length app].
  destruct (Z.ltb_spec MaxRackSize (Z.of_nat 0 + Z.of_nat (length drawn)))
    as [Hover | _]; [unfold MaxRackSize in Hover; lia |].
  split; [reflexivity |]. cbn [Rack set_Rack ID Score].
  split; [reflexivity |]. split; [exact Hid |]. split; [reflexivity |].
  apply ValidatePlayer_None_intro; cbn [ID Name Rack Score set_Rack app].
  - exact Hid.
  - exact Hname.
  - unfold MaxRackSize. lia.
  - reflexivity.
  - subst drawn. apply Forall_drop, Hvalid.
Qed.

Lemma deal_to_new_player_witness :
  ∃ bag drawn bag' p,
    NewTileBag (map_to_list standardTileDistribution) [5; 3; 8] = Ret bag ∧
    TileBag_DrawTiles bag 7 = Ret (drawn, bag') ∧
    Player_AddTilesToRack (NewPlayer "" "Alice") drawn = (p, None) ∧
    ID p = "player_4"%string ∧
    Player_ValidatePlayer p = None.
Proof.
  destruct (deal_to_new_player (map_to_list standardTileDistribution) [5; 3; 8]
              "" "Alice" 7)
    as (bag & drawn & bag' & p & Hbag & Hdraw & _ & _ & Hadd & Hrack & _ & _ & Hval);
    [reflexivity | discriminate | lia |].
  exists bag, drawn, bag', p. split; [exact Hbag |]. split; [exact Hdraw |].
  split; [exact Hadd |]. split; [| exact Hval].
  unfold Player_AddTilesToRack in Hadd.
  destruct (_ =? 0); [injection Hadd as <-; reflexivity |].
  destruct (_ <? _); [discriminate Hadd | injection Hadd as <-; reflexivity].
Defined.

(** ** Removing tiles by index *)

Lemma firstInvalidIndex_None (size : Z) (indices : list Z) :
  firstInvalidIndex size indices = None ↔ Forall (λ i, 0 ≤ i < size) indices.
Proof.
  unfold firstInvalidIndex.
  induction indices as [| i indices IH]; cbn [List.find].
  - split; [constructor | reflexivity].
  - rewrite Forall_cons, <- IH.
    destruct (Z.ltb_spec i 0), (Z.leb_spec size i); cbn [orb];
      split; try discriminate; try tauto; try (intros [? ?]; lia).
Qed.

Lemma firstDuplicate_None (indices : list Z) : ∀ indexSet : gmap Z bool,
  firstDuplicate indexSet indices = None ↔
    NoDup indices ∧ Forall (λ i, seen indexSet i = false) indices.
Proof.
  induction indices as [| i indices IH]; intros indexSet; cbn [firstDuplicate].
  - split; [intros _; split; constructor | reflexivity].
  - rewrite NoDup_cons, Forall_cons.
    destruct (seen indexSet i) eqn:Hi.
    + split; [discriminate | intros (_ & [=] & _)].
    + rewrite IH.
      assert (Forall (λ j, seen (<[i := true]> indexSet) j = false) indices ↔
              (i ∉ indices) ∧ Forall (λ j, seen indexSet j = false) indices)
        as ->.
      { rewrite !Forall_forall. unfold seen. split.
        - intros H'. split.
          + intros Hin. specialize (H' i Hin).
            rewrite lookup_insert_eq in H'. discriminate H'.
          + intros j Hj. specialize (H' j Hj).
            destruct (decide (i = j)) as [-> | Hne].
            * rewrite lookup_insert_eq in H'. discriminate H'.
            * rewrite lookup_insert_ne in H' by exact Hne. exact H'.
        - intros [Hnotin H'] j Hj.
          rewrite lookup_insert_ne by (intros ->; contradiction).
          apply H', Hj. }
      tauto.
Qed.

(** The loop that copies out the tiles to return. *)
Lemma removed_loop (rack : list Tile) (rest : list Z) : ∀ done : list Tile,
  Forall (λ i, 0 ≤ i < Z.of_nat (length rack)) rest →
  forRange (λ (st : list Tile * Z) i,
      t ← index rack i;
      removedTiles ← store st.1 st.2 t;
      Ret (removedTiles, st.2 + 1))
    (done ++ replicate (length rest) Tile_zero, Z.of_nat (length done)) rest
  = Ret (done ++ ((λ i, default Tile_zero (rack !! Z.to_nat i)) <$> rest),
         Z.of_nat (length done + length rest)).
Proof.
  induction rest as [| i rest IH]; intros done Hrange.
  - cbn. rewrite Nat.add_0_r. reflexivity.
  - apply Forall_cons in Hrange as [Hi Hrange]. cbn [forRange fst snd].
    destruct (index_Ret rack i Hi) as (t & -> & Ht). cbn [mbind Go_bind].
    rewrite store_Ret
      by (rewrite length_app, length_replicate; cbn [length]; lia).
    cbn [mbind Go_bind]. rewrite Nat2Z.id.
    cbn [replicate length].
    rewrite insert_app_r_alt by lia. rewrite Nat.sub_diag. cbn [insert list_insert].
    specialize (IH (done ++ [t]) Hrange).
    rewrite <- !app_assoc, length_app in IH. cbn [app length] in IH.
    replace (Z.of_nat (length done) + 1) with (Z.of_nat (length done + 1)) by lia.
    rewrite IH, fmap_cons, Ht. cbn [default].
    f_equal. f_equal. lia.
Qed.

(** The loop that deletes the sorted indices, largest first. *)
Lemma delete_loop (js : list Z) : ∀ rack : list Tile,
  StronglySorted Z.gt js →
  Forall (λ j, 0 ≤ j < Z.of_nat (length rack)) js →
  ∃ rack',
    forRange (λ rack i,
        before ← slice_to rack i;
        after ← slice_from rack (i + 1);
        Ret (before ++ after))
      rack js = Ret rack' ∧
    ((λ j, default Tile_zero (rack !! Z.to_nat j)) <$> js) ++ rack' ≡ₚ rack ∧
    rack' `sublist_of` rack ∧
    length rack' = (length rack - length js)%nat.
Proof.
  induction js as [| j js IH]; intros rack Hsorted Hrange.
  - exists rack. cbn. rewrite Nat.sub_0_r. auto.
  - apply StronglySorted_inv in Hsorted as [Hsorted Hgt].
    apply Forall_cons in Hrange as [Hj Hrange]. cbn [forRange].
    unfold slice_to, slice_from.
    destruct (Z.ltb_spec j 0) as [? | _]; [lia |].
    destruct (Z.ltb_spec (Z.of_nat (length rack)) j) as [? | _]; [lia |].
    destruct (Z.ltb_spec (j + 1) 0) as [? | _]; [lia |].
    destruct (Z.ltb_spec (Z.of_nat (length rack)) (j + 1)) as [? | _]; [lia |].
    cbn [orb mbind Go_bind].
    replace (Z.to_nat (j + 1)) with (S (Z.to_nat j)) by lia.
    rewrite <- delete_take_drop.
    destruct (lookup_lt_is_Some_2 rack (Z.to_nat j)) as [t Ht]; [lia |].
    assert (Forall (λ j', 0 ≤ j' < j) js) as Hbelow.
    { rewrite Forall_forall in Hgt, Hrange. apply Forall_forall.
      intros j' Hj'. specialize (Hgt j' Hj'). specialize (Hrange j' Hj'). lia. }
    destruct (IH (delete (Z.to_nat j) rack) Hsorted)
      as (rack' & Hrun & Hperm & Hsub & Hlen).
    { eapply Forall_impl; [exact Hbelow |]. intros j' Hj'. cbn beta in *.
      rewrite length_delete by (rewrite Ht; eauto). lia. }
    exists rack'. split; [exact Hrun |].
    assert (((λ j', default Tile_zero (delete (Z.to_nat j) rack !! Z.to_nat j'))
               <$> js)
            = ((λ j', default Tile_zero (rack !! Z.to_nat j')) <$> js)) as Hsame.
    { apply Forall_fmap_ext. eapply Forall_impl; [exact Hbelow |].
      intros j' Hj'. cbn beta in *. rewrite list_lookup_delete_lt by lia.
      reflexivity. }
    rewrite Hsame in Hperm.
    split; [| split].
    + cbn [fmap list_fmap app]. rewrite Ht. cbn [default].
      rewrite Hperm. symmetry. apply delete_Permutation, Ht.
    + etransitivity; [exact Hsub | apply sublist_delete].
    + rewrite Hlen, length_delete by (rewrite Ht; eauto). cbn [length]. lia.
Qed.

Lemma StronglySorted_ge_gt (l : list Z) :
  StronglySorted Z.ge l → NoDup l → StronglySorted Z.gt l.
Proof.
  induction 1 as [| x l Hl IH Hx]; intros Hnd; [constructor |].
  apply NoDup_cons in Hnd as [Hnotin Hnd].
  constructor; [apply IH, Hnd |].
  rewrite Forall_forall in Hx. apply Forall_forall. intros y Hy.
  specialize (Hx y Hy). assert (x ≠ y) by (intros ->; contradiction). lia.
Qed.

Lemma sortDescending_spec (a : list Z) :
  NoDup a → sortDescending a ≡ₚ a ∧ StronglySorted Z.gt (sortDescending a).
Proof.
  intros Hnd. unfold sortDescending.
  pose proof (merge_sort_Permutation Z.ge a) as Hperm.
  split; [exact Hperm |].
  apply StronglySorted_ge_gt.
  - apply (StronglySorted_merge_sort Z.ge).
  - rewrite Hperm. exact Hnd.
Qed.

(** X20. [RemoveTilesFromRack] returns an error, leaving the player as it
    was and returning a nil slice, exactly when some index is outside the
    rack or occurs twice. Otherwise it returns, in the order of the
    indices, the tiles that the rack held at them, and the new rack is
    the old one without those tiles: the returned tiles and the new rack
    together are the old rack, the tiles that stay keep their order, and
    the rack is shorter by the number of indices. *)
Theorem RemoveTilesFromRack_spec (p : Player) (indices : list Z) :
  ∃ p' removed err,
    Player_RemoveTilesFromRack p indices = Ret (p', removed, err) ∧
    (err = None ↔
       Forall (λ i, 0 ≤ i < Player_GetRackSize p) indices ∧ NoDup indices) ∧
    (err ≠ None → p' = p ∧ removed = None) ∧
    (err = None →
       ∃ ts, removed = Some ts ∧
             p' = set_Rack p (Rack p') ∧
             length ts = length indices ∧
             (∀ k i, indices !! k = Some i → ts !! k = Rack p !! Z.to_nat i) ∧
             ts ++ Rack p' ≡ₚ Rack p ∧
             Rack p' `sublist_of` Rack p ∧
             Player_GetRackSize p' =
               Player_GetRackSize p - Z.of_nat (length indices)).
Proof.
  unfold Player_RemoveTilesFromRack, Player_GetRackSize.
  destruct indices as [| i0 indices0].
  { exists p, (Some []), None. cbn [length Z.of_nat Z.eqb].
    split; [reflexivity |].
    split; [split; [intros _; split; constructor | reflexivity] |].
    split; [congruence |]. intros _. exists [].
    split; [reflexivity |]. split; [destruct p; reflexivity |].
    split; [reflexivity |]. split; [intros k i [=] |].
    split; [reflexivity |]. split; [reflexivity | lia]. }
  set (indices := i0 :: indices0).
  destruct (Z.eqb_spec (Z.of_nat (length indices)) 0) as [H0 | _];
    [subst indices; cbn [length] in H0; lia |].
  destruct (firstInvalidIndex (Z.of_nat (length (Rack p))) indices) as [i |] eqn:Hinv.
  { eexists _, _, _. split; [reflexivity |].
    split; [split; [discriminate |] |].
    - intros [Hrange _]. apply firstInvalidIndex_None in Hrange. congruence.
    - split; [auto | congruence]. }
  apply firstInvalidIndex_None in Hinv.
  destruct (firstDuplicate ∅ indices) as [i |] eqn:Hdup.
  { eexists _, _, _. split; [reflexivity |].
    split; [split; [discriminate |] |].
    - intros [_ Hnd].
      assert (firstDuplicate ∅ indices = None) as H'.
      { apply firstDuplicate_None. split; [exact Hnd |].
        apply Forall_forall. intros j _. reflexivity. }
      congruence.
    - split; [auto | congruence]. }
  apply firstDuplicate_None in Hdup as [Hnd _].
  rewrite copy_exact by apply length_replicate.
  pose proof (removed_loop (Rack p) indices [] Hinv) as Hrem.
  cbn [app length Nat.add] in Hrem. change (Z.of_nat 0) with 0 in Hrem.
  rewrite Hrem. clear Hrem.
  cbn [mbind Go_bind fst].
  destruct (sortDescending_spec indices Hnd) as [Hperm Hsorted].
  destruct (delete_loop (sortDescending indices) (Rack p) Hsorted)
    as (rack' & -> & Hall & Hsub & Hlen).
  { rewrite Hperm. exact Hinv. }
  cbn [mbind Go_bind]. eexists _, _, _. split; [reflexivity |].
  split; [split; [auto | reflexivity] |].
  split; [congruence |]. intros _. eexists. split; [reflexivity |].
  cbn [Rack set_Rack].
  split; [reflexivity |]. split; [apply length_fmap |].
  split; [| split; [| split]].
  - intros k i Hk. rewrite list_lookup_fmap, Hk. cbn [fmap option_fmap option_map].
    rewrite Forall_forall in Hinv.
    destruct (lookup_lt_is_Some_2 (Rack p) (Z.to_nat i)) as [t Ht].
    { specialize (Hinv i (list_elem_of_lookup_2 _ _ _ Hk)). lia. }
    rewrite Ht. reflexivity.
  - rewrite <- Hall. apply Permutation_app_tail.
    apply fmap_Permutation. symmetry. exact Hperm.
  - exact Hsub.
  - rewrite Hlen, (Permutation_length Hperm).
    assert (length indices ≤ length (Rack p))%nat; [| lia].
    apply Permutation_length in Hall.
    rewrite length_app, length_fmap, (Permutation_length Hperm) in Hall. lia.
Qed.

Lemma RemoveTilesFromRack_spec_witness :
  let p := mkPlayer "test" "TestPlayer"
             [mkTile 65 1 false; mkTile 66 3 false; mkTile 67 3 false;
              mkTile 68 2 false] 0 true in
  ∃ p' removed,
    Player_RemoveTilesFromRack p [2; 0] = Ret (p', removed, None) ∧
    Player_GetRackSize p' = 2.
Proof.
  intros p.
  destruct (RemoveTilesFromRack_spec p [2; 0])
    as (p' & removed & err & Hrun & Hiff & _ & Hok).
  assert (err = None) as ->.
  { apply Hiff. split.
    - repeat constructor; vm_compute; discriminate.
    - apply (bool_decide_unpack _). reflexivity. }
  destruct (Hok eq_refl) as (ts & _ & _ & _ & _ & _ & _ & Hsize).
  exists p', removed. split; [exact Hrun | exact Hsize].
Defined.

Example RemoveTilesFromRack_two :
  Player_RemoveTilesFromRack
    (mkPlayer "test" "TestPlayer"
       [mkTile 65 1 false; mkTile 66 3 false; mkTile 67 3 false;
        mkTile 68 2 false] 0 true)
    [2; 0]
  = Ret (mkPlayer "test" "TestPlayer"
           [mkTile 66 3 false; mkTile 68 2 false] 0 true,
         Some [mkTile 67 3 false; mkTile 65 1 false], None).
Proof. reflexivity. Qed.

Example RemoveTilesFromRack_duplicate :
  Player_RemoveTilesFromRack
    (mkPlayer "test" "TestPlayer" [mkTile 65 1 false; mkTile 66 3 false] 0 true)
    [1; 1]
  = Ret (mkPlayer "test" "TestPlayer" [mkTile 65 1 false; mkTile 66 3 false] 0 true,
         None, Some (ErrDuplicateIndex 1)).
Proof. reflexivity. Qed.

(** ** Counting the tiles of a rack *)

Lemma count_fold (f : Tile → bool) (rack : list Tile) : ∀ count : Z,
  foldl (λ count tile, if f tile then count + 1 else count) count rack
  = count + Z.of_nat (length (filter (λ t, f t = true) rack)).
Proof.
  induction rack as [| t rack IH]; intros count; cbn [foldl].
  - cbn. lia.
  - rewrite IH, filter_cons. destruct (f t) eqn:Hf.
    + rewrite decide_True by reflexivity. cbn [length]. lia.
    + rewrite decide_False by discriminate. lia.
Qed.

(** X21. On a player that [ValidatePlayer] accepts, [GetBlankCount] is
    [GetTileCount] of the letter 0, [GetTileCount] of any letter lies
    between 0 and 7, and a tile that [HasTile] finds is counted by
    [GetTileCount] under its letter. *)
Theorem rack_counts (p : Player) (letter : Z) (t : Tile) :
  Player_ValidatePlayer p = None →
  Player_GetBlankCount p = Player_GetTileCount p 0 ∧
  0 ≤ Player_GetTileCount p letter ≤ MaxRackSize ∧
  (Player_HasTile p t = true → 1 ≤ Player_GetTileCount p (Letter t)).
Proof.
  intros Hvalid. apply ValidatePlayer_None_rack in Hvalid as [Hsize Hvalid].
  unfold Player_GetBlankCount, Player_GetTileCount, Player_HasTile.
  rewrite (count_fold IsBlank), !(count_fold (λ tile, Letter tile =? _)).
  repeat split.
  - do 2 f_equal. clear Hsize. induction Hvalid as [| t0 rack Ht0 _ IH];
      [reflexivity |].
    rewrite !filter_cons. destruct Ht0 as (_ & Hblank & Hletter).
    destruct (IsBlank t0) eqn:Hb.
    + destruct (Hblank eq_refl) as [_ ->].
      rewrite !decide_True by reflexivity. cbn [length]. by rewrite IH.
    + specialize (Hletter eq_refl). apply Z.eqb_neq in Hletter.
      rewrite Hletter, !decide_False by discriminate. exact IH.
  - lia.
  - pose proof (length_filter (λ t0, (Letter t0 =? letter) = true) (Rack p)).
    lia.
  - intros Hhas. apply existsb_exists in Hhas as (t' & Hin & Heq).
    apply tilesEqual_eq in Heq. subst t'.
    assert (t ∈ filter (λ t0, (Letter t0 =? Letter t) = true) (Rack p)) as Hf.
    { apply list_elem_of_filter. split; [apply Z.eqb_refl |].
      apply list_elem_of_In, Hin. }
    destruct (filter _ (Rack p)); [by apply elem_of_nil in Hf |].
    cbn [length]. lia.
Qed.

Lemma rack_counts_witness :
  let p := mkPlayer "p1" "Ann" [mkTile 65 1 false; mkTile 0 0 true] 0 true in
  Player_GetBlankCount p = Player_GetTileCount p 0 ∧
  0 ≤ Player_GetTileCount p 65 ≤ MaxRackSize ∧
  (Player_HasTile p (mkTile 65 1 false) = true
   → 1 ≤ Player_GetTileCount p (Letter (mkTile 65 1 false))).
Proof.
  intros p. apply (rack_counts p 65 (mkTile 65 1 false)). reflexivity.
Defined.
